(** * abDraw: shape model, snapping, orthogonal routing and undo history

    A shallow embedding of the core of abDraw (shapes.py, canvas_manager.py
    and the save / open paths of file_manager.py) together with the
    properties the specification states about it.

    Modelling conventions.

    - There are two readings of the arithmetic.  In the exact reading,
      used for the data model, the history, the files and the connection
      passes, a coordinate is an exact rational in canonical form ([Qc]),
      so that equality of coordinates is Leibniz equality; it is what the
      program computes wherever no operation rounds, as on the integer
      coordinates the drawing tools produce.  In the double-precision
      reading, module [Double] further on, a number is a Python [int] or
      an IEEE 754 binary64 [float], every operation rounds as Python's
      does and an exception of the arithmetic is a result.  What the
      specification states about a numeric boundary (the snap threshold,
      the tolerance of the router, the grid) is settled on the second.
    - Python [int] is [Z]; [str] is [string]; [Optional[t]] is [option t].
    - In the exact reading [math.sqrt] is increasing on the non-negative
      numbers, so the test [dist < min_dist] of [get_snap_point] is carried
      out on squared distances: the running minimum is kept squared and
      starts at [snap_distance ** 2].
    - The Tk handles [canvas_id] and [label_canvas_id] and every call into
      the canvas ([draw_shape], [redraw_shape], [canvas.delete], the status
      bar) are rendering and are left out; a shape is its 22 remaining
      dataclass fields and Python's field-wise [==] on [Shape] is equality of
      these.
    - A Python list is a Rocq list in the same order: [append] adds at the
      end, [pop()] takes the last element, [pop(0)] the first. *)

From Stdlib Require Import QArith Qcanon Qcabs Qround ZArith Lia Lqa.
From stdpp Require Import base decidable option list numbers strings relations.

Local Open Scope string_scope.
Local Open Scope Z_scope.
Local Open Scope Qc_scope.
Local Open Scope nat_scope.
Local Open Scope list_scope.

(** Integer literals used as coordinates. *)
Definition Qcz (z : Z) : Qc := Q2Qc (inject_Z z).

(** The literal [0.5] and division by two. *)
Definition half : Qc := Q2Qc (1 # 2).
Definition div2 (q : Qc) : Qc := (q * half)%Qc.

(** A point [[x, y]]. *)
Definition Point : Type := Qc * Qc.

(* ====================================================================== *)
(** * shapes.py *)
(* ====================================================================== *)

(** A connection dictionary [{'target_id': .., 'endpoint': ..}]. *)
Record Connection : Type := mkConnection {
  target_id : Z;
  endpoint : string
}.

(** The dataclass [Shape]. *)
Record Shape : Type := mkShape {
  x1 : Qc;
  y1 : Qc;
  x2 : Qc;
  y2 : Qc;
  color : string;
  width : Z;
  shape_type : string;
  shape_id : Z;
  fill_color : option string;
  connections : list Connection;
  z_order : Z;
  text : option string;
  font_family : string;
  font_size : Z;
  font_bold : bool;
  font_italic : bool;
  text_align : string;
  label : option string;
  label_offset_x : Qc;
  label_offset_y : Qc;
  routing : string;
  waypoints : list Point
}.

(** The dictionary form of a shape: what [to_dict] produces and what
    [from_dict] accepts.  The seven fields without a dataclass default are
    required by [cls( **data)]; every other key may be absent ([None]
    here), in which case the dataclass default applies. *)
Record ShapeDict : Type := mkShapeDict {
  d_x1 : Qc;
  d_y1 : Qc;
  d_x2 : Qc;
  d_y2 : Qc;
  d_color : string;
  d_width : Z;
  d_shape_type : string;
  d_shape_id : option Z;
  d_fill_color : option (option string);
  d_connections : option (list Connection);
  d_z_order : option Z;
  d_text : option (option string);
  d_font_family : option string;
  d_font_size : option Z;
  d_font_bold : option bool;
  d_font_italic : option bool;
  d_text_align : option string;
  d_label : option (option string);
  d_label_offset_x : option Qc;
  d_label_offset_y : option Qc;
  d_routing : option string;
  d_waypoints : option (list Point)
}.

#[global] Instance Connection_eq_dec : EqDecision Connection.
Proof. solve_decision. Defined.

#[global] Instance Shape_eq_dec : EqDecision Shape.
Proof. solve_decision. Defined.

#[global] Instance ShapeDict_eq_dec : EqDecision ShapeDict.
Proof. solve_decision. Defined.

(** [Shape.to_dict]: [asdict] copies every field (lists and the
    dictionaries in them included) under its field name; [canvas_id] is
    popped. *)
Definition to_dict (s : Shape) : ShapeDict :=
  {| d_x1 := x1 s; d_y1 := y1 s; d_x2 := x2 s; d_y2 := y2 s;
     d_color := color s; d_width := width s; d_shape_type := shape_type s;
     d_shape_id := Some (shape_id s);
     d_fill_color := Some (fill_color s);
     d_connections := Some (connections s);
     d_z_order := Some (z_order s);
     d_text := Some (text s);
     d_font_family := Some (font_family s);
     d_font_size := Some (font_size s);
     d_font_bold := Some (font_bold s);
     d_font_italic := Some (font_italic s);
     d_text_align := Some (text_align s);
     d_label := Some (label s);
     d_label_offset_x := Some (label_offset_x s);
     d_label_offset_y := Some (label_offset_y s);
     d_routing := Some (routing s);
     d_waypoints := Some (waypoints s) |}.

(** [Shape.from_dict]: [setdefault] for [routing] and [waypoints], then
    [cls( **data)] with the dataclass defaults for absent keys. *)
Definition from_dict (data : ShapeDict) : Shape :=
  let routing' := default "h_first" (d_routing data) in
  let waypoints' := default [] (d_waypoints data) in
  {| x1 := d_x1 data; y1 := d_y1 data; x2 := d_x2 data; y2 := d_y2 data;
     color := d_color data; width := d_width data;
     shape_type := d_shape_type data;
     shape_id := default 0%Z (d_shape_id data);
     fill_color := default None (d_fill_color data);
     connections := default [] (d_connections data);
     z_order := default 0%Z (d_z_order data);
     text := default None (d_text data);
     font_family := default "Arial" (d_font_family data);
     font_size := default 12%Z (d_font_size data);
     font_bold := default false (d_font_bold data);
     font_italic := default false (d_font_italic data);
     text_align := default "left" (d_text_align data);
     label := default None (d_label data);
     label_offset_x := default (Qcz 0) (d_label_offset_x data);
     label_offset_y := default (Qcz 0) (d_label_offset_y data);
     routing := routing';
     waypoints := waypoints' |}.

(** Python's [min(a, b)] and [max(a, b)] on two numbers. *)
Definition py_min (a b : Qc) : Qc := if bool_decide (b < a)%Qc then b else a.
Definition py_max (a b : Qc) : Qc := if bool_decide (a < b)%Qc then b else a.

(** [Shape.get_bounds]. *)
Definition get_bounds (s : Shape) : Qc * Qc * Qc * Qc :=
  (py_min (x1 s) (x2 s), py_min (y1 s) (y2 s),
   py_max (x1 s) (x2 s), py_max (y1 s) (y2 s)).

(** [[wp[0] + 20, wp[1] + 20]]. *)
Definition shift20 (wp : Point) : Point :=
  ((wp.1 + Qcz 20)%Qc, (wp.2 + Qcz 20)%Qc).

(** [Shape.copy]: the dictionary of the shape with the four coordinates
    moved by 20, [connections] replaced by the empty list and the waypoints
    moved by 20, read back with [from_dict].  The key [shape_id] is not
    touched, and the shape copied is not written to. *)
Definition copy (s : Shape) : Shape :=
  let data := to_dict s in
  from_dict
    {| d_x1 := (d_x1 data + Qcz 20)%Qc;
       d_y1 := (d_y1 data + Qcz 20)%Qc;
       d_x2 := (d_x2 data + Qcz 20)%Qc;
       d_y2 := (d_y2 data + Qcz 20)%Qc;
       d_color := d_color data; d_width := d_width data;
       d_shape_type := d_shape_type data;
       d_shape_id := d_shape_id data;
       d_fill_color := d_fill_color data;
       d_connections := Some [];
       d_z_order := d_z_order data;
       d_text := d_text data;
       d_font_family := d_font_family data;
       d_font_size := d_font_size data;
       d_font_bold := d_font_bold data;
       d_font_italic := d_font_italic data;
       d_text_align := d_text_align data;
       d_label := d_label data;
       d_label_offset_x := d_label_offset_x data;
       d_label_offset_y := d_label_offset_y data;
       d_routing := d_routing data;
       d_waypoints := Some (map shift20 (default [] (d_waypoints data))) |}.

(** Field updates written [shape.f = v] in the source. *)
Definition set_shape_id (s : Shape) (i : Z) : Shape :=
  {| x1 := x1 s; y1 := y1 s; x2 := x2 s; y2 := y2 s;
     color := color s; width := width s; shape_type := shape_type s;
     shape_id := i;
     fill_color := fill_color s; connections := connections s;
     z_order := z_order s; text := text s; font_family := font_family s;
     font_size := font_size s; font_bold := font_bold s;
     font_italic := font_italic s; text_align := text_align s;
     label := label s; label_offset_x := label_offset_x s;
     label_offset_y := label_offset_y s; routing := routing s;
     waypoints := waypoints s |}.

Definition set_connections (s : Shape) (cs : list Connection) : Shape :=
  {| x1 := x1 s; y1 := y1 s; x2 := x2 s; y2 := y2 s;
     color := color s; width := width s; shape_type := shape_type s;
     shape_id := shape_id s;
     fill_color := fill_color s; connections := cs;
     z_order := z_order s; text := text s; font_family := font_family s;
     font_size := font_size s; font_bold := font_bold s;
     font_italic := font_italic s; text_align := text_align s;
     label := label s; label_offset_x := label_offset_x s;
     label_offset_y := label_offset_y s; routing := routing s;
     waypoints := waypoints s |}.

Definition set_start (s : Shape) (p : Point) : Shape :=
  {| x1 := p.1; y1 := p.2; x2 := x2 s; y2 := y2 s;
     color := color s; width := width s; shape_type := shape_type s;
     shape_id := shape_id s;
     fill_color := fill_color s; connections := connections s;
     z_order := z_order s; text := text s; font_family := font_family s;
     font_size := font_size s; font_bold := font_bold s;
     font_italic := font_italic s; text_align := text_align s;
     label := label s; label_offset_x := label_offset_x s;
     label_offset_y := label_offset_y s; routing := routing s;
     waypoints := waypoints s |}.

Definition set_end (s : Shape) (p : Point) : Shape :=
  {| x1 := x1 s; y1 := y1 s; x2 := p.1; y2 := p.2;
     color := color s; width := width s; shape_type := shape_type s;
     shape_id := shape_id s;
     fill_color := fill_color s; connections := connections s;
     z_order := z_order s; text := text s; font_family := font_family s;
     font_size := font_size s; font_bold := font_bold s;
     font_italic := font_italic s; text_align := text_align s;
     label := label s; label_offset_x := label_offset_x s;
     label_offset_y := label_offset_y s; routing := routing s;
     waypoints := waypoints s |}.

Definition set_routing (s : Shape) (r : string) : Shape :=
  {| x1 := x1 s; y1 := y1 s; x2 := x2 s; y2 := y2 s;
     color := color s; width := width s; shape_type := shape_type s;
     shape_id := shape_id s;
     fill_color := fill_color s; connections := connections s;
     z_order := z_order s; text := text s; font_family := font_family s;
     font_size := font_size s; font_bold := font_bold s;
     font_italic := font_italic s; text_align := text_align s;
     label := label s; label_offset_x := label_offset_x s;
     label_offset_y := label_offset_y s; routing := r;
     waypoints := waypoints s |}.

(** A shape as the drawing tools build it: [Shape(x1=.., y1=.., x2=..,
    y2=.., color=.., width=.., shape_type=..)] with every other field at its
    dataclass default, [shape_id = 0] in particular. *)
Definition new_shape (ty : string) (a b c d : Z) : Shape :=
  {| x1 := Qcz a; y1 := Qcz b; x2 := Qcz c; y2 := Qcz d;
     color := "black"; width := 2%Z; shape_type := ty;
     shape_id := 0%Z; fill_color := None; connections := [];
     z_order := 0%Z; text := None; font_family := "Arial";
     font_size := 12%Z; font_bold := false; font_italic := false;
     text_align := "left"; label := None;
     label_offset_x := Qcz 0; label_offset_y := Qcz 0;
     routing := "h_first"; waypoints := [] |}.

(* ====================================================================== *)
(** * canvas_manager.py *)
(* ====================================================================== *)

Definition LINE_TYPES : list string :=
  ["line"; "arrow"; "ortho_line"; "ortho_arrow"].

(** [shape.shape_type in LINE_TYPES]. *)
Definition is_line (s : Shape) : bool :=
  bool_decide (shape_type s ∈ LINE_TYPES).

Definition max_undo : nat := 50.
Definition snap_distance : Qc := Qcz 15.

(** ** Orthogonal path computation *)

(** One turn of the loop of [ortho_path]: [result] is the path so far,
    [prev] its last point ([result] is seeded with the first input point
    and never empty) and [curr] the next input point.  The differences are
    exact here; [Double.ortho_step] is the same turn on doubles. *)
Definition ortho_step (routing : string) (result : list Point) (curr : Point)
  : list Point :=
  match last result with
  | None => result ++ [curr]
  | Some prev =>
      let dx := Qcabs (curr.1 - prev.1) in
      let dy := Qcabs (curr.2 - prev.2) in
      let result :=
        if bool_decide (half < dx)%Qc && bool_decide (half < dy)%Qc then
          if bool_decide (routing = "v_first")
          then result ++ [(prev.1, curr.2)]
          else result ++ [(curr.1, prev.2)]
        else result in
      result ++ [curr]
  end.

Definition ortho_path (points : list Point) (routing : string) : list Point :=
  if bool_decide (length points < 2) then points
  else
    match points with
    | [] => []
    | p0 :: rest => foldl (ortho_step routing) [p0] rest
    end.

(** ** Snapping *)

(** The anchor points of a shape, in the order of the source. *)
Definition snap_points (shape : Shape) : list Point :=
  if bool_decide (shape_type shape ∈ ["rectangle"; "square"]) then
    [ (x1 shape, y1 shape); (x2 shape, y1 shape);
      (x1 shape, y2 shape); (x2 shape, y2 shape);
      (div2 (x1 shape + x2 shape), y1 shape);
      (div2 (x1 shape + x2 shape), y2 shape);
      (x1 shape, div2 (y1 shape + y2 shape));
      (x2 shape, div2 (y1 shape + y2 shape)) ]%Qc
  else if bool_decide (shape_type shape ∈ ["circle"; "ellipse"]) then
    let cx := div2 (x1 shape + x2 shape) in
    let cy := div2 (y1 shape + y2 shape) in
    let rx := div2 (Qcabs (x2 shape - x1 shape)) in
    let ry := div2 (Qcabs (y2 shape - y1 shape)) in
    [ (cx - rx, cy); (cx + rx, cy); (cx, cy - ry); (cx, cy + ry) ]%Qc
  else if bool_decide (shape_type shape = "triangle") then
    let cx := div2 (x1 shape + x2 shape) in
    [ (cx, y1 shape); (x1 shape, y2 shape); (x2 shape, y2 shape) ]%Qc
  else [].

(** [(x - px) ** 2 + (y - py) ** 2], the square of [dist]. *)
Definition dist2 (x y : Qc) (p : Point) : Qc :=
  ((x - p.1) * (x - p.1) + (y - p.2) * (y - p.2))%Qc.

(** The variables of the scan: [min_dist] squared, [snap_x], [snap_y] and
    [snap_shape]. *)
Record SnapState : Type := mkSnapState {
  min_dist2 : Qc;
  snap_x : Qc;
  snap_y : Qc;
  snap_shape : option Shape
}.

(** The body of the inner loop, for the anchor [(px, py)] of [shape].  The
    comparison is that of the exact squares; [Double.snap_try] compares
    the rounded distances. *)
Definition snap_try (x y : Qc) (shape : Shape) (st : SnapState) (p : Point)
  : SnapState :=
  let d := dist2 x y p in
  if bool_decide (d < min_dist2 st)%Qc
  then {| min_dist2 := d; snap_x := p.1; snap_y := p.2;
          snap_shape := Some shape |}
  else st.

(** The body of the outer loop. *)
Definition snap_scan (x y : Qc) (exclude_shape : option Shape)
    (st : SnapState) (shape : Shape) : SnapState :=
  if bool_decide (Some shape = exclude_shape) || is_line shape then st
  else foldl (snap_try x y shape) st (snap_points shape).

Definition get_snap_point (shapes : list Shape) (x y : Qc)
    (exclude_shape : option Shape) : Qc * Qc * option Shape :=
  let st0 := {| min_dist2 := (snap_distance * snap_distance)%Qc;
                snap_x := x; snap_y := y; snap_shape := None |} in
  let st := foldl (snap_scan x y exclude_shape) st0 shapes in
  (snap_x st, snap_y st, snap_shape st).

(** [get_connection_point]: the parameter [target_shape] does not occur in
    the body. *)
Definition get_connection_point (shapes : list Shape)
    (target_shape line_shape : Shape) (endpoint : string) : Point :=
  let '(x, y) :=
    if bool_decide (endpoint = "start")
    then (x1 line_shape, y1 line_shape)
    else (x2 line_shape, y2 line_shape) in
  let '(sx, sy, _) := get_snap_point shapes x y (Some line_shape) in
  (sx, sy).

(** [next((s for s in self.shapes if s.shape_id == i), None)]. *)
Definition find_by_id (shapes : list Shape) (i : Z) : option Shape :=
  List.find (fun s => bool_decide (shape_id s = i)) shapes.

(** The body of the connection loops of [rebuild_connections] and
    [update_connected_lines] once the target is known: the line is the
    object at position [i] of the list and is updated in place. *)
Definition resnap (i : nat) (target : Shape) (conn : Connection)
    (shapes : list Shape) : list Shape :=
  match shapes !! i with
  | None => shapes
  | Some shape =>
      let p := get_connection_point shapes target shape (endpoint conn) in
      if bool_decide (endpoint conn = "start")
      then <[i := set_start shape p]> shapes
      else <[i := set_end shape p]> shapes
  end.

Definition rebuild_conn (i : nat) (shapes : list Shape) (conn : Connection)
  : list Shape :=
  match find_by_id shapes (target_id conn) with
  | Some target => resnap i target conn shapes
  | None => shapes
  end.

Definition rebuild_shape (shapes : list Shape) (i : nat) : list Shape :=
  match shapes !! i with
  | None => shapes
  | Some shape =>
      if is_line shape
      then foldl (rebuild_conn i) shapes (connections shape)
      else shapes
  end.

(** [rebuild_connections], on the list of shapes: the loop visits the
    positions in order and each turn sees the updates of the turns before. *)
Definition rebuild_connections (shapes : list Shape) : list Shape :=
  foldl rebuild_shape shapes (seq 0 (length shapes)).

Definition update_conn (moved_shape : Shape) (i : nat) (shapes : list Shape)
    (conn : Connection) : list Shape :=
  if bool_decide (target_id conn = shape_id moved_shape)
  then resnap i moved_shape conn shapes
  else shapes.

Definition update_shape (moved_shape : Shape) (shapes : list Shape) (i : nat)
  : list Shape :=
  match shapes !! i with
  | None => shapes
  | Some shape =>
      if is_line shape
      then foldl (update_conn moved_shape i) shapes (connections shape)
      else shapes
  end.

Definition update_connected_lines (shapes : list Shape) (moved_shape : Shape)
  : list Shape :=
  foldl (update_shape moved_shape) shapes (seq 0 (length shapes)).

(** ** The manager's state *)

(** A history entry [{'shapes': [...], 'next_id': n}]. *)
Record Snapshot : Type := mkSnapshot {
  snap_shapes : list ShapeDict;
  snap_next_id : Z
}.

#[global] Instance Snapshot_eq_dec : EqDecision Snapshot.
Proof. solve_decision. Defined.

(** The fields of [CanvasManager] that hold the drawing and its history,
    and the [modified] flag of the file manager, which [record_state] sets.
    [selected_shape] refers to a member of [shapes]; none of the operations
    below changes a member while it stays selected, so the field holds the
    member's value. *)
Record CanvasManager : Type := mkCanvasManager {
  shapes : list Shape;
  next_shape_id : Z;
  selected_shape : option Shape;
  clipboard : option Shape;
  undo_stack : list Snapshot;
  redo_stack : list Snapshot;
  modified : bool
}.

#[global] Instance CanvasManager_eq_dec : EqDecision CanvasManager.
Proof. solve_decision. Defined.

(** [CanvasManager.__init__]. *)
Definition init : CanvasManager :=
  {| shapes := []; next_shape_id := 1%Z; selected_shape := None;
     clipboard := None; undo_stack := []; redo_stack := [];
     modified := false |}.

Definition set_shapes (cm : CanvasManager) (l : list Shape) : CanvasManager :=
  {| shapes := l; next_shape_id := next_shape_id cm;
     selected_shape := selected_shape cm; clipboard := clipboard cm;
     undo_stack := undo_stack cm; redo_stack := redo_stack cm;
     modified := modified cm |}.

Definition set_next_shape_id (cm : CanvasManager) (n : Z) : CanvasManager :=
  {| shapes := shapes cm; next_shape_id := n;
     selected_shape := selected_shape cm; clipboard := clipboard cm;
     undo_stack := undo_stack cm; redo_stack := redo_stack cm;
     modified := modified cm |}.

Definition set_selected_shape (cm : CanvasManager) (s : option Shape)
  : CanvasManager :=
  {| shapes := shapes cm; next_shape_id := next_shape_id cm;
     selected_shape := s; clipboard := clipboard cm;
     undo_stack := undo_stack cm; redo_stack := redo_stack cm;
     modified := modified cm |}.

Definition set_clipboard (cm : CanvasManager) (s : option Shape)
  : CanvasManager :=
  {| shapes := shapes cm; next_shape_id := next_shape_id cm;
     selected_shape := selected_shape cm; clipboard := s;
     undo_stack := undo_stack cm; redo_stack := redo_stack cm;
     modified := modified cm |}.

Definition set_undo_stack (cm : CanvasManager) (u : list Snapshot)
  : CanvasManager :=
  {| shapes := shapes cm; next_shape_id := next_shape_id cm;
     selected_shape := selected_shape cm; clipboard := clipboard cm;
     undo_stack := u; redo_stack := redo_stack cm;
     modified := modified cm |}.

Definition set_redo_stack (cm : CanvasManager) (r : list Snapshot)
  : CanvasManager :=
  {| shapes := shapes cm; next_shape_id := next_shape_id cm;
     selected_shape := selected_shape cm; clipboard := clipboard cm;
     undo_stack := undo_stack cm; redo_stack := r;
     modified := modified cm |}.

Definition set_modified (cm : CanvasManager) (b : bool) : CanvasManager :=
  {| shapes := shapes cm; next_shape_id := next_shape_id cm;
     selected_shape := selected_shape cm; clipboard := clipboard cm;
     undo_stack := undo_stack cm; redo_stack := redo_stack cm;
     modified := b |}.

(** ** Undo / redo *)

(** [{'shapes': [s.to_dict() for s in self.shapes],
      'next_id': self.next_shape_id}]. *)
Definition current_state (cm : CanvasManager) : Snapshot :=
  {| snap_shapes := map to_dict (shapes cm);
     snap_next_id := next_shape_id cm |}.

Definition record_state (cm : CanvasManager) : CanvasManager :=
  let state := current_state cm in
  let stack := undo_stack cm ++ [state] in
  let stack := if bool_decide (max_undo < length stack)
               then drop 1 stack else stack in
  set_modified (set_redo_stack (set_undo_stack cm stack) []) true.

Definition clear_selection (cm : CanvasManager) : CanvasManager :=
  set_selected_shape cm None.

(** [if record_undo and self.shapes: self.record_state()], then the list
    is emptied and the counter reset. *)
Definition clear_all (cm : CanvasManager) (record_undo : bool)
  : CanvasManager :=
  let cm := if record_undo && negb (bool_decide (shapes cm = []))
            then record_state cm else cm in
  let cm := set_shapes cm [] in
  let cm := clear_selection cm in
  set_next_shape_id cm 1%Z.

Definition add_shape (cm : CanvasManager) (shape : Shape) (record_undo : bool)
  : CanvasManager :=
  let '(shape, cm) :=
    if bool_decide (shape_id shape = 0%Z)
    then (set_shape_id shape (next_shape_id cm),
          set_next_shape_id cm (next_shape_id cm + 1)%Z)
    else (shape, cm) in
  let cm := set_shapes cm (shapes cm ++ [shape]) in
  if record_undo then record_state cm else cm.

Definition restore_state (cm : CanvasManager) (state : Snapshot)
  : CanvasManager :=
  let cm := clear_all cm false in
  let cm := set_next_shape_id cm (snap_next_id state) in
  let cm := foldl (fun cm shape_data =>
                     add_shape cm (from_dict shape_data) false)
                  cm (snap_shapes state) in
  set_shapes cm (rebuild_connections (shapes cm)).

Definition undo (cm : CanvasManager) : CanvasManager :=
  match last (undo_stack cm) with
  | None => cm
  | Some state =>
      let current := current_state cm in
      let cm := set_redo_stack cm (redo_stack cm ++ [current]) in
      let cm := set_undo_stack cm (removelast (undo_stack cm)) in
      restore_state cm state
  end.

Definition redo (cm : CanvasManager) : CanvasManager :=
  match last (redo_stack cm) with
  | None => cm
  | Some state =>
      let current := current_state cm in
      let cm := set_undo_stack cm (undo_stack cm ++ [current]) in
      let cm := set_redo_stack cm (removelast (redo_stack cm)) in
      restore_state cm state
  end.

(** ** Shape lifecycle *)

(** [flip_routing]: the argument is the member at position [i], changed in
    place. *)
Definition flip_routing (cm : CanvasManager) (i : nat) : CanvasManager :=
  match shapes cm !! i with
  | None => cm
  | Some shape =>
      if negb (bool_decide (shape_type shape ∈ ["ortho_line"; "ortho_arrow"]))
      then cm
      else
        let r := if negb (bool_decide (routing shape = "v_first"))
                 then "v_first" else "h_first" in
        record_state (set_shapes cm (<[i := set_routing shape r]> (shapes cm)))
  end.

(** [[c for c in s.connections if c['target_id'] != i]]. *)
Definition detach (i : Z) (s : Shape) : Shape :=
  set_connections s (filter (fun c => target_id c ≠ i) (connections s)).

(** [list.remove]: the first element equal to [x] is taken out. *)
Fixpoint list_remove (x : Shape) (l : list Shape) : list Shape :=
  match l with
  | [] => []
  | y :: l' => if bool_decide (y = x) then l' else y :: list_remove x l'
  end.

(** [delete_shape].  When [shape in self.shapes] holds the argument is a
    member, so the loop over [self.shapes] has filtered its connections as
    well by the time [remove] looks for it. *)
Definition delete_shape (cm : CanvasManager) (shape : Shape) : CanvasManager :=
  if bool_decide (shape ∈ shapes cm) then
    let cm := record_state cm in
    let cm := set_shapes cm (map (detach (shape_id shape)) (shapes cm)) in
    let shape := detach (shape_id shape) shape in
    let cm := set_shapes cm (list_remove shape (shapes cm)) in
    clear_selection cm
  else cm.

Definition copy_shape (cm : CanvasManager) : CanvasManager :=
  match selected_shape cm with
  | Some s => set_clipboard cm (Some (copy s))
  | None => cm
  end.

Definition paste_shape (cm : CanvasManager) : CanvasManager :=
  match clipboard cm with
  | Some c =>
      let new_shape := copy c in
      let new_shape := set_shape_id new_shape 0%Z in
      add_shape cm new_shape true
  | None => cm
  end.

(* ====================================================================== *)
(** * file_manager.py *)
(* ====================================================================== *)

(** The dictionary written by [json.dump] and read by [json.load]; the
    JSON text itself is not modelled.  [file_shapes] is [None] when the key
    ['shapes'] is absent from a file. *)
Record FileData : Type := mkFileData {
  file_version : option string;
  file_shapes : option (list ShapeDict)
}.

(** [save_to_file]: the dictionary it writes, and the manager afterwards. *)
Definition save_to_file (cm : CanvasManager) : FileData * CanvasManager :=
  let data := {| file_version := Some "1.0";
                 file_shapes := Some (map to_dict (shapes cm)) |} in
  (data, set_modified cm false).

(** [open_drawing], from the point where the file has been read. *)
Definition open_drawing (cm : CanvasManager) (data : FileData)
  : CanvasManager :=
  let cm := clear_all cm true in
  let cm := foldl (fun cm shape_data =>
                     add_shape cm (from_dict shape_data) false)
                  cm (default [] (file_shapes data)) in
  let cm := set_shapes cm (rebuild_connections (shapes cm)) in
  set_modified cm false.

(** [draw_shape], for the two orthogonal types: the points of the line
    that is drawn, [ortho_path] of the start, the waypoints and the end. *)
Definition ortho_points (shape : Shape) : list Point :=
  let all_pts := [(x1 shape, y1 shape)] ++ waypoints shape
                 ++ [(x2 shape, y2 shape)] in
  ortho_path all_pts (routing shape).

(* ====================================================================== *)
(** * drawing_app.py *)
(* ====================================================================== *)

(** Python's [round] on a number: the nearest integer, and the even one of
    the two when the number lies half way. *)
Definition py_round (q : Qc) : Z :=
  let f := Qfloor q in
  let d := (q - inject_Z f)%Q in
  if Qlt_le_dec d (1 # 2) then f
  else if Qlt_le_dec (1 # 2) d then (f + 1)%Z
  else if Z.even f then f else (f + 1)%Z.

(** The fields of [DrawingApp] that the drawing of orthogonal lines and
    the grid use, with the canvas manager. *)
Record DrawingApp : Type := mkDrawingApp {
  canvas_manager : CanvasManager;
  current_tool : string;
  current_color : string;
  current_fill : string;
  line_width : Z;
  grid_spacing : Z;
  snap_to_grid : bool;
  ortho_in_progress : bool;
  ortho_start : option Point;
  ortho_waypoints : list Point
}.

Definition set_canvas_manager (app : DrawingApp) (cm : CanvasManager)
  : DrawingApp :=
  {| canvas_manager := cm; current_tool := current_tool app;
     current_color := current_color app; current_fill := current_fill app;
     line_width := line_width app; grid_spacing := grid_spacing app;
     snap_to_grid := snap_to_grid app;
     ortho_in_progress := ortho_in_progress app;
     ortho_start := ortho_start app;
     ortho_waypoints := ortho_waypoints app |}.

(** The three fields of the orthogonal line in progress, set together. *)
Definition set_ortho (app : DrawingApp) (in_progress : bool)
    (start : option Point) (wps : list Point) : DrawingApp :=
  {| canvas_manager := canvas_manager app; current_tool := current_tool app;
     current_color := current_color app; current_fill := current_fill app;
     line_width := line_width app; grid_spacing := grid_spacing app;
     snap_to_grid := snap_to_grid app;
     ortho_in_progress := in_progress;
     ortho_start := start;
     ortho_waypoints := wps |}.

(** [snap_point]; [None] stands for the [ZeroDivisionError] of a zero
    spacing.  The quotient is exact here; [Double.snap_point] rounds it to
    a double first, which gives the same point for a pointer position
    (lemma [round_of_rounded_quotient]). *)
Definition snap_point (app : DrawingApp) (x y : Qc) : option Point :=
  if negb (snap_to_grid app) then Some (x, y)
  else
    let sp := grid_spacing app in
    if bool_decide (sp = 0%Z) then None
    else Some (Qcz (py_round (x / Qcz sp) * sp),
               Qcz (py_round (y / Qcz sp) * sp)).

(** [x, y = self.snap_point(x, y)] under [if self.snap_to_grid]. *)
Definition snap_if_enabled (app : DrawingApp) (x y : Qc) : option Point :=
  if snap_to_grid app then snap_point app x y else Some (x, y).

(** [_cancel_ortho_drawing]. *)
Definition cancel_ortho_drawing (app : DrawingApp) : DrawingApp :=
  set_ortho app false None [].

(** [on_press] while one of the two orthogonal tools is the current tool:
    the first click sets the start, every further click adds a waypoint. *)
Definition on_press_ortho (app : DrawingApp) (x y : Qc) : option DrawingApp :=
  match snap_if_enabled app x y with
  | None => None
  | Some p =>
      if negb (ortho_in_progress app)
      then Some (set_ortho app true (Some p) [])
      else Some (set_ortho app true (ortho_start app)
                           (ortho_waypoints app ++ [p]))
  end.

(** [_finalize_ortho_line]; [None] stands for the [TypeError] of unpacking
    a start that is [None]. *)
Definition finalize_ortho_line (app : DrawingApp) (end_x end_y : Qc)
  : option DrawingApp :=
  match ortho_start app with
  | None => None
  | Some (x1, y1) =>
      let waypoints := ortho_waypoints app in
      let app := set_ortho app false None [] in
      if bool_decide (Qcabs (end_x - x1) < Qcz 3)%Qc
         && bool_decide (Qcabs (end_y - y1) < Qcz 3)%Qc
         && bool_decide (waypoints = [])
      then Some app
      else
        let shape :=
          {| x1 := x1; y1 := y1; x2 := end_x; y2 := end_y;
             color := current_color app; width := line_width app;
             shape_type := current_tool app;
             shape_id := 0%Z; fill_color := Some (current_fill app);
             connections := []; z_order := 0%Z; text := None;
             font_family := "Arial"; font_size := 12%Z;
             font_bold := false; font_italic := false;
             text_align := "left"; label := None;
             label_offset_x := Qcz 0; label_offset_y := Qcz 0;
             routing := "h_first"; waypoints := waypoints |} in
        Some (set_canvas_manager app
                (add_shape (canvas_manager app) shape true))
  end.

(** [on_right_click]. *)
Definition on_right_click (app : DrawingApp) (x y : Qc) : option DrawingApp :=
  if ortho_in_progress app then
    match snap_if_enabled app x y with
    | None => None
    | Some p => finalize_ortho_line app p.1 p.2
    end
  else Some app.

(** [_finish_ortho_if_active]: the Enter key. *)
Definition finish_ortho_if_active (app : DrawingApp) : option DrawingApp :=
  if negb (ortho_in_progress app) then Some app
  else
    match last (ortho_waypoints app) with
    | Some lst =>
        finalize_ortho_line
          (set_ortho app (ortho_in_progress app) (ortho_start app)
                     (removelast (ortho_waypoints app)))
          lst.1 lst.2
    | None =>
        match ortho_start app with
        | Some _ => Some (cancel_ortho_drawing app)
        | None => Some app
        end
    end.

(** The connection update that [on_release] makes for the endpoint [ep] of
    the selected connector once it knows the shape snapped to: the entries
    of that endpoint are dropped and, with a snap, one entry is added. *)
Definition reconnect (shape : Shape) (ep : string)
    (snap_shape : option Shape) : Shape :=
  let kept := filter (fun c => endpoint c ≠ ep) (connections shape) in
  match snap_shape with
  | Some t =>
      set_connections shape
        (kept ++ [{| target_id := shape_id t; endpoint := ep |}])
  | None => set_connections shape kept
  end.

(** The selected shape is the member at position [i]; it is replaced in
    the collection and in [selected_shape]. *)
Definition update_selected (cm : CanvasManager) (i : nat) (s : Shape)
  : CanvasManager :=
  set_selected_shape (set_shapes cm (<[i := s]> (shapes cm))) (Some s).

(** [on_release] with the select tool while [editing_endpoint] is set and
    a shape is selected: the connector at position [i] is reconnected
    according to the snap at the pointer [(x, y)], then the state is
    recorded.  When nothing was snapped to and the grid is on, the grid
    point is computed first (and then not used); [None] stands for the
    [ZeroDivisionError] this raises with a zero spacing. *)
Definition release_endpoint (app : DrawingApp) (i : nat)
    (editing_endpoint : string) (x y : Qc) : option DrawingApp :=
  let cm := canvas_manager app in
  match shapes cm !! i with
  | None => Some app
  | Some sel =>
      let '(_, _, snap_shape) := get_snap_point (shapes cm) x y (Some sel) in
      let grid_pt :=
        match snap_shape with
        | None => snap_if_enabled app x y
        | Some _ => Some (x, y)
        end in
      match grid_pt with
      | None => None
      | Some _ =>
          let cm := update_selected cm i
                      (reconnect sel editing_endpoint snap_shape) in
          Some (set_canvas_manager app (record_state cm))
      end
  end.

(** [on_release] with the select tool while [editing_waypoint] is
    ['start'] or ['end'] and a shape is selected: as above, with the snap
    taken at the endpoint's own position. *)
Definition release_waypoint_endpoint (cm : CanvasManager) (i : nat)
    (editing_waypoint : string) : CanvasManager :=
  match shapes cm !! i with
  | None => record_state cm
  | Some shape =>
      if negb (bool_decide (editing_waypoint ∈ ["start"; "end"]))
      then record_state cm else
      let ex := if bool_decide (editing_waypoint = "start")
                then x1 shape else x2 shape in
      let ey := if bool_decide (editing_waypoint = "start")
                then y1 shape else y2 shape in
      let '(_, _, snap_shape) :=
        get_snap_point (shapes cm) ex ey (Some shape) in
      let cm := update_selected cm i
                  (reconnect shape editing_waypoint snap_shape) in
      record_state cm
  end.

(* ====================================================================== *)
(** * Specification vocabulary *)
(* ====================================================================== *)

(** ** Router *)

(** Two points are axis-aligned when they agree in [x] or in [y] up to the
    tolerance 0.5. *)
Definition axis_aligned (p q : Point) : Prop :=
  (Qcabs (q.1 - p.1) <= half)%Qc ∨ (Qcabs (q.2 - p.2) <= half)%Qc.

Definition consecutive_aligned (l : list Point) : Prop :=
  ∀ i p q, l !! i = Some p → l !! S i = Some q → axis_aligned p q.

(** ** Snapping *)

(** A shape is eligible as a snap target when it is not the excluded shape
    and not of the line family. *)
Definition eligible (exclude_shape : option Shape) (s : Shape) : Prop :=
  Some s ≠ exclude_shape ∧ shape_type s ∉ LINE_TYPES.

(** [p] is an anchor point of the eligible shape [s] of the drawing. *)
Definition is_anchor (shapes : list Shape) (exclude_shape : option Shape)
    (p : Point) (s : Shape) : Prop :=
  s ∈ shapes ∧ eligible exclude_shape s ∧ p ∈ snap_points s.

(** The square of the threshold 15: a point is at Euclidean distance less
    than 15 from [(x, y)] exactly when [dist2] is less than this. *)
Definition threshold2 : Qc := (Qcz 15 * Qcz 15)%Qc.

(** The anchors the scan visits, in its order, each with its shape. *)
Definition candidates (shapes : list Shape) (exclude_shape : option Shape)
  : list (Point * Shape) :=
  flat_map (fun s =>
              if bool_decide (Some s = exclude_shape) || is_line s then []
              else map (fun p => (p, s)) (snap_points s)) shapes.

(** The invariant of the scan after the anchors [seen]. *)
Definition snap_inv (x y : Qc) (seen : list (Point * Shape)) (st : SnapState)
  : Prop :=
  (∀ c, c ∈ seen → (min_dist2 st <= dist2 x y c.1)%Qc) ∧
  match snap_shape st with
  | None => min_dist2 st = threshold2 ∧ snap_x st = x ∧ snap_y st = y
  | Some s =>
      ((snap_x st, snap_y st), s) ∈ seen ∧
      min_dist2 st = dist2 x y (snap_x st, snap_y st) ∧
      (min_dist2 st < threshold2)%Qc
  end.

(** ** Connection points *)

(** The connection point as the specification words it: [findSnapPoint]
    against the single target shape, at the current coordinate of the
    connector's endpoint. *)
Definition resolve_against_target (target line_shape : Shape)
    (endpoint : string) : Point :=
  let '(x, y) :=
    if bool_decide (endpoint = "start")
    then (x1 line_shape, y1 line_shape)
    else (x2 line_shape, y2 line_shape) in
  let '(sx, sy, _) := get_snap_point [target] x y (Some line_shape) in
  (sx, sy).

(** ** Clone with offset *)

(** What the specification asks of [cloneOffset(shape, 20, 20)]: every
    coordinate and waypoint moved by (20, 20), no connections, and the
    unassigned id 0. *)
Definition clone_offset_20 (s s' : Shape) : Prop :=
  x1 s' = (x1 s + Qcz 20)%Qc ∧ y1 s' = (y1 s + Qcz 20)%Qc ∧
  x2 s' = (x2 s + Qcz 20)%Qc ∧ y2 s' = (y2 s + Qcz 20)%Qc ∧
  waypoints s' = map (fun wp => (wp.1 + Qcz 20, wp.2 + Qcz 20)%Qc) (waypoints s) ∧
  connections s' = [] ∧
  shape_id s' = 0%Z.

(** ** Editing sessions *)

(** One editing operation of the user interface: inserting a shape that a
    drawing tool has just built (its id is still 0), selecting a member,
    copy, paste, deleting a shape, undo, redo, flipping the routing of a
    member, an edit of the members in place (the move, resize, connect,
    label and text handlers of drawing_app.py change fields other than the
    id and end with [record_state]), and starting a new drawing. *)
Inductive step : CanvasManager → CanvasManager → Prop :=
  | step_insert cm shape :
      shape_id shape = 0%Z → step cm (add_shape cm shape true)
  | step_select cm s :
      s ∈ shapes cm → step cm (set_selected_shape cm (Some s))
  | step_copy cm : step cm (copy_shape cm)
  | step_paste cm : step cm (paste_shape cm)
  | step_delete cm shape : step cm (delete_shape cm shape)
  | step_undo cm : step cm (undo cm)
  | step_redo cm : step cm (redo cm)
  | step_flip cm i : step cm (flip_routing cm i)
  | step_edit cm l :
      map shape_id l = map shape_id (shapes cm) →
      step cm (record_state (set_shapes cm l))
  | step_new cm : step cm (clear_all cm true).

(** The states an editing session can be in, starting from the empty
    drawing. *)
Definition reachable (cm : CanvasManager) : Prop := rtc step init cm.

(** The ids of a drawing are pairwise distinct, positive and below the
    counter. *)
Definition ids_ok (l : list Shape) (n : Z) : Prop :=
  NoDup (map shape_id l) ∧ Forall (fun s => (0 < shape_id s < n)%Z) l.

Definition snapshot_ok (st : Snapshot) : Prop :=
  ids_ok (map from_dict (snap_shapes st)) (snap_next_id st) ∧
  (1 ≤ snap_next_id st)%Z.

(** The invariant of a session. *)
Definition session_inv (cm : CanvasManager) : Prop :=
  ids_ok (shapes cm) (next_shape_id cm) ∧
  (1 ≤ next_shape_id cm)%Z ∧
  Forall snapshot_ok (undo_stack cm) ∧
  Forall snapshot_ok (redo_stack cm) ∧
  length (undo_stack cm) + length (redo_stack cm) ≤ max_undo.

(** An edit that leaves the drawing [d] (shapes and id counter) in place,
    followed by [record_state]. *)
Definition edit_and_record (cm : CanvasManager) (d : list Shape * Z)
  : CanvasManager :=
  record_state (set_next_shape_id (set_shapes cm d.1) d.2).

(** The snapshot of the drawing [d]. *)
Definition snapshot_of (d : list Shape * Z) : Snapshot :=
  {| snap_shapes := map to_dict d.1; snap_next_id := d.2 |}.

(** A mutation of the shape sequence and the id counter: both are
    replaced. *)
Definition mutate (cm : CanvasManager) (l : list Shape) (n : Z)
  : CanvasManager :=
  set_next_shape_id (set_shapes cm l) n.

(** Every shape of the list has an assigned id. *)
Definition ids_assigned (l : list Shape) : Prop :=
  Forall (fun s => shape_id s ≠ 0%Z) l.

(** No connector of the list has a connection entry. *)
Definition detached (l : list Shape) : Prop :=
  Forall (fun s => is_line s = true → connections s = []) l.

(** ** Sample drawings *)

(** A 10 by 10 rectangle at the origin, with id 1. *)
Definition rect1 : Shape :=
  set_shape_id (new_shape "rectangle" 0 0 10 10) 1%Z.

(** A rectangle far from [rect1], with id 2. *)
Definition rect2 : Shape :=
  set_shape_id (new_shape "rectangle" 100 100 200 200) 2%Z.

(** A line with id 3 from (50, 50) to (3, 3) whose end is connected to
    [rect2]. *)
Definition line3 : Shape :=
  set_connections (set_shape_id (new_shape "line" 50 50 3 3) 3%Z)
                  [mkConnection 2%Z "end"].

(** The same line once its end has been moved onto the anchor (5, 0) of
    [rect1]. *)
Definition line3_snapped : Shape := set_end line3 (Qcz 5, Qcz 0).

(** A line with id 3 from (50, 50) to (97, 97) whose end is connected to
    [rect2]: the end lies at distance less than 15 from the corner
    (100, 100) of its target, as after the line has been dragged away by
    (-3, -3). *)
Definition line4 : Shape :=
  set_connections (set_shape_id (new_shape "line" 50 50 97 97) 3%Z)
                  [mkConnection 2%Z "end"].

(** [line4] with its end on the corner (100, 100) of [rect2]. *)
Definition line4_snapped : Shape := set_end line4 (Qcz 100, Qcz 100).

(** The drawing of [rect2] and [line4], with id counter 4. *)
Definition drawing4 : CanvasManager :=
  set_next_shape_id (set_shapes init [rect2; line4]) 4%Z.

(** A short session: a rectangle is drawn, selected, copied, pasted and
    deleted, followed by undo and redo. *)
Definition session_a : CanvasManager :=
  add_shape init (new_shape "rectangle" 0 0 10 10) true.
Definition session_b : CanvasManager :=
  paste_shape (copy_shape (set_selected_shape session_a (Some rect1))).
Definition session_c : CanvasManager :=
  redo (undo (delete_shape session_b rect1)).

(** Sixty drawings that differ in their id counter. *)
Definition sixty_drawings : list (list Shape * Z) :=
  map (fun k => ([], Z.of_nat k)) (seq 1 60).

(* ====================================================================== *)
(** * Further vocabulary *)
(* ====================================================================== *)

(** ** Router *)

(** The test of [ortho_path] for a segment that is not axis-aligned. *)
Definition needs_bend (prev curr : Point) : bool :=
  bool_decide (half < Qcabs (curr.1 - prev.1))%Qc
  && bool_decide (half < Qcabs (curr.2 - prev.2))%Qc.

(** The bend point for the segment from [prev] to [curr]. *)
Definition bend (routing : string) (prev curr : Point) : Point :=
  if bool_decide (routing = "v_first") then (prev.1, curr.2)
  else (curr.1, prev.2).

(** The routed path after the point [prev]: each input point, preceded by
    a bend when its segment needs one. *)
Fixpoint route_from (routing : string) (prev : Point) (rest : list Point)
  : list Point :=
  match rest with
  | [] => []
  | curr :: rest' =>
      (if needs_bend prev curr then [bend routing prev curr] else [])
      ++ curr :: route_from routing curr rest'
  end.

(** The number of input segments that need a bend. *)
Fixpoint bends_needed (prev : Point) (rest : list Point) : nat :=
  match rest with
  | [] => 0
  | curr :: rest' =>
      (if needs_bend prev curr then 1 else 0) + bends_needed curr rest'
  end.

(** ** Snapping *)

(** The invariant of the scan that records the order: the anchor held is
    the first of the nearest ones among the anchors [seen]. *)
Definition first_nearest_inv (x y : Qc) (seen : list (Point * Shape))
    (st : SnapState) : Prop :=
  match snap_shape st with
  | None =>
      min_dist2 st = threshold2 ∧
      ∀ c, c ∈ seen → (threshold2 <= dist2 x y c.1)%Qc
  | Some s =>
      ∃ l1 l2,
        seen = l1 ++ ((snap_x st, snap_y st), s) :: l2 ∧
        min_dist2 st = dist2 x y (snap_x st, snap_y st) ∧
        (min_dist2 st < threshold2)%Qc ∧
        (∀ c, c ∈ l1 → (min_dist2 st < dist2 x y c.1)%Qc) ∧
        (∀ c, c ∈ l2 → (min_dist2 st <= dist2 x y c.1)%Qc)
  end.

(** The state of the scan when [get_snap_point] returns. *)
Definition snap_final (shapes : list Shape) (x y : Qc)
    (exclude_shape : option Shape) : SnapState :=
  foldl (snap_scan x y exclude_shape)
        {| min_dist2 := (snap_distance * snap_distance)%Qc;
           snap_x := x; snap_y := y; snap_shape := None |} shapes.

(** The point [get_snap_point] returns for the query point [p] when no
    shape is excluded. *)
Definition snap_pt (shapes : list Shape) (p : Point) : Point :=
  (get_snap_point shapes p.1 p.2 None).1.

(** ** Connections *)

(** Some shape of the drawing has the id [i]. *)
Definition has_id (shapes : list Shape) (i : Z) : bool :=
  bool_decide (i ∈ map shape_id shapes).

(** One connection entry applied to the connector [s]: when the entry is
    active, the endpoint it names moves to the snap point of its current
    position. *)
Definition reline (shapes : list Shape) (active : Connection → bool)
    (s : Shape) (c : Connection) : Shape :=
  if active c then
    if bool_decide (endpoint c = "start")
    then set_start s (snap_pt shapes (x1 s, y1 s))
    else set_end s (snap_pt shapes (x2 s, y2 s))
  else s.

(** A shape after a pass over the connectors: a connector has its
    connection entries applied in order, any other shape is left alone. *)
Definition relined (shapes : list Shape) (active : Connection → bool)
    (s : Shape) : Shape :=
  if is_line s then foldl (reline shapes active) s (connections s) else s.

(** Two drawings offer the same ids and the same anchors. *)
Definition same_context (cur shapes : list Shape) : Prop :=
  map shape_id cur = map shape_id shapes ∧
  candidates cur None = candidates shapes None.

(** The two endpoints of a shape. *)
Definition start_pt (s : Shape) : Point := (x1 s, y1 s).
Definition end_pt (s : Shape) : Point := (x2 s, y2 s).

(** The connection entries that [rebuild_connections] acts on: those
    whose target id belongs to a shape of the drawing. *)
Definition resolvable (shapes : list Shape) (c : Connection) : bool :=
  has_id shapes (target_id c).

(** The connection entries that [update_connected_lines] acts on. *)
Definition targets (moved_shape : Shape) (c : Connection) : bool :=
  bool_decide (target_id c = shape_id moved_shape).

(** Some active entry of the list names the start, respectively the end
    (any endpoint other than ['start'] counts as the end, as in the
    source). *)
Definition moves_start (active : Connection → bool) (cs : list Connection)
  : bool :=
  existsb (fun c => active c && bool_decide (endpoint c = "start")) cs.
Definition moves_end (active : Connection → bool) (cs : list Connection)
  : bool :=
  existsb (fun c => active c && negb (bool_decide (endpoint c = "start"))) cs.

(** What a pass over the connectors may do to the shape [s], giving [s']:
    only the two endpoints can differ; a shape that is not a connector is
    untouched; an endpoint that no active entry names stays; an endpoint
    that an active entry names ends on a point that snapping maps to
    itself. *)
Definition resnapped (shapes : list Shape) (active : Connection → bool)
    (s s' : Shape) : Prop :=
  s' = set_end (set_start s (start_pt s')) (end_pt s') ∧
  (is_line s = false → s' = s) ∧
  (moves_start active (connections s) = false → start_pt s' = start_pt s) ∧
  (moves_end active (connections s) = false → end_pt s' = end_pt s) ∧
  (is_line s = true → moves_start active (connections s) = true →
     snap_pt shapes (start_pt s') = start_pt s') ∧
  (is_line s = true → moves_end active (connections s) = true →
     snap_pt shapes (end_pt s') = end_pt s').

(** A drawing for the connection passes: [rect1], a line whose end lies
    4 units from a corner of [rect1] and is connected to it, and a line
    with a connection to a shape that is gone. *)
Definition line5 : Shape :=
  set_connections (set_shape_id (new_shape "line" 60 60 13 14) 5%Z)
                  [mkConnection 1%Z "end"].
Definition line6 : Shape :=
  set_connections (set_shape_id (new_shape "arrow" 70 70 12 12) 6%Z)
                  [mkConnection 9%Z "end"].
Definition drawing5 : list Shape := [rect1; line5; line6].

(** ** Shapes *)

(** The shape with its two corners exchanged. *)
Definition swap_corners (s : Shape) : Shape :=
  set_end (set_start s (end_pt s)) (start_pt s).

(** A dictionary that has every key of the dataclass. *)
Definition complete (d : ShapeDict) : Prop :=
  is_Some (d_shape_id d) ∧ is_Some (d_fill_color d) ∧
  is_Some (d_connections d) ∧ is_Some (d_z_order d) ∧ is_Some (d_text d) ∧
  is_Some (d_font_family d) ∧ is_Some (d_font_size d) ∧
  is_Some (d_font_bold d) ∧ is_Some (d_font_italic d) ∧
  is_Some (d_text_align d) ∧ is_Some (d_label d) ∧
  is_Some (d_label_offset_x d) ∧ is_Some (d_label_offset_y d) ∧
  is_Some (d_routing d) ∧ is_Some (d_waypoints d).

(** [s'] is [s] moved by [(k, k)] and detached: the four coordinates and
    every waypoint are increased by [k], the connections are gone, and
    every other field, the id and the label offsets among them, is that of
    [s]. *)
Definition moved_copy (k : Z) (s s' : Shape) : Prop :=
  s' = {| x1 := (x1 s + Qcz k)%Qc; y1 := (y1 s + Qcz k)%Qc;
          x2 := (x2 s + Qcz k)%Qc; y2 := (y2 s + Qcz k)%Qc;
          color := color s; width := width s;
          shape_type := shape_type s; shape_id := shape_id s;
          fill_color := fill_color s; connections := [];
          z_order := z_order s; text := text s;
          font_family := font_family s; font_size := font_size s;
          font_bold := font_bold s; font_italic := font_italic s;
          text_align := text_align s; label := label s;
          label_offset_x := label_offset_x s;
          label_offset_y := label_offset_y s;
          routing := routing s;
          waypoints := map (fun wp => (wp.1 + Qcz k, wp.2 + Qcz k)%Qc)
                           (waypoints s) |}.

(** ** History *)

(** The drawing [cm'] shows is the drawing of [cm] after
    [rebuild_connections]. *)
Definition restores (cm' cm : CanvasManager) : Prop :=
  shapes cm' = rebuild_connections (shapes cm) ∧
  next_shape_id cm' = next_shape_id cm.

(** ** Files *)

(** A file with the given shape dictionaries. *)
Definition file_of (ds : list ShapeDict) : FileData :=
  {| file_version := Some "1.0"; file_shapes := Some ds |}.

(** A shape dictionary as a file without ids has it: the required keys
    only. *)
Definition bare_dict (ty : string) (a b c d : Z) : ShapeDict :=
  {| d_x1 := Qcz a; d_y1 := Qcz b; d_x2 := Qcz c; d_y2 := Qcz d;
     d_color := "black"; d_width := 2%Z; d_shape_type := ty;
     d_shape_id := None; d_fill_color := None; d_connections := None;
     d_z_order := None; d_text := None; d_font_family := None;
     d_font_size := None; d_font_bold := None; d_font_italic := None;
     d_text_align := None; d_label := None; d_label_offset_x := None;
     d_label_offset_y := None; d_routing := None; d_waypoints := None |}.

(** ** Drawing an orthogonal line *)

(** The point the handlers work with for a pointer position: the grid
    point when snapping to the grid is on, the position itself
    otherwise. *)
Definition gridded (app : DrawingApp) (p : Point) : Point :=
  if snap_to_grid app
  then (Qcz (py_round (p.1 / Qcz (grid_spacing app)) * grid_spacing app),
        Qcz (py_round (p.2 / Qcz (grid_spacing app)) * grid_spacing app))
  else p.

(** A sequence of clicks with an orthogonal tool. *)
Fixpoint presses (app : DrawingApp) (ps : list Point) : option DrawingApp :=
  match ps with
  | [] => Some app
  | p :: ps' =>
      match on_press_ortho app p.1 p.2 with
      | Some app' => presses app' ps'
      | None => None
      end
  end.

(** The gesture from [p] to [e] is too small to make a line. *)
Definition too_small (p e : Point) : Prop :=
  (Qcabs (e.1 - p.1) < Qcz 3)%Qc ∧ (Qcabs (e.2 - p.2) < Qcz 3)%Qc.

(** An application with the orthogonal arrow tool, the grid off. *)
Definition app0 : DrawingApp :=
  {| canvas_manager := session_a; current_tool := "ortho_arrow";
     current_color := "black"; current_fill := ""; line_width := 2%Z;
     grid_spacing := 20%Z; snap_to_grid := false;
     ortho_in_progress := false; ortho_start := None;
     ortho_waypoints := [] |}.

(** The same with the grid on. *)
Definition app_grid : DrawingApp :=
  {| canvas_manager := session_a; current_tool := "ortho_arrow";
     current_color := "black"; current_fill := ""; line_width := 2%Z;
     grid_spacing := 20%Z; snap_to_grid := true;
     ortho_in_progress := false; ortho_start := None;
     ortho_waypoints := [] |}.

(** The orthogonal line from [p0] through [wps] to [e] has been added to
    the drawing of [app], giving [app2]: it is the last shape, carries the
    next free id, the current tool as its type and no connections, and the
    line drawn for it passes through all these points in order. *)
Definition ortho_line_added (app : DrawingApp) (p0 : Point)
    (wps : list Point) (e : Point) (app2 : DrawingApp) : Prop :=
  ∃ s, shapes (canvas_manager app2) = shapes (canvas_manager app) ++ [s] ∧
       start_pt s = p0 ∧ waypoints s = wps ∧ end_pt s = e ∧
       shape_id s = next_shape_id (canvas_manager app) ∧
       next_shape_id (canvas_manager app2)
         = (next_shape_id (canvas_manager app) + 1)%Z ∧
       shape_type s = current_tool app ∧ routing s = "h_first" ∧
       connections s = [] ∧
       (p0 :: wps ++ [e]) `sublist_of` ortho_points s ∧
       head (ortho_points s) = Some p0 ∧ last (ortho_points s) = Some e.

(** ** Reconnecting an endpoint *)

(** The entries of a connection list for the endpoint [ep], and the
    others. *)
Definition entries_of (ep : string) (cs : list Connection)
  : list Connection :=
  filter (fun c => endpoint c = ep) cs.

Definition entries_besides (ep : string) (cs : list Connection)
  : list Connection :=
  filter (fun c => endpoint c ≠ ep) cs.

(** A connector at position 1 of the sample application's drawing, with
    its start near the first rectangle. *)
Definition app_line : DrawingApp :=
  set_canvas_manager app_grid
    (set_shapes session_a [rect1; line3; rect2]).

(** An orthogonal arrow with id 7 from (0, 0) by way of (30, 40) to
    (80, 10). *)
Definition ortho7 : Shape :=
  {| x1 := Qcz 0; y1 := Qcz 0; x2 := Qcz 80; y2 := Qcz 10;
     color := "black"; width := 2%Z; shape_type := "ortho_arrow";
     shape_id := 7%Z; fill_color := Some ""; connections := [];
     z_order := 0%Z; text := None; font_family := "Arial";
     font_size := 12%Z; font_bold := false; font_italic := false;
     text_align := "left"; label := None;
     label_offset_x := Qcz 0; label_offset_y := Qcz 0;
     routing := "h_first"; waypoints := [(Qcz 30, Qcz 40)] |}.

(* ====================================================================== *)
(** * The arithmetic of the source in double precision *)
(* ====================================================================== *)

(** The definitions above read a coordinate as an exact rational.  Python
    computes with [int] (exact, unbounded) and [float] (IEEE 754 binary64),
    and the tests [dist < min_dist] of [get_snap_point] and
    [dx > 0.5 and dy > 0.5] of [ortho_path] are decided on rounded values.
    This module translates the same functions over Python's numbers, with
    every operation rounded as Python rounds it and every exception the
    arithmetic can raise as the result [None]. *)

From Stdlib Require Import SpecFloat.

Module Double.

(** ** binary64 *)

(** [2 ^ e] for an integer [e] of either sign. *)
Definition pow2 (e : Z) : Qc :=
  if (0 <=? e)%Z then Qcz (2 ^ e) else (/ Qcz (2 ^ (- e)))%Qc.

(** The integer [l] with [2 ^ l <= q < 2 ^ (l + 1)], for a positive [q]. *)
Definition ilog2 (q : Qc) : Z :=
  let c := (Z.log2 (Qnum q) - Z.log2 (Zpos (Qden q)))%Z in
  if bool_decide (pow2 c <= q)%Qc then c else (c - 1)%Z.

(** A double: a finite value, an infinity or a NaN.  The sign of a zero
    is not kept: no operation of the source below tells [-0.0] from
    [0.0].  [Fin q] is a double when [q] is representable; the operations
    return representable values. *)
Inductive float : Type :=
  | Fin (q : Qc)
  | Inf (negative : bool)
  | NaN.

#[global] Instance float_eq_dec : EqDecision float.
Proof. solve_decision. Defined.

(** Rounding to the nearest double, ties to the even significand: a
    number in the binade [2 ^ l] is rounded to a multiple of
    [2 ^ (l - 52)], of [2 ^ (-1074)] in the subnormal range, and a result
    of magnitude [2 ^ 1024] or more is an infinity. *)
Definition rnd (q : Qc) : float :=
  if bool_decide (q = Qcz 0) then Fin (Qcz 0)
  else
    let e := Z.max (ilog2 (Qcabs q) - 52) (-1074) in
    let m := py_round (q / pow2 e) in
    let r := (Qcz m * pow2 e)%Qc in
    if bool_decide (pow2 1024 <= Qcabs r)%Qc
    then Inf (bool_decide (q < Qcz 0)%Qc)
    else Fin r.

(** The correctly rounded square root of a rational [a >= 0], as IEEE 754
    requires of [sqrt]: with [e] such that the root lies in
    [[2 ^ 52, 2 ^ 53) * 2 ^ e], the integer part [m] of the scaled root is
    kept or increased by one according to the side of [(m + 1/2) ^ 2]. *)
Definition sqrt_cr (a : Qc) : Qc :=
  if bool_decide (a <= Qcz 0)%Qc then Qcz 0
  else
    let e := (ilog2 a / 2 - 52)%Z in
    let t := (a / pow2 (2 * e))%Qc in
    let m := Z.sqrt (Qfloor t) in
    let mid := (Qcz (m * m + m) + Q2Qc (1 # 4))%Qc in
    let m' := if bool_decide (t < mid)%Qc then m
              else if bool_decide (mid < t)%Qc then (m + 1)%Z
              else if Z.even m then m else (m + 1)%Z in
    (Qcz m' * pow2 e)%Qc.

Definition fneg (a : float) : float :=
  match a with
  | Fin x => Fin (- x)%Qc
  | Inf s => Inf (negb s)
  | NaN => NaN
  end.

Definition fabs (a : float) : float :=
  match a with
  | Fin x => Fin (Qcabs x)
  | Inf _ => Inf false
  | NaN => NaN
  end.

Definition fadd (a b : float) : float :=
  match a, b with
  | Fin x, Fin y => rnd (x + y)%Qc
  | Fin _, Inf s => Inf s
  | Inf s, Fin _ => Inf s
  | Inf s, Inf t => if bool_decide (s = t) then Inf s else NaN
  | _, _ => NaN
  end.

Definition fsub (a b : float) : float := fadd a (fneg b).

(** Division by a divisor other than zero. *)
Definition fdiv (a b : float) : float :=
  match a, b with
  | Fin x, Fin y => rnd (x / y)%Qc
  | Fin _, Inf _ => Fin (Qcz 0)
  | Inf s, Fin y => Inf (xorb s (bool_decide (y < Qcz 0)%Qc))
  | _, _ => NaN
  end.

Definition flt (a b : float) : bool :=
  match a, b with
  | Fin x, Fin y => bool_decide (x < y)%Qc
  | Inf true, Fin _ => true
  | Inf true, Inf false => true
  | Fin _, Inf false => true
  | _, _ => false
  end.

Definition feq (a b : float) : bool :=
  match a, b with
  | Fin x, Fin y => bool_decide (x = y)
  | Inf s, Inf t => bool_decide (s = t)
  | _, _ => false
  end.

(** ** Python numbers *)

(** A number of the source is an [int] or a [float]: mouse positions and
    the integers of a file are [int], the results of [/] are [float]. *)
Inductive num : Type :=
  | Int (z : Z)
  | Flt (f : float).

#[global] Instance num_eq_dec : EqDecision num.
Proof. solve_decision. Defined.

(** The exact value of a number. *)
Definition value (a : num) : float :=
  match a with
  | Int z => Fin (Qcz z)
  | Flt f => f
  end.

(** The conversion of an operand to [float] in mixed arithmetic; an
    [int] too large for a double raises [OverflowError]. *)
Definition to_float (a : num) : option float :=
  match a with
  | Flt f => Some f
  | Int z =>
      match rnd (Qcz z) with
      | Inf _ => None
      | f => Some f
      end
  end.

(** [a + b]. *)
Definition add (a b : num) : option num :=
  match a, b with
  | Int x, Int y => Some (Int (x + y))
  | _, _ =>
      fa ← to_float a; fb ← to_float b; Some (Flt (fadd fa fb))
  end.

(** [a - b]. *)
Definition sub (a b : num) : option num :=
  match a, b with
  | Int x, Int y => Some (Int (x - y))
  | _, _ =>
      fa ← to_float a; fb ← to_float b; Some (Flt (fsub fa fb))
  end.

(** [a / b]: true division.  Of two [int]s it is the correctly rounded
    quotient, [OverflowError] when that is too large; a zero divisor
    raises [ZeroDivisionError]. *)
Definition div (a b : num) : option num :=
  match a, b with
  | Int x, Int y =>
      if bool_decide (y = 0%Z) then None
      else
        match rnd (Qcz x / Qcz y)%Qc with
        | Inf _ => None
        | f => Some (Flt f)
        end
  | _, _ =>
      fa ← to_float a; fb ← to_float b;
      if feq fb (Fin (Qcz 0)) then None else Some (Flt (fdiv fa fb))
  end.

(** [abs(a)]. *)
Definition abs (a : num) : num :=
  match a with
  | Int z => Int (Z.abs z)
  | Flt f => Flt (fabs f)
  end.

(** [a ** 2].  For a finite [float] other than zero CPython calls C's
    [pow (a, 2.0)] and turns an infinite result into [OverflowError]; the
    value the C library returns there is the parameter [pow_2]. *)
Definition square (pow_2 : Qc → float) (a : num) : option num :=
  match a with
  | Int z => Some (Int (z * z))
  | Flt (Fin q) =>
      if bool_decide (q = Qcz 0) then Some (Flt (Fin (Qcz 0)))
      else
        match pow_2 q with
        | Inf _ => None
        | f => Some (Flt f)
        end
  | Flt (Inf _) => Some (Flt (Inf false))
  | Flt NaN => Some (Flt NaN)
  end.

(** A C library whose [pow] returns the correctly rounded square. *)
Definition pow_2_cr (q : Qc) : float := rnd (q * q)%Qc.

(** [math.sqrt(a)]: the operand is converted to [float]; a negative
    operand raises [ValueError]. *)
Definition sqrt (a : num) : option num :=
  fa ← to_float a;
  match fa with
  | Fin q => if bool_decide (q < Qcz 0)%Qc then None
             else Some (Flt (Fin (sqrt_cr q)))
  | Inf false => Some (Flt (Inf false))
  | Inf true => None
  | NaN => Some (Flt NaN)
  end.

(** [a < b] and [a > b]: Python compares an [int] with a [float] by their
    exact values; a comparison with a NaN is false. *)
Definition lt (a b : num) : bool := flt (value a) (value b).
Definition gt (a b : num) : bool := lt b a.

(** [a == b] on numbers, with Python's shortcut for containers: an object
    is equal to itself, so that a NaN held by the shape compared is equal
    to itself. *)
Definition eq (a b : num) : bool :=
  match value a, value b with
  | NaN, NaN => true
  | fa, fb => feq fa fb
  end.

(** [round(a)] of a [float]: the nearest integer, the even one half way;
    an infinity raises [OverflowError], a NaN [ValueError].  An [int] is
    returned as it is. *)
Definition round (a : num) : option Z :=
  match a with
  | Int z => Some z
  | Flt (Fin q) => Some (py_round q)
  | Flt _ => None
  end.

(** A point [[x, y]]. *)
Definition Point : Type := num * num.

Definition point_eq (p q : Point) : bool := eq p.1 q.1 && eq p.2 q.2.

(** [==] on two lists, element by element. *)
Fixpoint list_eq {A : Type} (e : A → A → bool) (l k : list A) : bool :=
  match l, k with
  | [], [] => true
  | a :: l', b :: k' => e a b && list_eq e l' k'
  | _, _ => false
  end.

(** ** Shapes *)

(** The dataclass [Shape] with its numbers as Python has them. *)
Record Shape : Type := mkShape {
  x1 : num;
  y1 : num;
  x2 : num;
  y2 : num;
  color : string;
  width : Z;
  shape_type : string;
  shape_id : Z;
  fill_color : option string;
  connections : list Connection;
  z_order : Z;
  text : option string;
  font_family : string;
  font_size : Z;
  font_bold : bool;
  font_italic : bool;
  text_align : string;
  label : option string;
  label_offset_x : num;
  label_offset_y : num;
  routing : string;
  waypoints : list Point
}.

#[global] Instance shape_eq_dec : EqDecision Shape.
Proof. solve_decision. Defined.

(** The field-wise [==] of the dataclass. *)
Definition shape_eq (a b : Shape) : bool :=
  eq (x1 a) (x1 b) && eq (y1 a) (y1 b)
  && eq (x2 a) (x2 b) && eq (y2 a) (y2 b)
  && bool_decide (color a = color b)
  && bool_decide (width a = width b)
  && bool_decide (shape_type a = shape_type b)
  && bool_decide (shape_id a = shape_id b)
  && bool_decide (fill_color a = fill_color b)
  && bool_decide (connections a = connections b)
  && bool_decide (z_order a = z_order b)
  && bool_decide (text a = text b)
  && bool_decide (font_family a = font_family b)
  && bool_decide (font_size a = font_size b)
  && bool_decide (font_bold a = font_bold b)
  && bool_decide (font_italic a = font_italic b)
  && bool_decide (text_align a = text_align b)
  && bool_decide (label a = label b)
  && eq (label_offset_x a) (label_offset_x b)
  && eq (label_offset_y a) (label_offset_y b)
  && bool_decide (routing a = routing b)
  && list_eq point_eq (waypoints a) (waypoints b).

(** [shape == exclude_shape]; a shape is never equal to [None]. *)
Definition excluded (shape : Shape) (exclude_shape : option Shape) : bool :=
  match exclude_shape with
  | Some e => shape_eq shape e
  | None => false
  end.

Definition is_line (s : Shape) : bool :=
  bool_decide (shape_type s ∈ LINE_TYPES).

(** The literal [0.5] and the attribute [snap_distance = 15]. *)
Definition half : num := Flt (Fin (Q2Qc (1 # 2))).
Definition snap_distance : num := Int 15.

(** ** Orthogonal path computation *)

(** One turn of the loop of [ortho_path]; [result[-1]] of an empty list
    raises [IndexError]. *)
Definition ortho_step (routing : string) (result : option (list Point))
    (curr : Point) : option (list Point) :=
  result ← result;
  prev ← last result;
  dx ← sub curr.1 prev.1;
  dy ← sub curr.2 prev.2;
  let dx := abs dx in
  let dy := abs dy in
  let result :=
    if gt dx half && gt dy half then
      if bool_decide (routing = "v_first")
      then result ++ [(prev.1, curr.2)]
      else result ++ [(curr.1, prev.2)]
    else result in
  Some (result ++ [curr]).

Definition ortho_path (points : list Point) (routing : string)
  : option (list Point) :=
  if bool_decide (length points < 2) then Some points
  else
    match points with
    | [] => Some []
    | p0 :: rest => foldl (ortho_step routing) (Some [p0]) rest
    end.

(** ** Snapping *)

(** [(a + b) / 2]. *)
Definition mid (a b : num) : option num :=
  s ← add a b; div s (Int 2).

(** [abs(b - a) / 2]. *)
Definition radius (a b : num) : option num :=
  d ← sub b a; div (abs d) (Int 2).

(** The anchor points of a shape, in the order of the source. *)
Definition snap_points (shape : Shape) : option (list Point) :=
  if bool_decide (shape_type shape ∈ ["rectangle"; "square"]) then
    mx ← mid (x1 shape) (x2 shape);
    my ← mid (y1 shape) (y2 shape);
    Some [ (x1 shape, y1 shape); (x2 shape, y1 shape);
           (x1 shape, y2 shape); (x2 shape, y2 shape);
           (mx, y1 shape); (mx, y2 shape);
           (x1 shape, my); (x2 shape, my) ]
  else if bool_decide (shape_type shape ∈ ["circle"; "ellipse"]) then
    cx ← mid (x1 shape) (x2 shape);
    cy ← mid (y1 shape) (y2 shape);
    rx ← radius (x1 shape) (x2 shape);
    ry ← radius (y1 shape) (y2 shape);
    west ← sub cx rx;
    east ← add cx rx;
    north ← sub cy ry;
    south ← add cy ry;
    Some [ (west, cy); (east, cy); (cx, north); (cx, south) ]
  else if bool_decide (shape_type shape = "triangle") then
    cx ← mid (x1 shape) (x2 shape);
    Some [ (cx, y1 shape); (x1 shape, y2 shape); (x2 shape, y2 shape) ]
  else Some [].

(** [math.sqrt((x - px) ** 2 + (y - py) ** 2)]. *)
Definition dist (pow_2 : Qc → float) (x y : num) (p : Point)
  : option num :=
  dx ← sub x p.1;
  sx ← square pow_2 dx;
  dy ← sub y p.2;
  sy ← square pow_2 dy;
  s ← add sx sy;
  sqrt s.

(** The variables of the scan. *)
Record SnapState : Type := mkSnapState {
  min_dist : num;
  snap_x : num;
  snap_y : num;
  snap_shape : option Shape
}.

(** The body of the inner loop, for the anchor [p] of [shape]. *)
Definition snap_try (pow_2 : Qc → float) (x y : num) (shape : Shape)
    (st : option SnapState) (p : Point) : option SnapState :=
  st ← st;
  d ← dist pow_2 x y p;
  if lt d (min_dist st)
  then Some {| min_dist := d; snap_x := p.1; snap_y := p.2;
               snap_shape := Some shape |}
  else Some st.

(** The body of the outer loop. *)
Definition snap_scan (pow_2 : Qc → float) (x y : num)
    (exclude_shape : option Shape) (st : option SnapState) (shape : Shape)
  : option SnapState :=
  st ← st;
  if excluded shape exclude_shape || is_line shape then Some st
  else
    ps ← snap_points shape;
    foldl (snap_try pow_2 x y shape) (Some st) ps.

Definition get_snap_point (pow_2 : Qc → float) (shapes : list Shape)
    (x y : num) (exclude_shape : option Shape)
  : option (num * num * option Shape) :=
  let st0 := {| min_dist := snap_distance; snap_x := x; snap_y := y;
                snap_shape := None |} in
  st ← foldl (snap_scan pow_2 x y exclude_shape) (Some st0) shapes;
  Some (snap_x st, snap_y st, snap_shape st).

(** ** The grid *)

(** [snap_point] of [drawing_app.py], with the two attributes it reads. *)
Definition snap_point (snap_to_grid : bool) (grid_spacing : Z) (x y : num)
  : option Point :=
  if negb snap_to_grid then Some (x, y)
  else
    let sp := grid_spacing in
    qx ← div x (Int sp);
    rx ← round qx;
    qy ← div y (Int sp);
    ry ← round qy;
    Some (Int (rx * sp), Int (ry * sp)).

End Double.

(** ** Vocabulary for the double-precision reading *)

(** [R] holds of every two neighbours of the list. *)
Fixpoint chain {A : Type} (R : A → A → Prop) (l : list A) : Prop :=
  match l with
  | [] => True
  | a :: l' =>
      match l' with
      | [] => True
      | b :: _ => R a b ∧ chain R l'
      end
  end.

(** The finite exact value of a number, if it has one. *)
Definition fin (a : Double.num) : option Qc :=
  match Double.value a with
  | Double.Fin q => Some q
  | _ => None
  end.

(** The test of [ortho_path] on the segment from [prev] to [curr], as the
    code evaluates it; [None] when a difference raises. *)
Definition measured_bend (prev curr : Double.Point) : option bool :=
  dx ← Double.sub curr.1 prev.1;
  dy ← Double.sub curr.2 prev.2;
  Some (Double.gt (Double.abs dx) Double.half
        && Double.gt (Double.abs dy) Double.half).

(** The segment passes for axis-aligned in the code's own test. *)
Definition aligned_as_measured (p q : Double.Point) : Prop :=
  measured_bend p q = Some false.

(** The segment is axis-aligned within the tolerance 0.5 in exact
    arithmetic. *)
Definition aligned_exactly (p q : Double.Point) : Prop :=
  ∃ px py qx qy,
    fin p.1 = Some px ∧ fin p.2 = Some py ∧
    fin q.1 = Some qx ∧ fin q.2 = Some qy ∧
    ((Qcabs (qx - px) <= half)%Qc ∨ (Qcabs (qy - py) <= half)%Qc).

(** The difference [a - b] is computed without rounding. *)
Definition exact_diff (a b : Double.num) : Prop :=
  ∃ qa qb d,
    fin a = Some qa ∧ fin b = Some qb ∧
    Double.sub a b = Some d ∧ fin d = Some (qa - qb)%Qc.

(** Both differences of the segment are computed without rounding. *)
Definition exact_segment (p q : Double.Point) : Prop :=
  exact_diff q.1 p.1 ∧ exact_diff q.2 p.2.

(** Every coordinate is an [int]. *)
Definition int_point (p : Double.Point) : Prop :=
  (∃ z, p.1 = Double.Int z) ∧ (∃ z, p.2 = Double.Int z).

(** The bend point of the segment from [prev] to [curr]. *)
Definition bend_point (routing : string) (prev curr : Double.Point)
  : Double.Point :=
  if bool_decide (routing = "v_first") then (prev.1, curr.2)
  else (curr.1, prev.2).

(** The routed path after the point [prev]. *)
Fixpoint routed_from (routing : string) (prev : Double.Point)
    (rest : list Double.Point) : option (list Double.Point) :=
  match rest with
  | [] => Some []
  | curr :: rest' =>
      b ← measured_bend prev curr;
      tl ← routed_from routing curr rest';
      Some ((if b : bool then [bend_point routing prev curr] else [])
            ++ curr :: tl)
  end.

(** The number of segments on which the code's test asks for a bend. *)
Fixpoint measured_bends (prev : Double.Point) (rest : list Double.Point)
  : nat :=
  match rest with
  | [] => 0
  | curr :: rest' =>
      (if bool_decide (measured_bend prev curr = Some true) then 1 else 0)
      + measured_bends curr rest'
  end.

(** No difference the router computes on the input raises. *)
Definition measurable (points : list Double.Point) : Prop :=
  chain (fun p q => is_Some (measured_bend p q)) points.

(** Numbers written as in a file or at the keyboard: an [int], and the
    double nearest to a decimal fraction. *)
Definition int (z : Z) : Double.num := Double.Int z.
Definition dbl (n : Z) (d : positive) : Double.num :=
  Double.Flt (Double.rnd (Q2Qc (n # d))).

(** The input [[(-2 ** -60, 0), (0.5, 10)]]. *)
Definition near_half_path : list Double.Point :=
  [ (Double.Flt (Double.Fin (- Double.pow2 (-60))), int 0);
    (Double.Flt (Double.Fin (Q2Qc (1 # 2))), int 10) ].

(** ** Snapping in double precision *)

(** A shape the scan looks at. *)
Definition eligible_shape (exclude_shape : option Double.Shape)
    (s : Double.Shape) : Prop :=
  Double.excluded s exclude_shape = false ∧ Double.is_line s = false.

(** [p] is an anchor point of the eligible shape [s] of the drawing. *)
Definition anchor_at (shapes : list Double.Shape)
    (exclude_shape : option Double.Shape) (p : Double.Point)
    (s : Double.Shape) : Prop :=
  s ∈ shapes ∧ eligible_shape exclude_shape s ∧
  ∃ ps, Double.snap_points s = Some ps ∧ p ∈ ps.

(** Neither the anchors of an eligible shape nor the distance of the
    query point to one of them raises. *)
Definition scan_defined (pow_2 : Qc → Double.float)
    (shapes : list Double.Shape) (x y : Double.num)
    (exclude_shape : option Double.Shape) : Prop :=
  ∀ s, s ∈ shapes → eligible_shape exclude_shape s →
       ∃ ps, Double.snap_points s = Some ps ∧
             ∀ p, p ∈ ps → is_Some (Double.dist pow_2 x y p).

(** An anchor, its shape and its distance as the code computes it. *)
Definition Measured : Type := Double.Point * Double.Shape * Double.num.

(** The anchors [ps] of [shape] with their computed distances. *)
Fixpoint measure (pow_2 : Qc → Double.float) (x y : Double.num)
    (shape : Double.Shape)
    (ps : list Double.Point) : option (list Measured) :=
  match ps with
  | [] => Some []
  | p :: ps' =>
      d ← Double.dist pow_2 x y p;
      ms ← measure pow_2 x y shape ps';
      Some ((p, shape, d) :: ms)
  end.

(** The anchors the scan visits, in its order, with their computed
    distances; [None] when computing one of them raises. *)
Fixpoint measured (pow_2 : Qc → Double.float)
    (shapes : list Double.Shape) (x y : Double.num)
    (exclude_shape : option Double.Shape) : option (list Measured) :=
  match shapes with
  | [] => Some []
  | s :: shapes' =>
      if Double.excluded s exclude_shape || Double.is_line s
      then measured pow_2 shapes' x y exclude_shape
      else
        ps ← Double.snap_points s;
        m ← measure pow_2 x y s ps;
        ms ← measured pow_2 shapes' x y exclude_shape;
        Some (m ++ ms)
  end.

(** The update of the scan for one measured anchor. *)
Definition pick (st : Double.SnapState) (c : Measured) : Double.SnapState :=
  if Double.lt c.2 (Double.min_dist st)
  then {| Double.min_dist := c.2;
          Double.snap_x := c.1.1.1; Double.snap_y := c.1.1.2;
          Double.snap_shape := Some c.1.2 |}
  else st.

(** The invariant of the scan after the anchors [seen]: no anchor seen
    has a computed distance below the running minimum, and the anchor
    held, if any, was seen, has the running minimum as its distance and
    lies below the threshold. *)
Definition nearest_inv (x y : Double.num) (seen : list Measured)
    (st : Double.SnapState) : Prop :=
  (∀ c, c ∈ seen → Double.lt c.2 (Double.min_dist st) = false) ∧
  match Double.snap_shape st with
  | None =>
      Double.min_dist st = Double.snap_distance ∧
      Double.snap_x st = x ∧ Double.snap_y st = y
  | Some s =>
      ((Double.snap_x st, Double.snap_y st), s, Double.min_dist st) ∈ seen ∧
      Double.lt (Double.min_dist st) Double.snap_distance = true
  end.

(** The anchors of a shape in the words of the specification: the four
    corners and the four edge midpoints of a rectangle or square, the four
    cardinal points of a circle or ellipse, the apex and the two base
    corners of a triangle; no anchor for any other type. *)
Definition corners (s : Double.Shape) : list Double.Point :=
  [ (Double.x1 s, Double.y1 s); (Double.x2 s, Double.y1 s);
    (Double.x1 s, Double.y2 s); (Double.x2 s, Double.y2 s) ].

Definition edge_midpoints (s : Double.Shape) : option (list Double.Point) :=
  mx ← Double.mid (Double.x1 s) (Double.x2 s);
  my ← Double.mid (Double.y1 s) (Double.y2 s);
  Some [ (mx, Double.y1 s); (mx, Double.y2 s);
         (Double.x1 s, my); (Double.x2 s, my) ].

Definition cardinal_points (s : Double.Shape) : option (list Double.Point) :=
  cx ← Double.mid (Double.x1 s) (Double.x2 s);
  cy ← Double.mid (Double.y1 s) (Double.y2 s);
  rx ← Double.radius (Double.x1 s) (Double.x2 s);
  ry ← Double.radius (Double.y1 s) (Double.y2 s);
  west ← Double.sub cx rx;
  east ← Double.add cx rx;
  north ← Double.sub cy ry;
  south ← Double.add cy ry;
  Some [ (west, cy); (east, cy); (cx, north); (cx, south) ].

Definition triangle_points (s : Double.Shape) : option (list Double.Point) :=
  apex_x ← Double.mid (Double.x1 s) (Double.x2 s);
  Some [ (apex_x, Double.y1 s);
         (Double.x1 s, Double.y2 s); (Double.x2 s, Double.y2 s) ].

Definition anchor_points (s : Double.Shape) : option (list Double.Point) :=
  let ty := Double.shape_type s in
  if bool_decide (ty = "rectangle" ∨ ty = "square")
  then m ← edge_midpoints s; Some (corners s ++ m)
  else if bool_decide (ty = "circle" ∨ ty = "ellipse")
  then cardinal_points s
  else if bool_decide (ty = "triangle") then triangle_points s
  else Some [].

(** The square of the Euclidean distance in exact arithmetic, for finite
    coordinates. *)
Definition euclid2 (x y : Double.num) (p : Double.Point) : option Qc :=
  qx ← fin x; qy ← fin y; px ← fin p.1; py ← fin p.2;
  Some ((qx - px) * (qx - px) + (qy - py) * (qy - py))%Qc.

(** A shape as the drawing tools build it, with [int] corners. *)
Definition box (ty : string) (a b c d : Z) : Double.Shape :=
  {| Double.x1 := int a; Double.y1 := int b;
     Double.x2 := int c; Double.y2 := int d;
     Double.color := "black"; Double.width := 2%Z;
     Double.shape_type := ty; Double.shape_id := 0%Z;
     Double.fill_color := None; Double.connections := [];
     Double.z_order := 0%Z; Double.text := None;
     Double.font_family := "Arial"; Double.font_size := 12%Z;
     Double.font_bold := false; Double.font_italic := false;
     Double.text_align := "left"; Double.label := None;
     Double.label_offset_x := int 0; Double.label_offset_y := int 0;
     Double.routing := "h_first"; Double.waypoints := [] |}.

(** Two squares whose facing corners (10, 0) and (20, 0) are 10 apart. *)
Definition two_squares : list Double.Shape :=
  [box "square" 0 0 10 10; box "square" 20 0 30 10].

(** The query point [(2 ** -60, 0)]. *)
Definition tiny : Double.num := Double.Flt (Double.Fin (Double.pow2 (-60))).

(** The distance [c] is greater than [d], or is a NaN. *)
Definition farther (c d : Double.num) : Prop :=
  Double.lt d c = true ∨ Double.value c = Double.NaN.

(** The invariant of the scan that records the order: the anchor held is
    the first among the anchors [seen] whose computed distance is the
    least. *)
Definition first_inv (seen : list Measured) (st : Double.SnapState)
  : Prop :=
  match Double.snap_shape st with
  | None =>
      Double.min_dist st = Double.snap_distance ∧
      ∀ c, c ∈ seen → Double.lt c.2 Double.snap_distance = false
  | Some s =>
      ∃ l1 l2,
        seen = l1 ++ ((Double.snap_x st, Double.snap_y st), s,
                      Double.min_dist st) :: l2 ∧
        Double.lt (Double.min_dist st) Double.snap_distance = true ∧
        (∀ c, c ∈ l1 → farther c.2 (Double.min_dist st)) ∧
        (∀ c, c ∈ l2 → Double.lt c.2 (Double.min_dist st) = false)
  end.

(** ** The Standard Library's binary64 *)

(** An integer as a [spec_float] of the Standard Library, and the value of
    a [spec_float]. *)
Definition sf (z : Z) : spec_float := binary_normalize 53 1024 z 0 false.

Definition sf_value (f : spec_float) : Double.float :=
  match f with
  | S754_zero _ => Double.Fin (Qcz 0)
  | S754_infinity s => Double.Inf s
  | S754_nan => Double.NaN
  | S754_finite s m e =>
      Double.Fin ((if s then - Qcz (Zpos m) else Qcz (Zpos m))
                  * Double.pow2 e)%Qc
  end.

(** The finite value of a double, zero otherwise. *)
Definition finite (f : Double.float) : Qc :=
  match f with
  | Double.Fin q => q
  | _ => Qcz 0
  end.

(* ====================================================================== *)
(** * Properties *)
(* ====================================================================== *)

(** A closed decidable proposition, settled by evaluating its decision
    procedure. *)
Ltac by_compute :=
  match goal with
  | |- ?P => apply (bool_decide_unpack P); vm_compute; exact I
  end.

(** ** shapes.py *)

Lemma from_dict_to_dict (s : Shape) : from_dict (to_dict s) = s.
Proof. by destruct s. Qed.

(** ** Router *)

Lemma Qcabs_self (x : Qc) : (Qcabs (x - x) <= half)%Qc.
Proof.
  replace (x - x)%Qc with (Q2Qc 0) by ring.
  rewrite Qcabs_pos; [|apply Qcle_refl]. by vm_compute.
Qed.

Lemma consecutive_aligned_snoc (l : list Point) (x : Point) :
  consecutive_aligned l →
  (∀ p, last l = Some p → axis_aligned p x) →
  consecutive_aligned (l ++ [x]).
Proof.
  intros Hl Hx i p q Hp Hq.
  destruct (decide (S i < length l)) as [Hlt|Hge].
  - rewrite lookup_app_l in Hp by lia. rewrite lookup_app_l in Hq by lia.
    eauto.
  - assert (S i = length l) as Hi.
    { apply lookup_lt_Some in Hq. rewrite length_app in Hq. simpl in Hq. lia. }
    rewrite lookup_app_l in Hp by lia.
    rewrite Hi in Hq. rewrite list_lookup_middle in Hq by done.
    injection Hq as <-. apply Hx.
    rewrite last_lookup. rewrite <- Hi. simpl. done.
Qed.

Lemma ortho_step_spec (routing : string) (result : list Point) (curr : Point) :
  consecutive_aligned result →
  consecutive_aligned (ortho_step routing result curr) ∧
  last (ortho_step routing result curr) = Some curr ∧
  S (length result) ≤ length (ortho_step routing result curr) ∧
  length (ortho_step routing result curr) ≤ S (S (length result)).
Proof.
  intros Hres. unfold ortho_step.
  destruct (last result) as [prev|] eqn:Hlast.
  - cbv zeta.
    destruct (bool_decide (half < Qcabs (curr.1 - prev.1))%Qc) eqn:Hdx;
      [destruct (bool_decide (half < Qcabs (curr.2 - prev.2))%Qc) eqn:Hdy|];
      simpl.
    + destruct (bool_decide (routing = "v_first")); simpl.
      * split_and!.
        -- apply consecutive_aligned_snoc.
           ++ apply consecutive_aligned_snoc; [done|].
              intros p Hp. rewrite Hlast in Hp. injection Hp as <-.
              left. simpl. apply Qcabs_self.
           ++ intros p Hp. rewrite last_snoc in Hp. injection Hp as <-.
              right. simpl. apply Qcabs_self.
        -- by rewrite last_snoc.
        -- rewrite !length_app. simpl. lia.
        -- rewrite !length_app. simpl. lia.
      * split_and!.
        -- apply consecutive_aligned_snoc.
           ++ apply consecutive_aligned_snoc; [done|].
              intros p Hp. rewrite Hlast in Hp. injection Hp as <-.
              right. simpl. apply Qcabs_self.
           ++ intros p Hp. rewrite last_snoc in Hp. injection Hp as <-.
              left. simpl. apply Qcabs_self.
        -- by rewrite last_snoc.
        -- rewrite !length_app. simpl. lia.
        -- rewrite !length_app. simpl. lia.
    + split_and!.
      * apply consecutive_aligned_snoc; [done|].
        intros p Hp. rewrite Hlast in Hp. injection Hp as <-.
        right. apply bool_decide_eq_false_1 in Hdy. by apply Qcnot_lt_le.
      * by rewrite last_snoc.
      * rewrite !length_app. simpl. lia.
      * rewrite !length_app. simpl. lia.
    + split_and!.
      * apply consecutive_aligned_snoc; [done|].
        intros p Hp. rewrite Hlast in Hp. injection Hp as <-.
        left. apply bool_decide_eq_false_1 in Hdx. by apply Qcnot_lt_le.
      * by rewrite last_snoc.
      * rewrite !length_app. simpl. lia.
      * rewrite !length_app. simpl. lia.
  - split_and!.
    + apply consecutive_aligned_snoc; [done|]. intros p Hp. congruence.
    + by rewrite last_snoc.
    + rewrite !length_app. simpl. lia.
    + rewrite !length_app. simpl. lia.
Qed.

Lemma ortho_fold_spec (routing : string) (rest result : list Point) :
  consecutive_aligned result →
  consecutive_aligned (foldl (ortho_step routing) result rest) ∧
  length result + length rest ≤ length (foldl (ortho_step routing) result rest) ∧
  length (foldl (ortho_step routing) result rest)
    ≤ length result + 2 * length rest.
Proof.
  revert result. induction rest as [|curr rest IH]; intros result Hres; simpl.
  - split_and!; [done|lia|lia].
  - destruct (ortho_step_spec routing result curr Hres) as (Hal & _ & Hlo & Hhi).
    destruct (IH _ Hal) as (Hal' & Hlo' & Hhi').
    split_and!; [done|lia|lia].
Qed.

(** The bend goes horizontally first by default and vertically first on
    request; aligned input gets no bend. *)
Example ortho_path_bends :
  ortho_path [(Qcz 0, Qcz 0); (Qcz 10, Qcz 10)] "h_first"
    = [(Qcz 0, Qcz 0); (Qcz 10, Qcz 0); (Qcz 10, Qcz 10)] ∧
  ortho_path [(Qcz 0, Qcz 0); (Qcz 10, Qcz 10)] "v_first"
    = [(Qcz 0, Qcz 0); (Qcz 0, Qcz 10); (Qcz 10, Qcz 10)] ∧
  ortho_path [(Qcz 0, Qcz 0); (Qcz 10, Qcz 0); (Qcz 10, Qcz 7)] "h_first"
    = [(Qcz 0, Qcz 0); (Qcz 10, Qcz 0); (Qcz 10, Qcz 7)].
Proof. split_and!; by_compute. Qed.

(** ** Snapping *)

Section snap_scan.
Context (x y : Qc) (exclude_shape : option Shape).

(** The two nested loops visit the list [candidates] once. *)
Lemma snap_scan_candidates (shapes : list Shape) (st : SnapState) :
  foldl (snap_scan x y exclude_shape) st shapes =
  foldl (fun st c => snap_try x y c.2 st c.1) st
        (candidates shapes exclude_shape).
Proof.
  revert st. induction shapes as [|s shapes IH]; intros st; [done|].
  simpl. unfold candidates in *. simpl. rewrite foldl_app, <- IH.
  f_equal. unfold snap_scan.
  destruct (bool_decide (Some s = exclude_shape) || is_line s); [done|].
  generalize (snap_points s). intros l. revert st.
  induction l as [|p l IHl]; intros st; [done|]. simpl. apply IHl.
Qed.

Lemma snap_try_inv (seen : list (Point * Shape)) (st : SnapState)
    (c : Point * Shape) :
  snap_inv x y seen st →
  snap_inv x y (seen ++ [c]) (snap_try x y c.2 st c.1).
Proof.
  intros [Hmin Hsh]. unfold snap_try.
  case_bool_decide as Hlt.
  - split; simpl.
    + intros c' [Hc'|Hc']%elem_of_app.
      * apply Qclt_le_weak. eapply Qclt_le_trans; [exact Hlt|].
        by apply Hmin.
      * apply list_elem_of_singleton in Hc'. subst c'. apply Qcle_refl.
    + split_and!.
      * apply elem_of_app. right. apply list_elem_of_singleton.
        by destruct c as [[??]?].
      * by destruct c as [[??]?].
      * eapply Qclt_le_trans; [exact Hlt|].
        destruct (snap_shape st).
        -- destruct Hsh as (_ & _ & Hsh). by apply Qclt_le_weak.
        -- destruct Hsh as (-> & _). apply Qcle_refl.
  - split.
    + intros c' [Hc'|Hc']%elem_of_app; [by apply Hmin|].
      apply list_elem_of_singleton in Hc'. subst c'. by apply Qcnot_lt_le.
    + destruct (snap_shape st); [|done].
      destruct Hsh as (Hin & ? & ?). split_and!; [|done|done].
      apply elem_of_app. by left.
Qed.

Lemma snap_fold_inv (l seen : list (Point * Shape)) (st : SnapState) :
  snap_inv x y seen st →
  snap_inv x y (seen ++ l)
           (foldl (fun st c => snap_try x y c.2 st c.1) st l).
Proof.
  revert seen st. induction l as [|c l IH]; intros seen st Hinv; simpl.
  - by rewrite app_nil_r.
  - replace (seen ++ c :: l) with ((seen ++ [c]) ++ l)
      by (by rewrite <- app_assoc).
    apply IH. by apply snap_try_inv.
Qed.
End snap_scan.

Lemma elem_of_candidates (shapes : list Shape) (ex : option Shape)
    (p : Point) (s : Shape) :
  (p, s) ∈ candidates shapes ex ↔ is_anchor shapes ex p s.
Proof.
  unfold candidates, is_anchor, eligible, is_line.
  rewrite list_elem_of_In, in_flat_map. split.
  - intros (s' & Hs' & Hp). apply list_elem_of_In in Hs'.
    destruct (bool_decide (Some s' = ex)) eqn:Hex; simpl in Hp; [done|].
    destruct (bool_decide (shape_type s' ∈ LINE_TYPES)) eqn:Hline;
      simpl in Hp; [done|].
    apply in_map_iff in Hp as (p' & [= -> ->] & Hp').
    apply bool_decide_eq_false_1 in Hex, Hline.
    split_and!; [done..|]. by apply list_elem_of_In.
  - intros (Hs & (Hex & Hline) & Hp). exists s. split.
    + by apply list_elem_of_In.
    + rewrite bool_decide_eq_false_2 by done.
      rewrite bool_decide_eq_false_2 by done. simpl.
      apply in_map_iff. exists p. split; [done|]. by apply list_elem_of_In.
Qed.


(** ** Clone with offset *)

(** C2, as stated, fails: the copy of a shape with id 1 has id 1, not the
    unassigned id 0. *)
Lemma copy_keeps_id_counterexample :
  ¬ clone_offset_20 rect1 (copy rect1) ∧ shape_id (copy rect1) = 1%Z.
Proof.
  split; [|done]. unfold clone_offset_20. intros (_ & _ & _ & _ & _ & _ & Hid).
  by vm_compute in Hid.
Qed.

(** C2, amended. [Shape.copy] returns a shape whose four coordinates and
    every waypoint are moved by (20, 20), whose connections are empty,
    whose id is the id of the original and whose other fields are those of
    the original; the id is reset to 0 by [paste_shape], which then inserts
    the copy under the next free id. *)
Theorem copy_offset (s : Shape) :
  x1 (copy s) = (x1 s + Qcz 20)%Qc ∧ y1 (copy s) = (y1 s + Qcz 20)%Qc ∧
  x2 (copy s) = (x2 s + Qcz 20)%Qc ∧ y2 (copy s) = (y2 s + Qcz 20)%Qc ∧
  waypoints (copy s)
    = map (fun wp => (wp.1 + Qcz 20, wp.2 + Qcz 20)%Qc) (waypoints s) ∧
  connections (copy s) = [] ∧
  shape_id (copy s) = shape_id s ∧
  (color (copy s), width (copy s), shape_type (copy s), fill_color (copy s),
   z_order (copy s), text (copy s), font_family (copy s), font_size (copy s),
   font_bold (copy s), font_italic (copy s), text_align (copy s),
   label (copy s), label_offset_x (copy s), label_offset_y (copy s),
   routing (copy s))
  = (color s, width s, shape_type s, fill_color s, z_order s, text s,
     font_family s, font_size s, font_bold s, font_italic s, text_align s,
     label s, label_offset_x s, label_offset_y s, routing s) ∧
  ∀ cm c, clipboard cm = Some c →
    shapes (paste_shape cm)
      = shapes cm ++ [set_shape_id (copy c) (next_shape_id cm)] ∧
    next_shape_id (paste_shape cm) = (next_shape_id cm + 1)%Z.
Proof.
  split_and!; try done.
  intros cm c Hc. unfold paste_shape, add_shape. rewrite Hc. simpl.
  by destruct cm.
Qed.

(** ** Deletion *)

Lemma shape_id_detach (i : Z) (s : Shape) : shape_id (detach i s) = shape_id s.
Proof. done. Qed.

Lemma list_remove_detach (i : Z) (sh : Shape) (l : list Shape) :
  NoDup (map shape_id l) → sh ∈ l →
  ∃ l1 l2, l = l1 ++ sh :: l2 ∧
    list_remove (detach i sh) (map (detach i) l) = map (detach i) (l1 ++ l2).
Proof.
  induction l as [|y l IH]; intros Hnd Hin; [by apply elem_of_nil in Hin|].
  simpl in Hnd. apply NoDup_cons in Hnd as [Hy Hnd]. simpl.
  case_bool_decide as Heq.
  - assert (shape_id y = shape_id sh) as Hid.
    { by rewrite <- (shape_id_detach i y), Heq. }
    apply elem_of_cons in Hin as [->|Hin].
    + by exists [], l.
    + exfalso. apply Hy. rewrite Hid. by apply list_elem_of_fmap_2.
  - apply elem_of_cons in Hin as [->|Hin]; [done|].
    destruct (IH Hnd Hin) as (l1 & l2 & -> & Hrm).
    exists (y :: l1), l2. split; [done|]. simpl. by rewrite Hrm.
Qed.

Lemma last_record_state (cm : CanvasManager) :
  last (undo_stack (record_state cm)) = Some (current_state cm).
Proof.
  unfold record_state. simpl. case_bool_decide as Hlen; [|by rewrite last_snoc].
  destruct (undo_stack cm) as [|a u]; simpl in *.
  - unfold max_undo in Hlen. lia.
  - rewrite drop_0. by rewrite last_snoc.
Qed.

(** C6. [delete_shape] on a shape that is not in the collection changes
    nothing.  On a member of a drawing with pairwise distinct ids it takes
    out exactly that shape and keeps every other shape, in order, with the
    connection entries that target the deleted id filtered out and nothing
    else changed; the state before the deletion is what is pushed on the
    undo stack. *)
Theorem delete_shape_cascading_detach (cm : CanvasManager) (shape : Shape) :
  (shape ∉ shapes cm → delete_shape cm shape = cm) ∧
  (shape ∈ shapes cm → NoDup (map shape_id (shapes cm)) →
     ∃ l1 l2, shapes cm = l1 ++ shape :: l2 ∧
       shapes (delete_shape cm shape)
         = map (detach (shape_id shape)) (l1 ++ l2) ∧
       length (shapes (delete_shape cm shape)) + 1 = length (shapes cm) ∧
       next_shape_id (delete_shape cm shape) = next_shape_id cm ∧
       last (undo_stack (delete_shape cm shape)) = Some (current_state cm)) ∧
  (∀ i s, connections (detach i s)
            = filter (fun c => target_id c ≠ i) (connections s) ∧
          set_connections (detach i s) (connections s) = s).
Proof.
  split_and!.
  - intros Hnin. unfold delete_shape. by rewrite bool_decide_eq_false_2.
  - intros Hin Hnd. unfold delete_shape. rewrite bool_decide_eq_true_2 by done.
    simpl.
    destruct (list_remove_detach (shape_id shape) shape (shapes cm) Hnd Hin)
      as (l1 & l2 & Hl & Hrm).
    exists l1, l2. rewrite Hrm. split_and!; [done|done| | |].
    + rewrite Hl, length_map, !length_app. simpl. lia.
    + done.
    + apply last_record_state.
  - intros i s. split; [done|]. by destruct s.
Qed.

(** Deleting the rectangle that the end of a line is connected to removes
    the connection entry from the line and keeps the line. *)
Example delete_target_keeps_line :
  shapes (delete_shape (set_shapes init [rect1; rect2; line3]) rect2)
  = [rect1; set_connections line3 []].
Proof. by vm_compute. Qed.

(** ** History *)

Lemma map_from_dict_to_dict (l : list Shape) :
  map from_dict (map to_dict l) = l.
Proof.
  induction l as [|s l IH]; [done|]. simpl.
  by rewrite from_dict_to_dict, IH.
Qed.

Lemma redo_stack_record_state (cm : CanvasManager) :
  redo_stack (record_state cm) = [].
Proof. done. Qed.

Lemma undo_stack_record_state (cm : CanvasManager) :
  length (undo_stack cm) ≤ max_undo →
  undo_stack (record_state cm)
  = drop (S (length (undo_stack cm)) - max_undo)
         (undo_stack cm ++ [current_state cm]).
Proof.
  intros Hlen. unfold record_state, set_modified, set_redo_stack, set_undo_stack.
  cbn [undo_stack].
  case_bool_decide as Hc; rewrite length_app in Hc; simpl length in Hc.
  - replace (S (length (undo_stack cm)) - max_undo) with 1
      by (unfold max_undo in *; lia).
    done.
  - replace (S (length (undo_stack cm)) - max_undo) with 0
      by (unfold max_undo in *; lia).
    done.
Qed.

Lemma length_record_state (cm : CanvasManager) :
  length (undo_stack cm) ≤ max_undo →
  length (undo_stack (record_state cm)) ≤ max_undo ∧
  length (undo_stack (record_state cm)) ≤ S (length (undo_stack cm)).
Proof.
  intros Hlen. rewrite undo_stack_record_state by done.
  rewrite length_drop, length_app. simpl length. lia.
Qed.

Lemma Forall_record_state (P : Snapshot → Prop) (cm : CanvasManager) :
  Forall P (undo_stack cm) → P (current_state cm) →
  Forall P (undo_stack (record_state cm)).
Proof.
  intros Hu Hc. unfold record_state. simpl.
  assert (Forall P (undo_stack cm ++ [current_state cm])) as Hall.
  { apply Forall_app. split; [done|]. by apply Forall_singleton. }
  case_bool_decide; [by apply Forall_drop|done].
Qed.

(** ** Restoring a snapshot *)

Lemma add_shape_loaded (cm : CanvasManager) (ds : list ShapeDict) :
  Forall (fun d => shape_id (from_dict d) ≠ 0%Z) ds →
  foldl (fun cm shape_data => add_shape cm (from_dict shape_data) false) cm ds
  = set_shapes cm (shapes cm ++ map from_dict ds).
Proof.
  revert cm. induction ds as [|d ds IH]; intros cm Hds; simpl.
  - rewrite app_nil_r. by destruct cm.
  - apply Forall_cons in Hds as [Hd Hds]. rewrite IH by done.
    unfold add_shape. rewrite bool_decide_eq_false_2 by done. simpl.
    by rewrite <- app_assoc.
Qed.

Lemma resnap_ids (i : nat) (target : Shape) (conn : Connection)
    (l : list Shape) :
  map shape_id (resnap i target conn l) = map shape_id l.
Proof.
  unfold resnap. destruct (l !! i) as [shape|] eqn:Hi; [|done].
  change (map shape_id) with (fmap (M:=list) shape_id).
  case_bool_decide; rewrite list_fmap_insert; simpl;
    apply list_insert_id; by rewrite list_lookup_fmap, Hi.
Qed.

Lemma rebuild_shape_ids (l : list Shape) (i : nat) :
  map shape_id (rebuild_shape l i) = map shape_id l.
Proof.
  unfold rebuild_shape. destruct (l !! i) as [shape|]; [|done].
  destruct (is_line shape); [|done].
  generalize (connections shape). intros cs. revert l.
  induction cs as [|c cs IH]; intros l; [done|]. simpl.
  rewrite IH. unfold rebuild_conn.
  destruct (find_by_id l (target_id c)); [apply resnap_ids|done].
Qed.

Lemma rebuild_connections_ids (l : list Shape) :
  map shape_id (rebuild_connections l) = map shape_id l.
Proof.
  unfold rebuild_connections. generalize (seq 0 (length l)). intros idx.
  revert l. induction idx as [|i idx IH]; intros l; [done|]. simpl.
  by rewrite IH, rebuild_shape_ids.
Qed.

Lemma ids_ok_ext (l l' : list Shape) (n : Z) :
  map shape_id l' = map shape_id l → ids_ok l n → ids_ok l' n.
Proof.
  intros Heq [Hnd Hall]. split; [by rewrite Heq|].
  assert (Forall (fun i => (0 < i < n)%Z) (map shape_id l)) as Hids.
  { by apply (Forall_fmap shape_id (fun i => (0 < i < n)%Z)). }
  rewrite <- Heq in Hids.
  by apply (Forall_fmap shape_id (fun i => (0 < i < n)%Z)) in Hids.
Qed.

Lemma ids_ok_nonzero (st : Snapshot) :
  snapshot_ok st →
  Forall (fun d => shape_id (from_dict d) ≠ 0%Z) (snap_shapes st).
Proof.
  intros [[_ Hall] _].
  apply (Forall_fmap from_dict (fun s => (0 < shape_id s < _)%Z)) in Hall.
  eapply Forall_impl; [exact Hall|]. simpl. lia.
Qed.

(** [restore_state] puts back the id counter and the shapes of the
    snapshot, the latter passed through [rebuild_connections], as long as
    no shape of the snapshot has the id 0. *)
Lemma restore_state_eq (cm : CanvasManager) (state : Snapshot) :
  Forall (fun d => shape_id (from_dict d) ≠ 0%Z) (snap_shapes state) →
  restore_state cm state
  = {| shapes := rebuild_connections (map from_dict (snap_shapes state));
       next_shape_id := snap_next_id state;
       selected_shape := None; clipboard := clipboard cm;
       undo_stack := undo_stack cm; redo_stack := redo_stack cm;
       modified := modified cm |}.
Proof.
  intros Hnz. unfold restore_state. rewrite add_shape_loaded by done.
  by destruct cm.
Qed.

Lemma undo_eq (cm : CanvasManager) (u : list Snapshot) (state : Snapshot) :
  undo_stack cm = u ++ [state] →
  undo cm = restore_state
              (set_undo_stack
                 (set_redo_stack cm (redo_stack cm ++ [current_state cm])) u)
              state.
Proof.
  intros Hu. unfold undo. rewrite Hu, last_snoc. simpl.
  by rewrite Hu, removelast_last.
Qed.

Lemma redo_eq (cm : CanvasManager) (r : list Snapshot) (state : Snapshot) :
  redo_stack cm = r ++ [state] →
  redo cm = restore_state
              (set_redo_stack
                 (set_undo_stack cm (undo_stack cm ++ [current_state cm])) r)
              state.
Proof.
  intros Hr. unfold redo. rewrite Hr, last_snoc. simpl.
  by rewrite Hr, removelast_last.
Qed.

(** ** The invariant of a session *)

Lemma snapshot_ok_current (cm : CanvasManager) :
  ids_ok (shapes cm) (next_shape_id cm) → (1 ≤ next_shape_id cm)%Z →
  snapshot_ok (current_state cm).
Proof.
  intros Hids Hn. split; [|done]. simpl. by rewrite map_from_dict_to_dict.
Qed.

Lemma session_inv_init : session_inv init.
Proof.
  split_and!; simpl; try done; try lia.
  split; simpl; [constructor|done].
Qed.

Lemma session_inv_record_state (cm : CanvasManager) :
  session_inv cm → session_inv (record_state cm).
Proof.
  intros (Hids & Hn & Hu & Hr & Hlen).
  assert (length (undo_stack cm) ≤ max_undo) as Hlen' by lia.
  destruct (length_record_state cm Hlen') as [Hle _].
  split_and!; [done|done| |by rewrite redo_stack_record_state|].
  - apply Forall_record_state; [done|]. by apply snapshot_ok_current.
  - rewrite redo_stack_record_state. change (length (@nil Snapshot)) with 0.
    lia.
Qed.

Lemma ids_ok_snoc (l : list Shape) (n : Z) (s : Shape) :
  ids_ok l n → (1 ≤ n)%Z → ids_ok (l ++ [set_shape_id s n]) (n + 1)%Z.
Proof.
  intros [Hnd Hall] Hn. split.
  - rewrite map_app. simpl. apply NoDup_app. split_and!; [done| |].
    + intros i Hi ->%list_elem_of_singleton.
      apply list_elem_of_fmap in Hi as (s' & -> & Hs').
      rewrite Forall_forall in Hall. apply Hall in Hs'. lia.
    + apply NoDup_singleton.
  - apply Forall_app. split.
    + eapply Forall_impl; [exact Hall|]. simpl. lia.
    + apply Forall_singleton. simpl. lia.
Qed.

Lemma session_inv_add_shape (cm : CanvasManager) (shape : Shape) :
  session_inv cm → shape_id shape = 0%Z →
  session_inv (add_shape cm shape true).
Proof.
  intros (Hids & Hn & Hu & Hr & Hlen) Hid.
  unfold add_shape. rewrite bool_decide_eq_true_2 by done.
  apply session_inv_record_state.
  split_and!; simpl; [|lia|done..]. by apply ids_ok_snoc.
Qed.

Lemma session_inv_restore_state (cm : CanvasManager) (state : Snapshot) :
  snapshot_ok state →
  Forall snapshot_ok (undo_stack cm) → Forall snapshot_ok (redo_stack cm) →
  length (undo_stack cm) + length (redo_stack cm) ≤ max_undo →
  session_inv (restore_state cm state).
Proof.
  intros Hst Hu Hr Hlen.
  rewrite restore_state_eq by by apply ids_ok_nonzero.
  destruct Hst as [Hids Hn].
  split_and!; simpl; [|done..].
  eapply ids_ok_ext; [|exact Hids]. apply rebuild_connections_ids.
Qed.

Lemma session_inv_undo (cm : CanvasManager) :
  session_inv cm → session_inv (undo cm).
Proof.
  intros (Hids & Hn & Hu & Hr & Hlen).
  destruct (last (undo_stack cm)) as [state|] eqn:Hlast;
    [|by unfold undo; rewrite Hlast].
  apply last_Some in Hlast as [u Hlast]. rewrite (undo_eq cm u state Hlast).
  rewrite Hlast in Hu, Hlen. apply Forall_app in Hu as [Hu Hst].
  rewrite Forall_singleton in Hst. rewrite length_app in Hlen. simpl in Hlen.
  apply session_inv_restore_state; simpl; [done|done| |].
  - apply Forall_app. split; [done|]. apply Forall_singleton.
    by apply snapshot_ok_current.
  - rewrite length_app. simpl. lia.
Qed.

Lemma session_inv_redo (cm : CanvasManager) :
  session_inv cm → session_inv (redo cm).
Proof.
  intros (Hids & Hn & Hu & Hr & Hlen).
  destruct (last (redo_stack cm)) as [state|] eqn:Hlast;
    [|by unfold redo; rewrite Hlast].
  apply last_Some in Hlast as [r Hlast]. rewrite (redo_eq cm r state Hlast).
  rewrite Hlast in Hr, Hlen. apply Forall_app in Hr as [Hr Hst].
  rewrite Forall_singleton in Hst. rewrite length_app in Hlen. simpl in Hlen.
  apply session_inv_restore_state; simpl; [done| |done|].
  - apply Forall_app. split; [done|]. apply Forall_singleton.
    by apply snapshot_ok_current.
  - rewrite length_app. simpl. lia.
Qed.

Lemma list_remove_sublist (x : Shape) (l : list Shape) :
  list_remove x l `sublist_of` l.
Proof.
  induction l as [|y l IH]; simpl; [done|].
  case_bool_decide; [by apply sublist_cons|by apply sublist_skip].
Qed.

Lemma ids_ok_sublist (l l' : list Shape) (n : Z) :
  l' `sublist_of` l → ids_ok l n → ids_ok l' n.
Proof.
  intros Hsub [Hnd Hall]. split.
  - eapply sublist_NoDup; [exact Hnd|].
    by apply (fmap_sublist shape_id).
  - rewrite Forall_forall in Hall. apply Forall_forall. intros s Hs.
    apply Hall. by eapply elem_of_sublist.
Qed.

Lemma session_inv_delete_shape (cm : CanvasManager) (shape : Shape) :
  session_inv cm → session_inv (delete_shape cm shape).
Proof.
  intros Hinv. unfold delete_shape. case_bool_decide; [|done].
  apply session_inv_record_state in Hinv.
  destruct Hinv as (Hids & Hn & Hu & Hr & Hlen).
  split_and!; [|done..]. simpl.
  eapply ids_ok_sublist; [apply list_remove_sublist|].
  eapply ids_ok_ext; [|exact Hids]. simpl.
  rewrite map_map. by apply map_ext.
Qed.

Lemma session_inv_flip_routing (cm : CanvasManager) (i : nat) :
  session_inv cm → session_inv (flip_routing cm i).
Proof.
  intros Hinv. unfold flip_routing.
  destruct (shapes cm !! i) as [shape|] eqn:Hi; [|done].
  destruct (negb _); [done|]. apply session_inv_record_state.
  destruct Hinv as (Hids & Hn & Hu & Hr & Hlen).
  split_and!; [|done..]. simpl.
  eapply ids_ok_ext; [|exact Hids].
  change (map shape_id) with (fmap (M:=list) shape_id).
  rewrite list_fmap_insert. simpl.
  apply list_insert_id. by rewrite list_lookup_fmap, Hi.
Qed.

Lemma session_inv_clear_all (cm : CanvasManager) :
  session_inv cm → session_inv (clear_all cm true).
Proof.
  intros Hinv. unfold clear_all.
  assert (session_inv (if true && negb (bool_decide (shapes cm = []))
                       then record_state cm else cm)) as Hinv'.
  { destruct (true && negb _); [by apply session_inv_record_state|done]. }
  destruct Hinv' as (_ & _ & Hu & Hr & Hlen).
  split_and!; simpl; [|done..]. split; simpl; [constructor|done].
Qed.

Lemma session_inv_copy_shape (cm : CanvasManager) :
  session_inv cm → session_inv (copy_shape cm).
Proof. intros Hinv. unfold copy_shape. by destruct (selected_shape cm). Qed.

Lemma session_inv_paste_shape (cm : CanvasManager) :
  session_inv cm → session_inv (paste_shape cm).
Proof.
  intros Hinv. unfold paste_shape. destruct (clipboard cm); [|done].
  by apply session_inv_add_shape.
Qed.

Lemma session_inv_edit (cm : CanvasManager) (l : list Shape) :
  map shape_id l = map shape_id (shapes cm) →
  session_inv cm → session_inv (record_state (set_shapes cm l)).
Proof.
  intros Hl (Hids & Hn & Hu & Hr & Hlen). apply session_inv_record_state.
  split_and!; [|done..]. simpl. by eapply ids_ok_ext.
Qed.

Create HintDb session discriminated.
#[local] Hint Resolve session_inv_add_shape session_inv_copy_shape
  session_inv_paste_shape session_inv_delete_shape session_inv_undo
  session_inv_redo session_inv_flip_routing session_inv_edit
  session_inv_clear_all : session.

Lemma session_inv_step (cm cm' : CanvasManager) :
  step cm cm' → session_inv cm → session_inv cm'.
Proof. intros Hstep Hinv. destruct Hstep; eauto with session. Qed.

Lemma session_inv_reachable (cm : CanvasManager) :
  reachable cm → session_inv cm.
Proof.
  revert cm. apply (rtc_ind_r session_inv init).
  - apply session_inv_init.
  - intros cm1 cm2 _ Hstep IH. by eapply session_inv_step.
Qed.

(** C10. In every state an editing session reaches from the empty drawing
    the ids of the shapes are pairwise distinct and positive and each is
    strictly below [next_shape_id]. *)
Theorem reachable_ids_distinct (cm : CanvasManager) :
  reachable cm →
  NoDup (map shape_id (shapes cm)) ∧
  ∀ s, s ∈ shapes cm → (0 < shape_id s < next_shape_id cm)%Z.
Proof.
  intros Hreach. destruct (session_inv_reachable cm Hreach) as ([Hnd Hall] & _).
  split; [done|]. by apply Forall_forall.
Qed.

(** The sample session is one. *)
Lemma reachable_session_c : reachable session_c.
Proof.
  unfold reachable, session_c, session_b, session_a.
  eapply rtc_r; [|apply step_redo].
  eapply rtc_r; [|apply step_undo].
  eapply rtc_r; [|apply step_delete].
  eapply rtc_r; [|apply step_paste].
  eapply rtc_r; [|apply step_copy].
  eapply rtc_r; [|apply step_select; apply (list_elem_of_here rect1 [])].
  apply rtc_once, step_insert. reflexivity.
Defined.

(** The ids at the end of the sample session. *)
Lemma reachable_ids_distinct_witness :
  reachable session_c ∧
  NoDup (map shape_id (shapes session_c)) ∧
  ∀ s, s ∈ shapes session_c → (0 < shape_id s < next_shape_id session_c)%Z.
Proof.
  split; [apply reachable_session_c|].
  apply (reachable_ids_distinct session_c). apply reachable_session_c.
Defined.

(** ** The bound on the undo stack *)

Lemma current_state_mutate (cm : CanvasManager) (d : list Shape * Z) :
  current_state (set_next_shape_id (set_shapes cm d.1) d.2) = snapshot_of d.
Proof. done. Qed.

Lemma undo_stack_edit_and_record (ds : list (list Shape * Z))
    (cm : CanvasManager) :
  length (undo_stack cm) ≤ max_undo →
  undo_stack (foldl edit_and_record cm ds)
  = drop (length (undo_stack cm) + length ds - max_undo)
         (undo_stack cm ++ map snapshot_of ds).
Proof.
  revert cm. induction ds as [|d ds IH]; intros cm Hlen.
  - simpl. rewrite app_nil_r.
    replace (length (undo_stack cm) + 0 - max_undo) with 0 by lia. done.
  - cbn [foldl].
    pose proof (length_record_state
                  (set_next_shape_id (set_shapes cm d.1) d.2) Hlen) as [Hle _].
    pose proof (undo_stack_record_state
                  (set_next_shape_id (set_shapes cm d.1) d.2) Hlen) as Heq.
    fold (edit_and_record cm d) in Hle, Heq.
    rewrite current_state_mutate in Heq.
    change (undo_stack (set_next_shape_id (set_shapes cm d.1) d.2))
      with (undo_stack cm) in Heq.
    rewrite IH by done. rewrite Heq.
    rewrite length_drop, length_app. cbn [length map].
    rewrite <- drop_app_le by (rewrite length_app; cbn [length]; lia).
    rewrite drop_drop. rewrite <- app_assoc. cbn [app].
    f_equal. unfold max_undo in *. lia.
Qed.

(** C9. In every state of an editing session the undo stack holds at most
    50 snapshots; [record_state] appends the current state, drops the
    oldest entry when that makes 51, and empties the redo stack; sixty
    edits, each followed by [record_state], on a fresh manager leave exactly
    the snapshots of the last fifty on the undo stack. *)
Theorem undo_stack_bounded (cm : CanvasManager) (ds : list (list Shape * Z)) :
  reachable cm → length ds = 60 →
  length (undo_stack cm) ≤ 50 ∧
  undo_stack (record_state cm)
    = drop (S (length (undo_stack cm)) - 50)
           (undo_stack cm ++ [current_state cm]) ∧
  length (undo_stack (record_state cm)) ≤ 50 ∧
  redo_stack (record_state cm) = [] ∧
  undo_stack (foldl edit_and_record init ds) = map snapshot_of (drop 10 ds) ∧
  length (undo_stack (foldl edit_and_record init ds)) = 50.
Proof.
  intros Hreach Hds.
  destruct (session_inv_reachable cm Hreach) as (_ & _ & _ & _ & Hlen).
  assert (length (undo_stack cm) ≤ max_undo) as Hlen' by lia.
  assert (undo_stack (foldl edit_and_record init ds)
          = map snapshot_of (drop 10 ds)) as Hsixty.
  { rewrite undo_stack_edit_and_record by (simpl; lia).
    rewrite Hds. cbn [undo_stack init length app].
    change (0 + 60 - max_undo) with 10.
    change (map snapshot_of) with (fmap (M:=list) snapshot_of).
    by rewrite fmap_drop. }
  split_and!.
  - exact Hlen'.
  - by apply undo_stack_record_state.
  - by apply length_record_state.
  - done.
  - exact Hsixty.
  - rewrite Hsixty, length_map, length_drop, Hds. done.
Qed.

(** The bound at the end of the sample session, and sixty recorded edits
    on a fresh manager. *)
Lemma undo_stack_bounded_witness :
  reachable session_c ∧ length sixty_drawings = 60 ∧
  length (undo_stack session_c) ≤ 50 ∧
  undo_stack (foldl edit_and_record init sixty_drawings)
    = map snapshot_of (drop 10 sixty_drawings).
Proof.
  split; [apply reachable_session_c|]. split; [reflexivity|].
  destruct (undo_stack_bounded session_c sixty_drawings)
    as (H1 & _ & _ & _ & H5 & _);
    [apply reachable_session_c|reflexivity|].
  split; [exact H1|exact H5].
Defined.

(** ** Connection points *)

(** [get_connection_point] does not depend on the target it is given. *)
Lemma get_connection_point_any_target (shapes : list Shape)
    (target target' line_shape : Shape) (endpoint : string) :
  get_connection_point shapes target line_shape endpoint
  = get_connection_point shapes target' line_shape endpoint.
Proof. done. Qed.

(** C1, on the code: the end (3, 3) of [line3] is connected to [rect2],
    whose anchors are all far beyond the threshold, so snapping against
    [rect2] alone leaves the end where it is; [get_connection_point],
    called with [rect2] as the target, returns the anchor (5, 0) of the
    unrelated [rect1], and [rebuild_connections] moves the end there. *)
Theorem get_connection_point_other_shape :
  find_by_id [rect1; rect2; line3] 2%Z = Some rect2 ∧
  resolve_against_target rect2 line3 "end" = (Qcz 3, Qcz 3) ∧
  get_connection_point [rect1; rect2; line3] rect2 line3 "end"
    = (Qcz 5, Qcz 0) ∧
  ((Qcz 5, Qcz 0) ∈ snap_points rect1) ∧
  ((Qcz 5, Qcz 0) ∉ snap_points rect2) ∧
  rebuild_connections [rect1; rect2; line3] = [rect1; rect2; line3_snapped].
Proof. split_and!; by_compute. Qed.

(** With the target as the only shape that can be snapped to, the code
    and the specification agree. *)
Lemma get_connection_point_single_target (target line_shape : Shape)
    (endpoint : string) :
  get_connection_point [target] target line_shape endpoint
  = resolve_against_target target line_shape endpoint.
Proof. done. Qed.

(** ** When the history is recorded *)

Lemma current_state_record_state (cm : CanvasManager) :
  current_state (record_state cm) = current_state cm.
Proof. done. Qed.

(** [add_shape] records the state it has just produced. *)
Lemma add_shape_records_result (cm : CanvasManager) (shape : Shape) :
  last (undo_stack (add_shape cm shape true))
  = Some (current_state (add_shape cm shape true)).
Proof.
  unfold add_shape. destruct (bool_decide (shape_id shape = 0%Z));
    cbv zeta iota beta; by rewrite last_record_state, current_state_record_state.
Qed.

(** [flip_routing], when it applies, records the state it has just
    produced. *)
Lemma flip_routing_records_result (cm : CanvasManager) (i : nat) :
  flip_routing cm i ≠ cm →
  last (undo_stack (flip_routing cm i))
  = Some (current_state (flip_routing cm i)).
Proof.
  unfold flip_routing. destruct (shapes cm !! i); [|done].
  destruct (negb _); [done|]. intros _.
  by rewrite last_record_state, current_state_record_state.
Qed.

(** [delete_shape] records the state before the deletion. *)
Lemma delete_shape_records_before (cm : CanvasManager) (shape : Shape) :
  shape ∈ shapes cm →
  last (undo_stack (delete_shape cm shape)) = Some (current_state cm).
Proof.
  intros Hin. unfold delete_shape. rewrite bool_decide_eq_true_2 by done.
  apply last_record_state.
Qed.

(** C4, on the code: inserting a rectangle into the empty drawing pushes
    the snapshot of the drawing with the rectangle in it, not that of the
    empty drawing, and the undo that follows leaves the rectangle in
    place; deleting it afterwards pushes the state before the deletion. *)
Theorem add_shape_records_after_insert :
  undo_stack session_a = [current_state session_a] ∧
  current_state session_a
    = {| snap_shapes := [to_dict rect1]; snap_next_id := 2%Z |} ∧
  current_state init = {| snap_shapes := []; snap_next_id := 1%Z |} ∧
  last (undo_stack session_a) ≠ Some (current_state init) ∧
  shapes (undo session_a) = [rect1] ∧
  last (undo_stack (delete_shape session_a rect1))
    = Some (current_state session_a).
Proof. split_and!; by_compute. Qed.

(** ** Undo and redo *)

Lemma rebuild_shape_detached (l : list Shape) (i : nat) :
  detached l → rebuild_shape l i = l.
Proof.
  intros Hl. unfold rebuild_shape.
  destruct (l !! i) as [shape|] eqn:Hi; [|done].
  destruct (is_line shape) eqn:Hline; [|done].
  unfold detached in Hl. rewrite Forall_lookup in Hl.
  by rewrite (Hl i shape Hi Hline).
Qed.

Lemma rebuild_connections_detached (l : list Shape) :
  detached l → rebuild_connections l = l.
Proof.
  intros Hl. unfold rebuild_connections.
  generalize (seq 0 (length l)). intros idx.
  induction idx as [|i idx IH]; [done|]. simpl.
  by rewrite rebuild_shape_detached.
Qed.

Lemma ids_assigned_to_dict (l : list Shape) :
  ids_assigned l →
  Forall (fun d => shape_id (from_dict d) ≠ 0%Z) (map to_dict l).
Proof.
  intros Hl. apply (Forall_fmap to_dict (fun d => shape_id (from_dict d) ≠ 0%Z)).
  eapply Forall_impl; [exact Hl|]. intros s Hs. exact Hs.
Qed.

Lemma undo_empty (cm : CanvasManager) : undo_stack cm = [] → undo cm = cm.
Proof. intros Hu. unfold undo. by rewrite Hu. Qed.

Lemma redo_empty (cm : CanvasManager) : redo_stack cm = [] → redo cm = cm.
Proof. intros Hr. unfold redo. by rewrite Hr. Qed.

(** What [undo] does to the drawing right after [record_state] and a
    mutation. *)
Lemma undo_after_record (cm : CanvasManager) (l : list Shape) (n : Z) :
  ids_assigned (shapes cm) →
  ∃ u, undo (mutate (record_state cm) l n)
       = {| shapes := rebuild_connections (shapes cm);
            next_shape_id := next_shape_id cm;
            selected_shape := None; clipboard := clipboard cm;
            undo_stack := u;
            redo_stack := [current_state (mutate cm l n)];
            modified := true |}.
Proof.
  intros Hids.
  pose proof (last_record_state cm) as Hlast.
  apply last_Some in Hlast as [u Hu]. exists u.
  rewrite (undo_eq _ u (current_state cm)) by exact Hu.
  rewrite restore_state_eq by (by apply ids_assigned_to_dict).
  simpl. by rewrite map_from_dict_to_dict.
Qed.

(** C5, as stated, fails: in [drawing4] the end of the connector lies 3
    units off the corner of its target; after [record_state], a mutation
    and [undo] the connector ends on the corner, so the shape sequence is
    not the one before the mutation. *)
Lemma undo_resnaps_counterexample :
  shapes (undo (mutate (record_state drawing4) [] 1%Z))
    = [rect2; line4_snapped] ∧
  shapes (undo (mutate (record_state drawing4) [] 1%Z)) ≠ shapes drawing4.
Proof. split; by_compute. Qed.

(** C5, amended. For a drawing whose shapes have assigned ids,
    [record_state], a mutation of the shape sequence and id counter and
    [undo] restore the id counter and the shape sequence before the
    mutation, the latter with the connected endpoints re-resolved by
    [rebuild_connections]: it is exactly the sequence before the mutation
    when no connector has a connection entry.  The [redo] that follows
    restores the state after the mutation in the same sense.  [undo] and
    [redo] on an empty stack change nothing. *)
Theorem undo_redo_round_trip (cm : CanvasManager) (l : list Shape) (n : Z) :
  ids_assigned (shapes cm) → ids_assigned l →
  shapes (undo (mutate (record_state cm) l n))
    = rebuild_connections (shapes cm) ∧
  next_shape_id (undo (mutate (record_state cm) l n)) = next_shape_id cm ∧
  shapes (redo (undo (mutate (record_state cm) l n)))
    = rebuild_connections l ∧
  next_shape_id (redo (undo (mutate (record_state cm) l n))) = n ∧
  (detached (shapes cm) →
     shapes (undo (mutate (record_state cm) l n)) = shapes cm) ∧
  (detached l → shapes (redo (undo (mutate (record_state cm) l n))) = l) ∧
  (undo_stack cm = [] → undo cm = cm) ∧
  (redo_stack cm = [] → redo cm = cm).
Proof.
  intros Hcm Hl.
  destruct (undo_after_record cm l n Hcm) as [u Hundo].
  assert (redo (undo (mutate (record_state cm) l n))
          = restore_state
              (set_redo_stack
                 (set_undo_stack (undo (mutate (record_state cm) l n))
                    (u ++ [current_state (undo (mutate (record_state cm) l n))]))
                 [])
              (current_state (mutate cm l n))) as Hredo.
  { rewrite (redo_eq _ [] (current_state (mutate cm l n)))
      by (by rewrite Hundo).
    by rewrite Hundo. }
  rewrite restore_state_eq in Hredo by (by apply ids_assigned_to_dict).
  simpl in Hredo. rewrite map_from_dict_to_dict in Hredo.
  rewrite Hredo, Hundo. simpl.
  split_and!; try done.
  - intros Hd. by apply rebuild_connections_detached.
  - intros Hd. by apply rebuild_connections_detached.
  - apply undo_empty.
  - apply redo_empty.
Qed.

(** The round trip on [drawing4], with the drawing replaced by a single
    rectangle as the mutation. *)
Lemma undo_redo_round_trip_witness :
  ids_assigned (shapes drawing4) ∧ ids_assigned [rect1] ∧
  shapes (undo (mutate (record_state drawing4) [rect1] 2%Z))
    = rebuild_connections (shapes drawing4) ∧
  shapes (redo (undo (mutate (record_state drawing4) [rect1] 2%Z))) = [rect1].
Proof.
  assert (ids_assigned (shapes drawing4)) as H1
    by by_compute.
  assert (ids_assigned [rect1]) as H2
    by by_compute.
  destruct (undo_redo_round_trip drawing4 [rect1] 2%Z H1 H2)
    as (Hu & _ & _ & _ & _ & Hr & _).
  split_and!; [exact H1|exact H2|exact Hu|].
  apply Hr. by_compute.
Defined.

(** ** Saving and opening *)

(** After [open_drawing] the id counter is 1 when every loaded shape
    carries an id, whatever the counter was when the file was written. *)
Lemma open_drawing_next_shape_id (cm cm0 : CanvasManager) :
  ids_assigned (shapes cm) →
  next_shape_id (open_drawing cm0 (save_to_file cm).1) = 1%Z.
Proof.
  intros Hids. unfold open_drawing, save_to_file. simpl.
  rewrite add_shape_loaded by (by apply ids_assigned_to_dict). done.
Qed.

(** C3, as stated, fails: [drawing4], saved and opened again, comes back
    with the end of its connector moved onto the corner of the target, and
    with the id counter 1 instead of 4. *)
Lemma open_saved_counterexample :
  shapes (open_drawing init (save_to_file drawing4).1)
    = [rect2; line4_snapped] ∧
  shapes (open_drawing init (save_to_file drawing4).1) ≠ shapes drawing4 ∧
  next_shape_id (open_drawing init (save_to_file drawing4).1)
    ≠ next_shape_id drawing4.
Proof. split_and!; by_compute. Qed.

(** C3, amended. [save_to_file] writes every shape, in order, with every
    field of the data model under its field name, and reading a written
    shape back gives the shape.  [open_drawing] on the saved data of a
    drawing whose shapes have assigned ids yields these shapes with the
    connected endpoints re-resolved by [rebuild_connections]: exactly the
    saved shape sequence when no connector has a connection entry. *)
Theorem save_open_round_trip (cm cm0 : CanvasManager) :
  ids_assigned (shapes cm) →
  file_shapes (save_to_file cm).1 = Some (map to_dict (shapes cm)) ∧
  (∀ s, from_dict (to_dict s) = s ∧
        d_waypoints (to_dict s) = Some (waypoints s) ∧
        d_routing (to_dict s) = Some (routing s) ∧
        d_connections (to_dict s) = Some (connections s) ∧
        d_shape_id (to_dict s) = Some (shape_id s)) ∧
  shapes (open_drawing cm0 (save_to_file cm).1)
    = rebuild_connections (shapes cm) ∧
  (detached (shapes cm) →
     shapes (open_drawing cm0 (save_to_file cm).1) = shapes cm).
Proof.
  intros Hids.
  assert (shapes (open_drawing cm0 (save_to_file cm).1)
          = rebuild_connections (shapes cm)) as Hopen.
  { unfold open_drawing, save_to_file. simpl.
    rewrite add_shape_loaded by (by apply ids_assigned_to_dict).
    simpl. by rewrite map_from_dict_to_dict. }
  split_and!; [done| |done|].
  - intros s. by rewrite from_dict_to_dict.
  - intros Hd. rewrite Hopen. by apply rebuild_connections_detached.
Qed.

(** The two rectangles of the sample session, saved and opened again. *)
Lemma save_open_round_trip_witness :
  ids_assigned (shapes session_b) ∧
  shapes (open_drawing drawing4 (save_to_file session_b).1)
    = shapes session_b.
Proof.
  assert (ids_assigned (shapes session_b)) as H1
    by by_compute.
  destruct (save_open_round_trip session_b drawing4 H1) as (_ & _ & _ & Hd).
  split; [exact H1|]. apply Hd. by_compute.
Defined.

(* ====================================================================== *)
(** * Further properties *)
(* ====================================================================== *)

(** ** Router *)

Lemma ortho_step_snoc (routing : string) (acc : list Point)
    (prev curr : Point) :
  ortho_step routing (acc ++ [prev]) curr
  = (acc ++ [prev])
    ++ (if needs_bend prev curr then [bend routing prev curr] else [])
    ++ [curr].
Proof.
  unfold ortho_step, needs_bend, bend. rewrite last_snoc. cbv zeta.
  destruct (bool_decide (half < Qcabs (curr.1 - prev.1))%Qc);
    destruct (bool_decide (half < Qcabs (curr.2 - prev.2))%Qc);
    simpl; try by rewrite ?app_nil_r.
  destruct (bool_decide (routing = "v_first")); by rewrite <- app_assoc.
Qed.

Lemma ortho_fold_route (routing : string) (rest acc : list Point)
    (prev : Point) :
  foldl (ortho_step routing) (acc ++ [prev]) rest
  = acc ++ prev :: route_from routing prev rest.
Proof.
  revert acc prev. induction rest as [|curr rest IH]; intros acc prev; simpl.
  - done.
  - rewrite ortho_step_snoc.
    destruct (needs_bend prev curr); simpl.
    + replace ((acc ++ [prev]) ++ [bend routing prev curr; curr])
        with ((acc ++ [prev; bend routing prev curr]) ++ [curr])
        by (by rewrite <- !app_assoc).
      rewrite IH. by rewrite <- app_assoc.
    + rewrite IH. by rewrite <- app_assoc.
Qed.

(** [ortho_path] in closed form. *)
Lemma ortho_path_route (p0 : Point) (rest : list Point) (routing : string) :
  ortho_path (p0 :: rest) routing = p0 :: route_from routing p0 rest.
Proof.
  unfold ortho_path. case_bool_decide as Hlen.
  - destruct rest; [done|]. simpl in Hlen. lia.
  - apply (ortho_fold_route routing rest [] p0).
Qed.

Lemma route_from_sublist (routing : string) (rest : list Point) (prev : Point) :
  rest `sublist_of` route_from routing prev rest.
Proof.
  revert prev. induction rest as [|curr rest IH]; intros prev; simpl.
  - done.
  - destruct (needs_bend prev curr); simpl.
    + apply sublist_cons, sublist_skip, IH.
    + apply sublist_skip, IH.
Qed.

Lemma route_from_last (routing : string) (rest : list Point) (prev : Point) :
  last (prev :: route_from routing prev rest) = last (prev :: rest).
Proof.
  revert prev. induction rest as [|curr rest IH]; intros prev; [done|].
  simpl route_from. destruct (needs_bend prev curr); simpl app.
  - rewrite !last_cons_cons. rewrite IH. done.
  - rewrite !last_cons_cons. apply IH.
Qed.

Lemma route_from_length (routing : string) (rest : list Point) (prev : Point) :
  length (route_from routing prev rest) = length rest + bends_needed prev rest.
Proof.
  revert prev. induction rest as [|curr rest IH]; intros prev; [done|].
  simpl. destruct (needs_bend prev curr); simpl; rewrite IH; lia.
Qed.

Lemma needs_bend_aligned (p q : Point) :
  needs_bend p q = false ↔ axis_aligned p q.
Proof.
  unfold needs_bend, axis_aligned. rewrite andb_false_iff.
  rewrite !bool_decide_eq_false. split.
  - intros [H|H]; [left|right]; by apply Qcnot_lt_le.
  - intros [H|H]; [left|right]; by apply Qcle_not_lt.
Qed.

Lemma consecutive_aligned_cons_inv (p q : Point) (l : list Point) :
  consecutive_aligned (p :: q :: l) →
  axis_aligned p q ∧ consecutive_aligned (q :: l).
Proof.
  intros H. split.
  - by apply (H 0 p q).
  - intros i a b Ha Hb. by apply (H (S i) a b).
Qed.

Lemma route_from_aligned (routing : string) (rest : list Point) (prev : Point) :
  consecutive_aligned (prev :: rest) → route_from routing prev rest = rest.
Proof.
  revert prev. induction rest as [|curr rest IH]; intros prev Hal; [done|].
  apply consecutive_aligned_cons_inv in Hal as [Hpq Hal].
  simpl. apply needs_bend_aligned in Hpq. rewrite Hpq. simpl.
  by rewrite IH.
Qed.

Lemma ortho_path_consecutive_aligned (points : list Point) (routing : string) :
  consecutive_aligned (ortho_path points routing).
Proof.
  unfold ortho_path. case_bool_decide as Hlen.
  - destruct points as [|p [|q points]]; simpl in *; [| |lia].
    + intros i p q Hp. by rewrite lookup_nil in Hp.
    + intros i p' q Hp Hq. by destruct i.
  - destruct points as [|p0 rest]; simpl in *; [lia|].
    apply (ortho_fold_spec routing rest [p0]).
    intros i p' q Hp Hq. by destruct i.
Qed.

(** X1. The output of [ortho_path] starts with the first input point, ends
    with the last one and contains the input points in their order: the
    router only inserts points, it never moves or drops one. *)
Theorem ortho_path_keeps_input (points : list Point) (routing : string) :
  head (ortho_path points routing) = head points ∧
  last (ortho_path points routing) = last points ∧
  points `sublist_of` ortho_path points routing.
Proof.
  destruct points as [|p0 rest]; [done|].
  rewrite ortho_path_route. split_and!.
  - done.
  - apply route_from_last.
  - apply sublist_skip, route_from_sublist.
Qed.


(** X3. Routing a routed path again, in either routing mode, changes
    nothing. *)
Theorem ortho_path_idempotent (points : list Point) (routing routing' : string) :
  ortho_path (ortho_path points routing) routing' = ortho_path points routing.
Proof.
  pose proof (ortho_path_consecutive_aligned points routing) as Hal.
  destruct (ortho_path points routing) as [|p0 rest]; [done|].
  rewrite ortho_path_route. by rewrite route_from_aligned.
Qed.

(** ** Snapping *)

Lemma Qcsquare_nonneg (a : Qc) : (0 <= a * a)%Qc.
Proof.
  destruct (Qclt_le_dec a 0) as [Hneg|Hpos].
  - replace (a * a)%Qc with ((- a) * (- a))%Qc by ring.
    assert (0 <= - a)%Qc as Hna.
    { apply Qclt_le_weak in Hneg. apply Qcopp_le_compat in Hneg.
      by replace (- 0)%Qc with 0%Qc in Hneg by ring. }
    by apply Qcmult_nonneg_nonneg.
  - by apply Qcmult_nonneg_nonneg.
Qed.

Lemma dist2_nonneg (x y : Qc) (p : Point) : (0 <= dist2 x y p)%Qc.
Proof. apply Qcplus_nonneg_nonneg; apply Qcsquare_nonneg. Qed.

Lemma dist2_self (p : Point) : dist2 p.1 p.2 p = 0%Qc.
Proof. unfold dist2. ring. Qed.

Lemma Qcsquare_zero (a : Qc) : (a * a = 0)%Qc → a = 0%Qc.
Proof. intros H. by destruct (Qcmult_integral _ _ H). Qed.

Lemma dist2_zero (x y : Qc) (p : Point) : dist2 x y p = 0%Qc → p = (x, y).
Proof.
  unfold dist2. intros H.
  pose proof (Qcsquare_nonneg (x - p.1)) as H1.
  pose proof (Qcsquare_nonneg (y - p.2)) as H2.
  assert ((x - p.1) * (x - p.1) = 0)%Qc as Hx.
  { apply Qcle_lt_or_eq in H1 as [Hlt|Heq]; [|done].
    exfalso. pose proof (Qcplus_pos_nonneg _ _ Hlt H2) as Hpos.
    rewrite H in Hpos. by apply Qclt_not_eq in Hpos. }
  assert ((y - p.2) * (y - p.2) = 0)%Qc as Hy.
  { rewrite Hx, Qcplus_0_l in H. done. }
  apply Qcsquare_zero in Hx, Hy. destruct p as [px py]. simpl in *.
  f_equal.
  - replace px with (x - (x - px))%Qc by ring. rewrite Hx. ring.
  - replace py with (y - (y - py))%Qc by ring. rewrite Hy. ring.
Qed.

Lemma threshold2_pos : (0 < threshold2)%Qc.
Proof. by_compute. Qed.

Lemma get_snap_point_final (shapes : list Shape) (x y : Qc)
    (exclude_shape : option Shape) :
  get_snap_point shapes x y exclude_shape
  = (snap_x (snap_final shapes x y exclude_shape),
     snap_y (snap_final shapes x y exclude_shape),
     snap_shape (snap_final shapes x y exclude_shape)).
Proof. done. Qed.

Lemma snap_final_inv (shapes : list Shape) (x y : Qc)
    (exclude_shape : option Shape) :
  snap_inv x y (candidates shapes exclude_shape)
           (snap_final shapes x y exclude_shape).
Proof.
  unfold snap_final. rewrite snap_scan_candidates.
  apply (snap_fold_inv x y (candidates shapes exclude_shape) []).
  split; [by intros c ?%elem_of_nil|done].
Qed.

Lemma snap_final_candidates (shapes shapes' : list Shape) (x y : Qc)
    (ex ex' : option Shape) :
  candidates shapes ex = candidates shapes' ex' →
  snap_final shapes x y ex = snap_final shapes' x y ex'.
Proof.
  intros Heq. unfold snap_final. by rewrite !snap_scan_candidates, Heq.
Qed.

(** Excluding a connector changes nothing: connectors are skipped
    anyway. *)
Lemma candidates_exclude_line (shapes : list Shape) (line_shape : Shape) :
  is_line line_shape = true →
  candidates shapes (Some line_shape) = candidates shapes None.
Proof.
  intros Hline. unfold candidates.
  induction shapes as [|s shapes IH]; [done|]. simpl. rewrite IH. f_equal.
  destruct (decide (s = line_shape)) as [->|Hne].
  - rewrite Hline. by rewrite !orb_true_r.
  - by rewrite bool_decide_eq_false_2 by congruence.
Qed.

Lemma candidates_insert_line (shapes : list Shape) (i : nat) (s s' : Shape)
    (ex : option Shape) :
  shapes !! i = Some s → is_line s = true → is_line s' = true →
  candidates (<[i := s']> shapes) ex = candidates shapes ex.
Proof.
  revert i. induction shapes as [|a shapes IH]; intros i Hi Hs Hs'; [done|].
  destruct i as [|i]; simpl in *.
  - injection Hi as ->. unfold candidates. simpl.
    by rewrite Hs, Hs', !orb_true_r.
  - unfold candidates in *. simpl. f_equal. by apply IH.
Qed.

Lemma snap_pt_idempotent (shapes : list Shape) (p : Point) :
  snap_pt shapes (snap_pt shapes p) = snap_pt shapes p.
Proof.
  unfold snap_pt. rewrite !get_snap_point_final. simpl.
  pose proof (snap_final_inv shapes p.1 p.2 None) as [Hmin Hsh].
  set (st := snap_final shapes p.1 p.2 None) in *.
  destruct (snap_shape st) as [s|] eqn:Hs.
  - destruct Hsh as (Hin & _ & _).
    pose proof (snap_final_inv shapes (snap_x st) (snap_y st) None)
      as [Hmin' Hsh'].
    set (st' := snap_final shapes (snap_x st) (snap_y st) None) in *.
    pose proof (Hmin' _ Hin) as Hle. cbn [fst] in Hle.
    pose proof (dist2_self (snap_x st, snap_y st)) as Hself.
    cbn [fst snd] in Hself. rewrite Hself in Hle.
    destruct (snap_shape st') as [s'|].
    + destruct Hsh' as (_ & Heq & _). rewrite Heq in Hle.
      assert (dist2 (snap_x st) (snap_y st) (snap_x st', snap_y st') = 0%Qc)
        as Hz.
      { apply Qcle_antisym; [done|apply dist2_nonneg]. }
      by apply dist2_zero in Hz.
    + destruct Hsh' as (Heq & -> & ->). done.
  - destruct Hsh as (_ & Hx & Hy). destruct p as [x y]. simpl in *.
    rewrite Hx, Hy. fold st. by rewrite Hx, Hy.
Qed.

Lemma first_nearest_try (x y : Qc) (seen : list (Point * Shape))
    (st : SnapState) (c : Point * Shape) :
  first_nearest_inv x y seen st →
  first_nearest_inv x y (seen ++ [c]) (snap_try x y c.2 st c.1).
Proof.
  unfold first_nearest_inv, snap_try. intros Hinv.
  case_bool_decide as Hlt; simpl.
  - exists seen, []. split_and!.
    + by destruct c as [[??]?].
    + by destruct c as [[??]?].
    + eapply Qclt_le_trans; [exact Hlt|].
      destruct (snap_shape st).
      * destruct Hinv as (l1 & l2 & _ & _ & Hthr & _). by apply Qclt_le_weak.
      * destruct Hinv as [-> _]. apply Qcle_refl.
    + intros c' Hc'. destruct (snap_shape st).
      * destruct Hinv as (l1 & l2 & -> & Hd & _ & H1 & H2).
        eapply Qclt_le_trans; [exact Hlt|].
        apply elem_of_app in Hc' as [Hc'|Hc'].
        -- apply Qclt_le_weak. by apply H1.
        -- apply elem_of_cons in Hc' as [->|Hc']; [|by apply H2].
           simpl. rewrite Hd. apply Qcle_refl.
      * destruct Hinv as [Heq Hall]. eapply Qclt_le_trans; [exact Hlt|].
        rewrite Heq. by apply Hall.
    + by intros c' ?%elem_of_nil.
  - apply Qcnot_lt_le in Hlt. destruct (snap_shape st) as [s|].
    + destruct Hinv as (l1 & l2 & -> & Hd & Hthr & H1 & H2).
      exists l1, (l2 ++ [c]). split_and!; [|done..|].
      * by rewrite <- app_assoc.
      * intros c' [Hc'|Hc']%elem_of_app; [by apply H2|].
        apply list_elem_of_singleton in Hc'. by subst c'.
    + destruct Hinv as [Heq Hall]. split; [done|].
      intros c' [Hc'|Hc']%elem_of_app; [by apply Hall|].
      apply list_elem_of_singleton in Hc'. subst c'. by rewrite <- Heq.
Qed.

Lemma first_nearest_fold (x y : Qc) (l seen : list (Point * Shape))
    (st : SnapState) :
  first_nearest_inv x y seen st →
  first_nearest_inv x y (seen ++ l)
    (foldl (fun st c => snap_try x y c.2 st c.1) st l).
Proof.
  revert seen st. induction l as [|c l IH]; intros seen st Hinv; simpl.
  - by rewrite app_nil_r.
  - replace (seen ++ c :: l) with ((seen ++ [c]) ++ l)
      by (by rewrite <- app_assoc).
    apply IH. by apply first_nearest_try.
Qed.

Lemma snap_final_first_nearest (shapes : list Shape) (x y : Qc)
    (exclude_shape : option Shape) :
  first_nearest_inv x y (candidates shapes exclude_shape)
                    (snap_final shapes x y exclude_shape).
Proof.
  unfold snap_final. rewrite snap_scan_candidates.
  apply (first_nearest_fold x y (candidates shapes exclude_shape) []).
  split; [done|]. by intros c ?%elem_of_nil.
Qed.


Lemma first_occurrence_unique {A} (P : A → Prop) (l1 l1' l2 l2' : list A)
    (w w' : A) :
  l1 ++ w :: l2 = l1' ++ w' :: l2' →
  P w → P w' → (∀ c, c ∈ l1 → ¬ P c) → (∀ c, c ∈ l1' → ¬ P c) →
  w = w'.
Proof.
  revert l1'. induction l1 as [|a l1 IH]; intros l1' Heq Hw Hw' H1 H1'.
  - destruct l1' as [|a' l1']; simpl in Heq.
    + congruence.
    + injection Heq as -> _. exfalso. apply (H1' a'); [by left|done].
  - destruct l1' as [|a' l1']; simpl in Heq.
    + injection Heq as -> _. exfalso. apply (H1 w'); [by left|done].
    + injection Heq as -> Heq. apply (IH l1'); [done..| |].
      * intros c Hc. apply H1. by right.
      * intros c Hc. apply H1'. by right.
Qed.

(** X5. Snapping is idempotent: [get_snap_point] asked again at the point
    it returned gives the same point and the same shape. *)
Theorem get_snap_point_idempotent (shapes : list Shape) (x y : Qc)
    (exclude_shape : option Shape) :
  get_snap_point shapes
                 (get_snap_point shapes x y exclude_shape).1.1
                 (get_snap_point shapes x y exclude_shape).1.2
                 exclude_shape
  = get_snap_point shapes x y exclude_shape.
Proof.
  rewrite !get_snap_point_final. cbn [fst snd].
  pose proof (snap_final_first_nearest shapes x y exclude_shape) as Hinv.
  pose proof (snap_final_inv shapes x y exclude_shape) as [_ Hsh].
  set (st := snap_final shapes x y exclude_shape) in *.
  unfold first_nearest_inv in Hinv.
  destruct (snap_shape st) as [s|] eqn:Hs.
  - destruct Hinv as (l1 & l2 & Hc & Hd & _ & H1 & _).
    pose proof (snap_final_first_nearest shapes (snap_x st) (snap_y st)
                  exclude_shape) as Hinv'.
    set (st' := snap_final shapes (snap_x st) (snap_y st) exclude_shape) in *.
    unfold first_nearest_inv in Hinv'.
    pose proof (dist2_self (snap_x st, snap_y st)) as Hself.
    cbn [fst snd] in Hself.
    assert (((snap_x st, snap_y st), s) ∈ candidates shapes exclude_shape)
      as Hin.
    { rewrite Hc. apply elem_of_app. right. by left. }
    destruct (snap_shape st') as [s'|] eqn:Hs'.
    + destruct Hinv' as (l1' & l2' & Hc' & Hd' & _ & H1' & H2').
      assert (min_dist2 st' = 0%Qc) as Hzero.
      { apply Qcle_antisym; [|rewrite Hd'; apply dist2_nonneg].
        rewrite Hc' in Hin. apply elem_of_app in Hin as [Hin|Hin].
        - apply H1' in Hin. cbn [fst] in Hin. rewrite Hself in Hin.
          by apply Qclt_le_weak.
        - apply elem_of_cons in Hin as [Hin|Hin].
          + injection Hin as Hx Hy _. rewrite Hd', <- Hx, <- Hy, Hself.
            apply Qcle_refl.
          + apply H2' in Hin. cbn [fst] in Hin. by rewrite Hself in Hin. }
      rewrite Hzero in Hd'. symmetry in Hd'. apply dist2_zero in Hd'.
      injection Hd' as Hx Hy.
      assert (((snap_x st, snap_y st), s) = ((snap_x st', snap_y st'), s'))
        as Hw.
      { apply (first_occurrence_unique
                 (fun c => c.1 = (snap_x st, snap_y st))
                 l1 l1' l2 l2').
        - by rewrite <- Hc, <- Hc'.
        - done.
        - simpl. by rewrite Hx, Hy.
        - intros [cp cs] Hcin Hp. apply H1 in Hcin. simpl in Hp, Hcin.
          subst cp. rewrite <- Hd in Hcin. by apply Qclt_not_eq in Hcin.
        - intros [cp cs] Hcin Hp. apply H1' in Hcin. simpl in Hp, Hcin.
          subst cp. rewrite Hself, Hzero in Hcin.
          by apply Qclt_not_eq in Hcin. }
      injection Hw as _ _ Hss. by rewrite Hx, Hy, Hss.
    + destruct Hinv' as [_ Hall]. apply Hall in Hin. cbn [fst] in Hin.
      rewrite Hself in Hin. exfalso.
      apply (Qcle_not_lt _ _ Hin). apply threshold2_pos.
  - destruct Hsh as (_ & Hx & Hy). rewrite Hx, Hy. fold st.
    by rewrite Hs, Hx, Hy.
Qed.

(** ** Passes over the connectors *)

Lemma snap_pt_context (cur shapes : list Shape) (line_shape : Shape)
    (x y : Qc) :
  same_context cur shapes → is_line line_shape = true →
  (get_snap_point cur x y (Some line_shape)).1 = snap_pt shapes (x, y).
Proof.
  intros [_ Hc] Hline. unfold snap_pt. rewrite !get_snap_point_final.
  cbn [fst snd].
  rewrite (snap_final_candidates cur shapes x y (Some line_shape) None); [done|].
  by rewrite candidates_exclude_line.
Qed.

Lemma is_line_reline (shapes : list Shape) (active : Connection → bool)
    (s : Shape) (c : Connection) :
  is_line (reline shapes active s c) = is_line s.
Proof.
  unfold reline. destruct (active c); [|done]. by case_bool_decide.
Qed.

Lemma shape_id_reline (shapes : list Shape) (active : Connection → bool)
    (s : Shape) (c : Connection) :
  shape_id (reline shapes active s c) = shape_id s.
Proof.
  unfold reline. destruct (active c); [|done]. by case_bool_decide.
Qed.

Lemma connections_reline (shapes : list Shape) (active : Connection → bool)
    (s : Shape) (c : Connection) :
  connections (reline shapes active s c) = connections s.
Proof.
  unfold reline. destruct (active c); [|done]. by case_bool_decide.
Qed.

Lemma same_context_insert (cur shapes : list Shape) (i : nat) (s s' : Shape) :
  same_context cur shapes → cur !! i = Some s →
  shape_id s' = shape_id s → is_line s = true → is_line s' = true →
  same_context (<[i := s']> cur) shapes.
Proof.
  intros [Hids Hc] Hi Hid Hs Hs'. split.
  - rewrite <- Hids. change (map shape_id) with (fmap (M:=list) shape_id).
    rewrite list_fmap_insert, Hid. apply list_insert_id.
    by rewrite list_lookup_fmap, Hi.
  - rewrite <- Hc. by apply (candidates_insert_line cur i s s').
Qed.

Lemma resnap_reline (cur shapes : list Shape) (i : nat) (s target : Shape)
    (c : Connection) :
  same_context cur shapes → cur !! i = Some s → is_line s = true →
  resnap i target c cur = <[i := reline shapes (fun _ => true) s c]> cur.
Proof.
  intros Hctx Hi Hs. unfold resnap, reline, get_connection_point. rewrite Hi.
  case_bool_decide.
  - pose proof (snap_pt_context cur shapes s (x1 s) (y1 s) Hctx Hs) as Hp.
    destruct (get_snap_point cur (x1 s) (y1 s) (Some s)) as [[sx sy] o].
    simpl in Hp. by rewrite <- Hp.
  - pose proof (snap_pt_context cur shapes s (x2 s) (y2 s) Hctx Hs) as Hp.
    destruct (get_snap_point cur (x2 s) (y2 s) (Some s)) as [[sx sy] o].
    simpl in Hp. by rewrite <- Hp.
Qed.

Section connector_pass.
Context (shapes : list Shape) (active : Connection → bool).
Context (body : nat → list Shape → Connection → list Shape).
Context (step : list Shape → nat → list Shape).

Hypothesis body_spec : ∀ i cur s c,
  same_context cur shapes → cur !! i = Some s → is_line s = true →
  body i cur c = if active c then resnap i s c cur else cur.

Hypothesis step_spec : ∀ cur i,
  step cur i = match cur !! i with
               | None => cur
               | Some shape =>
                   if is_line shape
                   then foldl (body i) cur (connections shape)
                   else cur
               end.

Lemma pass_connections (cs : list Connection) (cur : list Shape) (i : nat)
    (s : Shape) :
  same_context cur shapes → cur !! i = Some s → is_line s = true →
  foldl (body i) cur cs = <[i := foldl (reline shapes active) s cs]> cur.
Proof.
  revert cur s. induction cs as [|c cs IH]; intros cur s Hctx Hi Hs; simpl.
  - by rewrite list_insert_id.
  - rewrite (body_spec i cur s c Hctx Hi Hs).
    unfold reline at 2. destruct (active c) eqn:Hact.
    + rewrite (resnap_reline cur shapes i s s c Hctx Hi Hs).
      set (s' := reline shapes (fun _ => true) s c).
      assert (is_line s' = true) as Hs' by (by unfold s'; rewrite is_line_reline).
      rewrite (IH _ s').
      * rewrite list_insert_insert_eq. unfold s', reline. done.
      * apply (same_context_insert cur shapes i s s'); try done.
        apply shape_id_reline.
      * apply list_lookup_insert_eq. by eapply lookup_lt_Some.
      * done.
    + by apply IH.
Qed.

Lemma pass_shape (cur : list Shape) (i : nat) (s : Shape) :
  same_context cur shapes → cur !! i = Some s →
  step cur i = <[i := relined shapes active s]> cur.
Proof.
  intros Hctx Hi. rewrite step_spec, Hi. unfold relined.
  destruct (is_line s) eqn:Hs.
  - by apply pass_connections.
  - by rewrite list_insert_id.
Qed.

Lemma relined_same_context (cur : list Shape) (i : nat) (s : Shape) :
  same_context cur shapes → cur !! i = Some s →
  same_context (<[i := relined shapes active s]> cur) shapes.
Proof.
  intros Hctx Hi. unfold relined. destruct (is_line s) eqn:Hs.
  - apply (same_context_insert cur shapes i s); try done.
    + generalize (connections s). intros cs. revert s Hi Hs.
      induction cs as [|c cs IH] using rev_ind; intros s Hi Hs; [done|].
      rewrite foldl_app. simpl. rewrite shape_id_reline. by apply IH.
    + generalize (connections s). intros cs. revert s Hi Hs.
      induction cs as [|c cs IH] using rev_ind; intros s Hi Hs; [done|].
      rewrite foldl_app. simpl. rewrite is_line_reline. by apply IH.
  - by rewrite list_insert_id.
Qed.

Lemma pass_prefix (n k : nat) (cur : list Shape) :
  k + n ≤ length shapes → same_context cur shapes →
  cur = map (relined shapes active) (take k shapes) ++ drop k shapes →
  foldl step cur (seq k n)
  = map (relined shapes active) (take (k + n) shapes)
    ++ drop (k + n) shapes.
Proof.
  revert k cur. induction n as [|n IH]; intros k cur Hlen Hctx Hcur.
  - simpl. by rewrite Nat.add_0_r.
  - simpl. destruct (shapes !! k) as [s|] eqn:Hk;
      [|apply lookup_ge_None in Hk; lia].
    assert (cur !! k = Some s) as Hi.
    { rewrite Hcur. rewrite lookup_app_r by (rewrite length_map, length_take; lia).
      rewrite length_map, length_take_le by lia.
      rewrite Nat.sub_diag, lookup_drop, Nat.add_0_r. done. }
    rewrite (pass_shape cur k s Hctx Hi).
    replace (k + S n) with (S k + n) by lia. apply IH; [lia| |].
    + by apply relined_same_context.
    + rewrite Hcur. rewrite (take_S_r _ _ _ Hk), map_app. simpl.
      rewrite <- app_assoc. simpl.
      rewrite (drop_S _ _ _ Hk).
      replace k with (length (map (relined shapes active) (take k shapes)) + 0)
        at 1 by (rewrite length_map, length_take_le; lia).
      by rewrite insert_app_r.
Qed.

Lemma pass_all :
  foldl step shapes (seq 0 (length shapes))
  = map (relined shapes active) shapes.
Proof.
  rewrite (pass_prefix (length shapes) 0 shapes); [|lia|done|done].
  simpl. rewrite take_ge, drop_ge by lia. by rewrite app_nil_r.
Qed.
End connector_pass.

Lemma find_by_id_has_id (cur : list Shape) (i : Z) :
  is_Some (find_by_id cur i) ↔ has_id cur i = true.
Proof.
  unfold find_by_id, has_id. rewrite bool_decide_eq_true. split.
  - intros [t Ht]. apply find_some in Ht as [Hin Hid].
    apply bool_decide_eq_true in Hid. subst i.
    apply list_elem_of_fmap_2. by apply list_elem_of_In.
  - intros Hin. apply list_elem_of_fmap in Hin as (t & -> & Ht).
    destruct (find _ cur) as [t'|] eqn:Hf; [by eexists|].
    apply list_elem_of_In in Ht.
    pose proof (find_none _ _ Hf t Ht) as Hno. simpl in Hno.
    by rewrite bool_decide_eq_true_2 in Hno.
Qed.

Lemma rebuild_connections_map (shapes : list Shape) :
  rebuild_connections shapes
  = map (relined shapes (resolvable shapes)) shapes.
Proof.
  apply (pass_all shapes (resolvable shapes) rebuild_conn rebuild_shape).
  - intros i cur s c [Hids Hc] Hi Hs. unfold rebuild_conn, resolvable.
    pose proof (find_by_id_has_id cur (target_id c)) as Hfind.
    assert (has_id cur (target_id c) = has_id shapes (target_id c)) as Hsame
      by (by unfold has_id; rewrite Hids).
    rewrite <- Hsame.
    destruct (find_by_id cur (target_id c)) as [t|].
    + by rewrite (proj1 Hfind).
    + destruct (has_id cur (target_id c)); [|done].
      by destruct (proj2 Hfind eq_refl).
  - done.
Qed.

Lemma update_connected_lines_map (shapes : list Shape) (moved_shape : Shape) :
  update_connected_lines shapes moved_shape
  = map (relined shapes (targets moved_shape)) shapes.
Proof.
  apply (pass_all shapes (targets moved_shape) (update_conn moved_shape)
                  (update_shape moved_shape)).
  - intros i cur s c _ _ _. done.
  - done.
Qed.

(** What a pass leaves alone. *)

Lemma reline_endpoints (shapes : list Shape) (active : Connection → bool)
    (s : Shape) (c : Connection) (p q : Point) :
  set_end (set_start (reline shapes active s c) p) q
  = set_end (set_start s p) q.
Proof.
  unfold reline. destruct (active c); [|done]. by case_bool_decide.
Qed.

Lemma foldl_reline_endpoints (shapes : list Shape)
    (active : Connection → bool) (cs : list Connection) (s : Shape) :
  foldl (reline shapes active) s cs
  = set_end (set_start s (start_pt (foldl (reline shapes active) s cs)))
            (end_pt (foldl (reline shapes active) s cs)).
Proof.
  revert s. induction cs as [|c cs IH]; intros s; simpl; [by destruct s|].
  rewrite (IH (reline shapes active s c)) at 1. apply reline_endpoints.
Qed.

Lemma foldl_reline_start (shapes : list Shape) (active : Connection → bool)
    (cs : list Connection) (s : Shape) :
  moves_start active cs = false →
  start_pt (foldl (reline shapes active) s cs) = start_pt s.
Proof.
  revert s. induction cs as [|c cs IH]; intros s Hno; [done|].
  simpl in *. apply orb_false_iff in Hno as [Hc Hno].
  rewrite IH by done. unfold reline.
  destruct (active c); [|done]. simpl in Hc.
  by rewrite Hc.
Qed.

Lemma foldl_reline_end (shapes : list Shape) (active : Connection → bool)
    (cs : list Connection) (s : Shape) :
  moves_end active cs = false →
  end_pt (foldl (reline shapes active) s cs) = end_pt s.
Proof.
  revert s. induction cs as [|c cs IH]; intros s Hno; [done|].
  simpl in *. apply orb_false_iff in Hno as [Hc Hno].
  rewrite IH by done. unfold reline.
  destruct (active c); [|done]. simpl in Hc.
  apply negb_false_iff in Hc. by rewrite Hc.
Qed.

Lemma foldl_reline_connections (shapes : list Shape)
    (active : Connection → bool) (cs : list Connection) (s : Shape) :
  connections (foldl (reline shapes active) s cs) = connections s ∧
  is_line (foldl (reline shapes active) s cs) = is_line s ∧
  shape_id (foldl (reline shapes active) s cs) = shape_id s.
Proof.
  revert s. induction cs as [|c cs IH]; intros s; [done|]. simpl.
  destruct (IH (reline shapes active s c)) as (-> & -> & ->).
  by rewrite connections_reline, is_line_reline, shape_id_reline.
Qed.

Lemma start_pt_set_start (s : Shape) (p : Point) :
  start_pt (set_start s p) = p.
Proof. by destruct p. Qed.

Lemma end_pt_set_end (s : Shape) (p : Point) : end_pt (set_end s p) = p.
Proof. by destruct p. Qed.

(** After the entries have been applied, an endpoint that some active
    entry names rests on a fixed point of snapping. *)
Lemma foldl_reline_start_fixed (shapes : list Shape)
    (active : Connection → bool) (cs : list Connection) (s : Shape) :
  moves_start active cs = true →
  snap_pt shapes (start_pt (foldl (reline shapes active) s cs))
  = start_pt (foldl (reline shapes active) s cs).
Proof.
  revert s. induction cs as [|c cs IH]; intros s Hmv; [done|].
  simpl in *. destruct (moves_start active cs) eqn:Hrest.
  - by apply IH.
  - rewrite orb_false_r in Hmv. apply andb_true_iff in Hmv as [Ha He].
    rewrite !foldl_reline_start by done.
    unfold reline. rewrite Ha, He. rewrite start_pt_set_start.
    apply snap_pt_idempotent.
Qed.

Lemma foldl_reline_end_fixed (shapes : list Shape)
    (active : Connection → bool) (cs : list Connection) (s : Shape) :
  moves_end active cs = true →
  snap_pt shapes (end_pt (foldl (reline shapes active) s cs))
  = end_pt (foldl (reline shapes active) s cs).
Proof.
  revert s. induction cs as [|c cs IH]; intros s Hmv; [done|].
  simpl in *. destruct (moves_end active cs) eqn:Hrest.
  - by apply IH.
  - rewrite orb_false_r in Hmv. apply andb_true_iff in Hmv as [Ha He].
    apply negb_true_iff in He.
    rewrite !foldl_reline_end by done.
    unfold reline. rewrite Ha, He. rewrite end_pt_set_end.
    apply snap_pt_idempotent.
Qed.

Lemma foldl_reline_fixed (shapes : list Shape) (active : Connection → bool)
    (cs : list Connection) (s : Shape) :
  (moves_start active cs = true → snap_pt shapes (start_pt s) = start_pt s) →
  (moves_end active cs = true → snap_pt shapes (end_pt s) = end_pt s) →
  foldl (reline shapes active) s cs = s.
Proof.
  induction cs as [|c cs IH]; intros Hs He; [done|]. simpl in *.
  assert (reline shapes active s c = s) as Hstep.
  { unfold reline. destruct (active c) eqn:Ha; [|done].
    case_bool_decide as Hep.
    - fold (start_pt s). rewrite Hs; [by destruct s|done].
    - fold (end_pt s). rewrite He; [by destruct s|done]. }
  rewrite Hstep. apply IH.
  - intros Hm. apply Hs. by rewrite Hm, orb_true_r.
  - intros Hm. apply He. by rewrite Hm, orb_true_r.
Qed.

Lemma relined_idempotent (shapes : list Shape) (active : Connection → bool)
    (s : Shape) :
  relined shapes active (relined shapes active s) = relined shapes active s.
Proof.
  unfold relined. destruct (is_line s) eqn:Hs; [|by rewrite Hs].
  destruct (foldl_reline_connections shapes active (connections s) s)
    as (Hc & Hl & _).
  rewrite Hl, Hs, Hc. apply foldl_reline_fixed.
  - apply foldl_reline_start_fixed.
  - apply foldl_reline_end_fixed.
Qed.

Lemma relined_context (cur shapes : list Shape) (active : Connection → bool)
    (s : Shape) :
  same_context cur shapes → relined cur active s = relined shapes active s.
Proof.
  intros [_ Hc]. unfold relined. destruct (is_line s); [|done].
  assert (∀ p, snap_pt cur p = snap_pt shapes p) as Hsnap.
  { intros p. unfold snap_pt. rewrite !get_snap_point_final. cbn [fst snd].
    by rewrite (snap_final_candidates cur shapes p.1 p.2 None None). }
  generalize (connections s). intros cs. revert s.
  induction cs as [|c cs IH]; intros s; [done|]. simpl.
  rewrite IH. f_equal. unfold reline. by rewrite !Hsnap.
Qed.

Lemma candidates_relined (ctx shapes : list Shape)
    (active : Connection → bool) (ex : option Shape) :
  candidates (map (relined ctx active) shapes) ex = candidates shapes ex.
Proof.
  induction shapes as [|s l IH]; [done|].
  unfold candidates in *. simpl. rewrite IH. f_equal.
  unfold relined. destruct (is_line s) eqn:Hs; [|by rewrite Hs].
  destruct (foldl_reline_connections ctx active (connections s) s)
    as (_ & -> & _).
  by rewrite Hs, !orb_true_r.
Qed.

Lemma same_context_relined (shapes : list Shape) (active : Connection → bool) :
  same_context (map (relined shapes active) shapes) shapes.
Proof.
  split.
  - rewrite map_map. apply map_ext. intros s. unfold relined.
    destruct (is_line s); [|done].
    by destruct (foldl_reline_connections shapes active (connections s) s)
      as (_ & _ & ->).
  - apply candidates_relined.
Qed.

Lemma relined_resnapped (shapes : list Shape) (active : Connection → bool)
    (s : Shape) :
  resnapped shapes active s (relined shapes active s).
Proof.
  unfold resnapped, relined. destruct (is_line s) eqn:Hs.
  - split_and!; try done.
    + apply foldl_reline_endpoints.
    + apply foldl_reline_start.
    + apply foldl_reline_end.
    + intros _. apply foldl_reline_start_fixed.
    + intros _. apply foldl_reline_end_fixed.
  - split_and!; try done. by destruct s.
Qed.

Lemma relined_ext (shapes : list Shape) (active active' : Connection → bool)
    (s : Shape) :
  (∀ c, active c = active' c) →
  relined shapes active s = relined shapes active' s.
Proof.
  intros Hext. unfold relined. destruct (is_line s); [|done].
  generalize (connections s). intros cs. revert s.
  induction cs as [|c cs IH]; intros s; [done|]. simpl.
  rewrite IH. f_equal. unfold reline. by rewrite Hext.
Qed.

Lemma map_relined_idempotent (shapes : list Shape)
    (active active' : Connection → bool) :
  (∀ c, active' c = active c) →
  map (relined (map (relined shapes active) shapes) active')
      (map (relined shapes active) shapes)
  = map (relined shapes active) shapes.
Proof.
  intros Hext. rewrite map_map. apply map_ext. intros s.
  rewrite (relined_context _ shapes) by apply same_context_relined.
  rewrite (relined_ext shapes active' active) by done.
  apply relined_idempotent.
Qed.

Lemma relined_inactive (shapes : list Shape) (active : Connection → bool)
    (s : Shape) :
  (∀ c, c ∈ connections s → active c = false) →
  relined shapes active s = s.
Proof.
  unfold relined. destruct (is_line s); [|done].
  generalize (connections s). intros cs. revert s.
  induction cs as [|c cs IH]; intros s Hcs; [done|]. simpl.
  unfold reline at 2. rewrite (Hcs c) by by left.
  apply IH. intros c' Hc'. apply Hcs. by right.
Qed.

(** X6. [rebuild_connections] treats every shape on its own, whatever the
    order of the drawing: the shape at each position keeps everything but
    its two endpoints, a shape that is not a connector is untouched, an
    endpoint moves only if some connection entry for it has a target id
    that is present in the drawing (entries with a target that is gone
    are skipped), and an endpoint that moved rests where snapping it again
    changes nothing. *)
Theorem rebuild_connections_local (shapes : list Shape) (i : nat) (s : Shape) :
  shapes !! i = Some s →
  length (rebuild_connections shapes) = length shapes ∧
  ∃ s', rebuild_connections shapes !! i = Some s' ∧
        resnapped shapes (resolvable shapes) s s'.
Proof.
  intros Hi. rewrite rebuild_connections_map. split; [apply length_map|].
  exists (relined shapes (resolvable shapes) s). split.
  - change (map ?f ?l) with (f <$> l). by rewrite list_lookup_fmap, Hi.
  - apply relined_resnapped.
Qed.

(** The pass on [drawing5], at the position of [line5]. *)
Lemma rebuild_connections_local_witness :
  drawing5 !! 1 = Some line5 ∧
  length (rebuild_connections drawing5) = length drawing5 ∧
  ∃ s', rebuild_connections drawing5 !! 1 = Some s' ∧
        resnapped drawing5 (resolvable drawing5) line5 s'.
Proof.
  split; [reflexivity|].
  apply (rebuild_connections_local drawing5 1 line5). reflexivity.
Defined.

(** On [drawing5] the connected end of [line5] moves onto the corner of
    [rect1]; the line whose target is gone stays where it is. *)
Example rebuild_connections_drawing5 :
  rebuild_connections drawing5
  = [rect1; set_end line5 (Qcz 10, Qcz 10); line6].
Proof. by_compute. Qed.

(** X7. [rebuild_connections] is idempotent: a second pass changes
    nothing. *)
Theorem rebuild_connections_idempotent (shapes : list Shape) :
  rebuild_connections (rebuild_connections shapes)
  = rebuild_connections shapes.
Proof.
  rewrite (rebuild_connections_map shapes).
  rewrite rebuild_connections_map.
  apply (map_relined_idempotent shapes (resolvable shapes)).
  intros c. unfold resolvable at 1. unfold has_id.
  destruct (same_context_relined shapes (resolvable shapes)) as [-> _].
  done.
Qed.

(** X8. [update_connected_lines] changes at most the endpoints of the
    connectors that have a connection entry for the id of the moved
    shape: every other shape is untouched, an endpoint moves only if an
    entry with that target id names it, the drawing is unchanged when no
    entry has that target id, and a second call changes nothing. *)
Theorem update_connected_lines_local (shapes : list Shape)
    (moved_shape : Shape) (i : nat) (s : Shape) :
  shapes !! i = Some s →
  length (update_connected_lines shapes moved_shape) = length shapes ∧
  (∃ s', update_connected_lines shapes moved_shape !! i = Some s' ∧
         resnapped shapes (targets moved_shape) s s') ∧
  (Forall (fun s => Forall (fun c => target_id c ≠ shape_id moved_shape)
                           (connections s)) shapes →
   update_connected_lines shapes moved_shape = shapes) ∧
  update_connected_lines (update_connected_lines shapes moved_shape)
                         moved_shape
  = update_connected_lines shapes moved_shape.
Proof.
  intros Hi. rewrite !update_connected_lines_map. split_and!.
  - apply length_map.
  - exists (relined shapes (targets moved_shape) s). split.
    + change (map ?f ?l) with (f <$> l). by rewrite list_lookup_fmap, Hi.
    + apply relined_resnapped.
  - intros Hall. transitivity (map id shapes); [|apply map_id].
    apply map_ext_in.
    intros b Hb%list_elem_of_In. rewrite Forall_forall in Hall.
    apply relined_inactive. intros c Hc. unfold targets.
    apply bool_decide_eq_false_2.
    pose proof (Hall b Hb) as Hcs. rewrite Forall_forall in Hcs.
    by apply Hcs.
  - by apply map_relined_idempotent.
Qed.

(** Moving [rect1] in [drawing5]: only [line5] refers to it. *)
Lemma update_connected_lines_local_witness :
  drawing5 !! 2 = Some line6 ∧
  ∃ s', update_connected_lines drawing5 rect1 !! 2 = Some s' ∧
        resnapped drawing5 (targets rect1) line6 s'.
Proof.
  split; [reflexivity|].
  destruct (update_connected_lines_local drawing5 rect1 2 line6)
    as (_ & H & _); [reflexivity|exact H].
Defined.

(** ** Shapes *)

Lemma py_min_spec (a b : Qc) :
  (py_min a b <= a)%Qc ∧ (py_min a b <= b)%Qc ∧
  (py_min a b = a ∨ py_min a b = b).
Proof.
  unfold py_min. case_bool_decide as H.
  - split_and!; [by apply Qclt_le_weak|apply Qcle_refl|by right].
  - split_and!; [apply Qcle_refl|by apply Qcnot_lt_le|by left].
Qed.

Lemma py_max_spec (a b : Qc) :
  (a <= py_max a b)%Qc ∧ (b <= py_max a b)%Qc ∧
  (py_max a b = a ∨ py_max a b = b).
Proof.
  unfold py_max. case_bool_decide as H.
  - split_and!; [by apply Qclt_le_weak|apply Qcle_refl|by right].
  - split_and!; [apply Qcle_refl|by apply Qcnot_lt_le|by left].
Qed.

Lemma py_min_comm (a b : Qc) : py_min a b = py_min b a.
Proof.
  unfold py_min. repeat case_bool_decide; try done.
  - exfalso. eapply Qclt_not_le; [eassumption|]. by apply Qclt_le_weak.
  - apply Qcle_antisym; by apply Qcnot_lt_le.
Qed.

Lemma py_max_comm (a b : Qc) : py_max a b = py_max b a.
Proof.
  unfold py_max. repeat case_bool_decide; try done.
  - exfalso. eapply Qclt_not_le; [eassumption|]. by apply Qclt_le_weak.
  - apply Qcle_antisym; by apply Qcnot_lt_le.
Qed.

(** X9. [get_bounds] returns a box [(min_x, min_y, max_x, max_y)] whose
    sides are coordinates of the shape, that contains both corners, and
    that does not depend on which corner is the first. *)
Theorem get_bounds_box (s : Shape) :
  let '(min_x, min_y, max_x, max_y) := get_bounds s in
  (min_x <= x1 s <= max_x)%Qc ∧ (min_x <= x2 s <= max_x)%Qc ∧
  (min_y <= y1 s <= max_y)%Qc ∧ (min_y <= y2 s <= max_y)%Qc ∧
  (min_x = x1 s ∨ min_x = x2 s) ∧ (max_x = x1 s ∨ max_x = x2 s) ∧
  (min_y = y1 s ∨ min_y = y2 s) ∧ (max_y = y1 s ∨ max_y = y2 s) ∧
  get_bounds (swap_corners s) = (min_x, min_y, max_x, max_y).
Proof.
  unfold get_bounds.
  destruct (py_min_spec (x1 s) (x2 s)) as (? & ? & ?).
  destruct (py_max_spec (x1 s) (x2 s)) as (? & ? & ?).
  destruct (py_min_spec (y1 s) (y2 s)) as (? & ? & ?).
  destruct (py_max_spec (y1 s) (y2 s)) as (? & ? & ?).
  split_and!; try done.
  unfold swap_corners. simpl.
  by rewrite (py_min_comm (x2 s)), (py_min_comm (y2 s)),
             (py_max_comm (x2 s)), (py_max_comm (y2 s)).
Qed.

Lemma to_dict_from_dict_complete (d : ShapeDict) :
  complete d → to_dict (from_dict d) = d.
Proof.
  destruct d. unfold complete. simpl.
  intros ([? ->] & [? ->] & [? ->] & [? ->] & [? ->] & [? ->] & [? ->]
          & [? ->] & [? ->] & [? ->] & [? ->] & [? ->] & [? ->] & [? ->]
          & [? ->]).
  done.
Qed.

(** X10. [from_dict] undoes [to_dict]. In the other direction, reading a
    dictionary and writing it again gives the dictionary back exactly when
    it has every key; the result always has every key and carries the
    seven required fields of the dictionary read. *)
Theorem dict_round_trip (d : ShapeDict) :
  (∀ s, from_dict (to_dict s) = s) ∧
  (to_dict (from_dict d) = d ↔ complete d) ∧
  complete (to_dict (from_dict d)) ∧
  (d_x1 (to_dict (from_dict d)), d_y1 (to_dict (from_dict d)),
   d_x2 (to_dict (from_dict d)), d_y2 (to_dict (from_dict d)),
   d_color (to_dict (from_dict d)), d_width (to_dict (from_dict d)),
   d_shape_type (to_dict (from_dict d)))
  = (d_x1 d, d_y1 d, d_x2 d, d_y2 d, d_color d, d_width d, d_shape_type d).
Proof.
  assert (complete (to_dict (from_dict d))) as Hc.
  { unfold complete. simpl. split_and!; by eexists. }
  split_and!; [apply from_dict_to_dict| |exact Hc|done].
  split.
  - intros <-. exact Hc.
  - apply to_dict_from_dict_complete.
Qed.

Lemma copy_moved (s : Shape) : moved_copy 20 s (copy s).
Proof. reflexivity. Qed.

Lemma paste_shape_eq (cm : CanvasManager) (c : Shape) :
  clipboard cm = Some c →
  paste_shape cm
  = record_state
      (set_shapes (set_next_shape_id cm (next_shape_id cm + 1)%Z)
                  (shapes cm ++ [set_shape_id (copy c) (next_shape_id cm)])).
Proof. intros Hc. unfold paste_shape. rewrite Hc. reflexivity. Qed.

(** X11. Copy followed by paste appends one shape.  The clipboard holds
    the selected shape moved by (20, 20) and detached; the shape pasted is
    the clipboard's moved by (20, 20) once more, so 20 at the copy and 20
    more at the paste, with every other field (colour, width, fill, text,
    font, label and its offsets, routing, type) as in the selected shape,
    without connections, under the next free id.  A second paste appends
    the same shape again, at the same place, under the id after that. *)
Theorem copy_paste_offset (cm : CanvasManager) (s : Shape) :
  selected_shape cm = Some s →
  ∃ c p, moved_copy 20 s c ∧ moved_copy 20 c p ∧
         clipboard (copy_shape cm) = Some c ∧
         shapes (paste_shape (copy_shape cm))
           = shapes cm ++ [set_shape_id p (next_shape_id cm)] ∧
         shapes (paste_shape (paste_shape (copy_shape cm)))
           = shapes cm ++ [set_shape_id p (next_shape_id cm);
                           set_shape_id p (next_shape_id cm + 1)%Z] ∧
         next_shape_id (paste_shape (paste_shape (copy_shape cm)))
           = (next_shape_id cm + 2)%Z.
Proof.
  intros Hsel. exists (copy s), (copy (copy s)).
  split; [apply copy_moved|]. split; [apply copy_moved|].
  unfold copy_shape. rewrite Hsel.
  rewrite (paste_shape_eq _ (copy s)) by reflexivity.
  rewrite (paste_shape_eq _ (copy s)) by reflexivity.
  cbn [shapes next_shape_id set_shapes set_next_shape_id set_clipboard
       clipboard record_state set_modified set_redo_stack set_undo_stack].
  split_and!.
  - reflexivity.
  - reflexivity.
  - rewrite <- app_assoc. reflexivity.
  - lia.
Qed.

(** Copy and paste of the rectangle selected in the sample session. *)
Lemma copy_paste_offset_witness :
  selected_shape (set_selected_shape session_a (Some rect1)) = Some rect1 ∧
  ∃ c p, moved_copy 20 rect1 c ∧ moved_copy 20 c p ∧
         shapes (paste_shape (copy_shape
                   (set_selected_shape session_a (Some rect1))))
           = [rect1; set_shape_id p 2%Z].
Proof.
  split; [reflexivity|].
  destruct (copy_paste_offset (set_selected_shape session_a (Some rect1))
              rect1 eq_refl) as (c & p & Hc & Hp & _ & Hs & _).
  exists c, p. split; [exact Hc|]. split; [exact Hp|exact Hs].
Defined.

(** ** History *)

Lemma add_shape_loaded_stacks (ds : list ShapeDict) (cm : CanvasManager) :
  let cm' := foldl (fun cm shape_data =>
                      add_shape cm (from_dict shape_data) false) cm ds in
  undo_stack cm' = undo_stack cm ∧ redo_stack cm' = redo_stack cm ∧
  clipboard cm' = clipboard cm ∧ modified cm' = modified cm ∧
  selected_shape cm' = selected_shape cm.
Proof.
  revert cm. induction ds as [|d ds IH]; intros cm; [done|]. simpl.
  destruct (IH (add_shape cm (from_dict d) false)) as (-> & -> & -> & -> & ->).
  unfold add_shape. by case_bool_decide.
Qed.

(** [restore_state] leaves the two stacks alone, whatever the snapshot. *)
Lemma restore_state_stacks (cm : CanvasManager) (state : Snapshot) :
  undo_stack (restore_state cm state) = undo_stack cm ∧
  redo_stack (restore_state cm state) = redo_stack cm.
Proof.
  unfold restore_state.
  destruct (add_shape_loaded_stacks (snap_shapes state)
              (set_next_shape_id (clear_all cm false) (snap_next_id state)))
    as (Hu & Hr & _).
  cbn zeta in Hu, Hr. cbn [undo_stack redo_stack set_shapes].
  by rewrite Hu, Hr.
Qed.

Lemma undo_top (cm : CanvasManager) (u : list Snapshot) (l : list Shape)
    (n : Z) :
  undo_stack cm = u ++ [{| snap_shapes := map to_dict l; snap_next_id := n |}] →
  ids_assigned l →
  shapes (undo cm) = rebuild_connections l ∧ next_shape_id (undo cm) = n ∧
  undo_stack (undo cm) = u ∧
  redo_stack (undo cm) = redo_stack cm ++ [current_state cm].
Proof.
  intros Hu Hl. rewrite (undo_eq cm u _ Hu).
  rewrite restore_state_eq by (by apply ids_assigned_to_dict).
  cbn [shapes next_shape_id undo_stack redo_stack snap_shapes snap_next_id
       set_undo_stack set_redo_stack].
  by rewrite map_from_dict_to_dict.
Qed.

Lemma redo_top (cm : CanvasManager) (r : list Snapshot) (l : list Shape)
    (n : Z) :
  redo_stack cm = r ++ [{| snap_shapes := map to_dict l; snap_next_id := n |}] →
  ids_assigned l →
  shapes (redo cm) = rebuild_connections l ∧ next_shape_id (redo cm) = n ∧
  redo_stack (redo cm) = r ∧
  undo_stack (redo cm) = undo_stack cm ++ [current_state cm].
Proof.
  intros Hr Hl. rewrite (redo_eq cm r _ Hr).
  rewrite restore_state_eq by (by apply ids_assigned_to_dict).
  cbn [shapes next_shape_id undo_stack redo_stack snap_shapes snap_next_id
       set_undo_stack set_redo_stack].
  by rewrite map_from_dict_to_dict.
Qed.

(** The stack after [record_state] ends with the state recorded. *)
Lemma record_state_top (cm : CanvasManager) :
  ∃ u, undo_stack (record_state cm) = u ++ [current_state cm].
Proof. apply last_Some, last_record_state. Qed.

Lemma ids_assigned_detach (i : Z) (l : list Shape) :
  ids_assigned l → ids_assigned (map (detach i) l).
Proof.
  intros Hl. apply (Forall_fmap (detach i) (fun s => shape_id s ≠ 0%Z)).
  eapply Forall_impl; [exact Hl|]. done.
Qed.

Lemma ids_assigned_list_remove (x : Shape) (l : list Shape) :
  ids_assigned l → ids_assigned (list_remove x l).
Proof.
  intros Hl. unfold ids_assigned in *. rewrite Forall_forall in *.
  intros s Hs. apply Hl. eapply elem_of_sublist; [exact Hs|].
  apply list_remove_sublist.
Qed.

(** X12. One [undo] reverts a deletion: after [delete_shape] of a member,
    [undo] brings back the shape sequence (passed through
    [rebuild_connections]) and the id counter from before the deletion,
    and the [redo] that follows deletes the shape again. *)
Theorem delete_shape_undone (cm : CanvasManager) (shape : Shape) :
  ids_assigned (shapes cm) → shape ∈ shapes cm →
  restores (undo (delete_shape cm shape)) cm ∧
  restores (redo (undo (delete_shape cm shape))) (delete_shape cm shape) ∧
  (detached (shapes cm) → shapes (undo (delete_shape cm shape)) = shapes cm).
Proof.
  intros Hids Hin.
  destruct (record_state_top cm) as [u Hu].
  assert (undo_stack (delete_shape cm shape) = u ++ [current_state cm]) as Hu'.
  { unfold delete_shape. by rewrite bool_decide_eq_true_2. }
  destruct (undo_top (delete_shape cm shape) u (shapes cm) (next_shape_id cm)
              Hu' Hids) as (Hs & Hn & _ & Hr).
  assert (redo_stack (delete_shape cm shape) = []) as Hr0.
  { unfold delete_shape. by rewrite bool_decide_eq_true_2. }
  rewrite Hr0 in Hr.
  assert (ids_assigned (shapes (delete_shape cm shape))) as Hids'.
  { unfold delete_shape. rewrite bool_decide_eq_true_2 by done.
    cbn [shapes clear_selection set_selected_shape set_shapes].
    apply ids_assigned_list_remove. cbn [shapes record_state set_modified
      set_redo_stack set_undo_stack]. by apply ids_assigned_detach. }
  destruct (redo_top (undo (delete_shape cm shape)) []
              (shapes (delete_shape cm shape))
              (next_shape_id (delete_shape cm shape)) Hr Hids')
    as (Hs2 & Hn2 & _).
  split_and!; [by split|by split|].
  intros Hd. rewrite Hs. by apply rebuild_connections_detached.
Qed.

(** Deleting the pasted rectangle of the sample session and undoing it. *)
Lemma delete_shape_undone_witness :
  ids_assigned (shapes session_b) ∧ rect1 ∈ shapes session_b ∧
  shapes (undo (delete_shape session_b rect1)) = shapes session_b.
Proof.
  assert (ids_assigned (shapes session_b)) as H1 by by_compute.
  assert (rect1 ∈ shapes session_b) as H2 by by_compute.
  destruct (delete_shape_undone session_b rect1 H1 H2) as (_ & _ & H).
  split_and!; [exact H1|exact H2|]. apply H. by_compute.
Defined.

(** X13. [clear_all] with [record_undo] on a drawing that is not empty
    can be undone: [undo] brings back the shapes and the id counter.  On
    an empty drawing, or without [record_undo], it records nothing.  In
    every case it leaves no shape, no selection and the id counter 1. *)
Theorem clear_all_undone (cm : CanvasManager) (record_undo : bool) :
  ids_assigned (shapes cm) →
  (shapes cm ≠ [] → restores (undo (clear_all cm true)) cm) ∧
  (shapes cm = [] ∨ record_undo = false →
     undo_stack (clear_all cm record_undo) = undo_stack cm ∧
     redo_stack (clear_all cm record_undo) = redo_stack cm) ∧
  shapes (clear_all cm record_undo) = [] ∧
  next_shape_id (clear_all cm record_undo) = 1%Z ∧
  selected_shape (clear_all cm record_undo) = None.
Proof.
  intros Hids. split_and!.
  - intros Hne. destruct (record_state_top cm) as [u Hu].
    assert (undo_stack (clear_all cm true) = u ++ [current_state cm]) as Hu'.
    { unfold clear_all. by rewrite bool_decide_eq_false_2. }
    destruct (undo_top (clear_all cm true) u (shapes cm) (next_shape_id cm)
                Hu' Hids) as (Hs & Hn & _).
    by split.
  - intros [Hnil| ->]; unfold clear_all.
    + rewrite bool_decide_eq_true_2 by done. by rewrite andb_false_r.
    + done.
  - done.
  - done.
  - done.
Qed.

(** Starting a new drawing in the sample session and undoing it. *)
Lemma clear_all_undone_witness :
  ids_assigned (shapes session_b) ∧
  shapes (undo (clear_all session_b true)) = shapes session_b.
Proof.
  assert (ids_assigned (shapes session_b)) as H1 by by_compute.
  destruct (clear_all_undone session_b true H1) as (H & _).
  split; [exact H1|].
  destruct H as [Hs _]; [discriminate|].
  rewrite Hs. by_compute.
Defined.

(** X14. The [undo] that follows [add_shape] does not take the shape out
    again: [add_shape] records the drawing that already contains it, so
    [undo] restores that same drawing.  The shape added is the last one,
    and it carries the former value of the id counter when it came with
    the id 0. *)
Theorem add_shape_not_undone (cm : CanvasManager) (shape : Shape) :
  ids_assigned (shapes (add_shape cm shape true)) →
  restores (undo (add_shape cm shape true)) (add_shape cm shape true) ∧
  (detached (shapes (add_shape cm shape true)) →
     shapes (undo (add_shape cm shape true))
       = shapes (add_shape cm shape true)) ∧
  shapes (add_shape cm shape true)
    = shapes cm ++ [if bool_decide (shape_id shape = 0%Z)
                    then set_shape_id shape (next_shape_id cm) else shape].
Proof.
  intros Hids.
  assert (∃ cm', add_shape cm shape true = record_state cm') as [cm' Hcm'].
  { unfold add_shape. case_bool_decide; by eexists. }
  rewrite Hcm' in *.
  destruct (record_state_top cm') as [u Hu].
  destruct (undo_top (record_state cm') u (shapes cm') (next_shape_id cm')
              Hu Hids) as (Hs & Hn & _).
  split_and!.
  - by split.
  - intros Hd. rewrite Hs. by apply rebuild_connections_detached.
  - rewrite <- Hcm'. unfold add_shape. by case_bool_decide.
Qed.

(** Inserting a rectangle into the empty drawing and undoing. *)
Lemma add_shape_not_undone_witness :
  ids_assigned (shapes session_a) ∧ shapes (undo session_a) = [rect1].
Proof.
  assert (ids_assigned (shapes session_a)) as H1 by by_compute.
  destruct (add_shape_not_undone init (new_shape "rectangle" 0 0 10 10) H1)
    as (_ & H & _).
  split; [exact H1|]. apply H. by_compute.
Defined.

(** X15. [redo] reverts [undo] and [undo] reverts [redo]: either pair, on
    a stack that is not empty, brings back the shapes (passed through
    [rebuild_connections]) and the id counter, leaves the other stack as
    it was and the number of entries of both stacks unchanged. *)
Theorem undo_redo_inverse (cm : CanvasManager) :
  ids_assigned (shapes cm) →
  (undo_stack cm ≠ [] →
     restores (redo (undo cm)) cm ∧
     redo_stack (redo (undo cm)) = redo_stack cm ∧
     length (undo_stack (redo (undo cm))) = length (undo_stack cm)) ∧
  (redo_stack cm ≠ [] →
     restores (undo (redo cm)) cm ∧
     undo_stack (undo (redo cm)) = undo_stack cm ∧
     length (redo_stack (undo (redo cm))) = length (redo_stack cm)).
Proof.
  intros Hids. split.
  - intros Hne. apply last_is_Some in Hne as [state Hlast].
    apply last_Some in Hlast as [u Hu].
    destruct (restore_state_stacks
                (set_undo_stack
                   (set_redo_stack cm (redo_stack cm ++ [current_state cm])) u)
                state) as [Hus Hrs].
    rewrite <- (undo_eq cm u state Hu) in Hus, Hrs.
    cbn [undo_stack redo_stack set_undo_stack set_redo_stack] in Hus, Hrs.
    destruct (redo_top (undo cm) (redo_stack cm) (shapes cm)
                (next_shape_id cm) Hrs Hids) as (Hs & Hn & Hr & Hu2).
    split_and!; [by split|done|].
    rewrite Hu2, Hus, Hu, !length_app. done.
  - intros Hne. apply last_is_Some in Hne as [state Hlast].
    apply last_Some in Hlast as [r Hr].
    destruct (restore_state_stacks
                (set_redo_stack
                   (set_undo_stack cm (undo_stack cm ++ [current_state cm])) r)
                state) as [Hus Hrs].
    rewrite <- (redo_eq cm r state Hr) in Hus, Hrs.
    cbn [undo_stack redo_stack set_undo_stack set_redo_stack] in Hus, Hrs.
    destruct (undo_top (redo cm) (undo_stack cm) (shapes cm)
                (next_shape_id cm) Hus Hids) as (Hs & Hn & Hu2 & Hr2).
    split_and!; [by split|done|].
    rewrite Hr2, Hrs, Hr, !length_app. done.
Qed.

(** Undo and redo at the end of the second stage of the sample session. *)
Lemma undo_redo_inverse_witness :
  ids_assigned (shapes session_b) ∧ undo_stack session_b ≠ [] ∧
  shapes (redo (undo session_b)) = shapes session_b.
Proof.
  assert (ids_assigned (shapes session_b)) as H1 by by_compute.
  assert (undo_stack session_b ≠ []) as H2 by by_compute.
  destruct (undo_redo_inverse session_b H1) as [H _].
  destruct (H H2) as ([Hs _] & _).
  split_and!; [exact H1|exact H2|]. rewrite Hs. by_compute.
Defined.

(** ** Files *)

Lemma add_shape_loaded_fresh (ds : list ShapeDict) (cm : CanvasManager) :
  Forall (fun d => shape_id (from_dict d) = 0%Z) ds →
  let cm' := foldl (fun cm shape_data =>
                      add_shape cm (from_dict shape_data) false) cm ds in
  map shape_id (shapes cm')
    = map shape_id (shapes cm)
      ++ map (fun k => (next_shape_id cm + Z.of_nat k)%Z) (seq 0 (length ds)) ∧
  next_shape_id cm' = (next_shape_id cm + Z.of_nat (length ds))%Z.
Proof.
  revert cm. induction ds as [|d ds IH]; intros cm Hds.
  - simpl. rewrite app_nil_r. split; [done|lia].
  - apply Forall_cons in Hds as [Hd Hds]. cbn [foldl].
    destruct (IH (add_shape cm (from_dict d) false) Hds) as [Hids Hn].
    cbn zeta in *. rewrite Hids, Hn.
    unfold add_shape. rewrite bool_decide_eq_true_2 by done.
    cbn [shapes next_shape_id set_shapes set_next_shape_id length seq map].
    rewrite map_app. cbn [map shape_id set_shape_id].
    rewrite <- app_assoc. cbn [app]. split; [|lia].
    f_equal. f_equal; [f_equal; lia|].
    rewrite <- seq_shift, map_map. apply map_ext. intros k. lia.
Qed.

Lemma open_drawing_undo_stack (cm : CanvasManager) (data : FileData) :
  undo_stack (open_drawing cm data) = undo_stack (clear_all cm true) ∧
  redo_stack (open_drawing cm data) = redo_stack (clear_all cm true).
Proof.
  unfold open_drawing.
  destruct (add_shape_loaded_stacks (default [] (file_shapes data))
              (clear_all cm true)) as (Hu & Hr & _).
  cbn zeta in Hu, Hr.
  cbn [undo_stack redo_stack set_modified set_shapes].
  by rewrite Hu, Hr.
Qed.

(** X16. Opening a file can be undone: when the drawing at hand is not
    empty, [open_drawing] records it before loading, whatever the file
    holds, and the [undo] that follows brings back its shapes (passed
    through [rebuild_connections]) and its id counter. *)
Theorem open_drawing_undone (cm : CanvasManager) (data : FileData) :
  ids_assigned (shapes cm) → shapes cm ≠ [] →
  restores (undo (open_drawing cm data)) cm ∧
  (detached (shapes cm) → shapes (undo (open_drawing cm data)) = shapes cm).
Proof.
  intros Hids Hne. destruct (record_state_top cm) as [u Hu].
  assert (undo_stack (open_drawing cm data) = u ++ [current_state cm]) as Hu'.
  { rewrite (proj1 (open_drawing_undo_stack cm data)).
    unfold clear_all. by rewrite bool_decide_eq_false_2. }
  destruct (undo_top (open_drawing cm data) u (shapes cm) (next_shape_id cm)
              Hu' Hids) as (Hs & Hn & _).
  split; [by split|].
  intros Hd. rewrite Hs. by apply rebuild_connections_detached.
Qed.

(** Opening a file over the sample session and undoing it. *)
Lemma open_drawing_undone_witness :
  ids_assigned (shapes session_b) ∧ shapes session_b ≠ [] ∧
  shapes (undo (open_drawing session_b (file_of [bare_dict "circle" 0 0 8 8])))
    = shapes session_b.
Proof.
  assert (ids_assigned (shapes session_b)) as H1 by by_compute.
  assert (shapes session_b ≠ []) as H2 by by_compute.
  destruct (open_drawing_undone session_b
              (file_of [bare_dict "circle" 0 0 8 8]) H1 H2) as [_ H].
  split_and!; [exact H1|exact H2|]. apply H. by_compute.
Defined.

(** X17. The ids [open_drawing] leaves.  Shapes stored with an id keep
    it, and the id counter is 1 afterwards whatever ids were loaded, so
    the next shape inserted receives the id 1.  Shapes stored without an
    id (or with the id 0) are numbered 1, 2, ... in file order, and the
    counter is one more than their number. *)
Theorem open_drawing_ids (cm : CanvasManager) (ds : list ShapeDict) :
  (Forall (fun d => shape_id (from_dict d) ≠ 0%Z) ds →
     shapes (open_drawing cm (file_of ds))
       = rebuild_connections (map from_dict ds) ∧
     next_shape_id (open_drawing cm (file_of ds)) = 1%Z ∧
     ∀ shape, shape_id shape = 0%Z →
       map shape_id (shapes (add_shape (open_drawing cm (file_of ds))
                                       shape true))
       = map (fun d => shape_id (from_dict d)) ds ++ [1%Z]) ∧
  (Forall (fun d => shape_id (from_dict d) = 0%Z) ds →
     map shape_id (shapes (open_drawing cm (file_of ds)))
       = map Z.of_nat (seq 1 (length ds)) ∧
     next_shape_id (open_drawing cm (file_of ds))
       = (1 + Z.of_nat (length ds))%Z).
Proof.
  split.
  - intros Hnz.
    assert (shapes (open_drawing cm (file_of ds))
            = rebuild_connections (map from_dict ds)
            ∧ next_shape_id (open_drawing cm (file_of ds)) = 1%Z) as [Hs Hn].
    { unfold open_drawing, file_of. cbn [file_shapes default].
      rewrite add_shape_loaded by done. done. }
    split_and!; [done|done|].
    intros shape Hid. unfold add_shape. rewrite bool_decide_eq_true_2 by done.
    cbn [shapes record_state set_modified set_redo_stack set_undo_stack
         set_shapes set_next_shape_id].
    rewrite map_app, Hs, Hn, rebuild_connections_ids, map_map. done.
  - intros Hz. unfold open_drawing.
    change (default [] (file_shapes (file_of ds))) with ds.
    destruct (add_shape_loaded_fresh ds (clear_all cm true) Hz) as [Hids Hn].
    cbn zeta in Hids, Hn.
    cbn [shapes next_shape_id set_modified set_shapes].
    rewrite rebuild_connections_ids, Hids, Hn. split; [|done].
    cbn [app map]. rewrite <- seq_shift, map_map.
    apply map_ext. intros k.
    change (next_shape_id (clear_all cm true)) with 1%Z. lia.
Qed.

(** A file of two shapes with the ids 1 and 2: the shape inserted after
    loading gets the id 1 again.  A file of two shapes without ids: they
    load as 1 and 2. *)
Example open_drawing_ids_sample :
  map shape_id
      (shapes (add_shape
                 (open_drawing init (save_to_file session_b).1)
                 (new_shape "circle" 0 0 8 8) true))
    = [1%Z; 2%Z; 1%Z] ∧
  map shape_id
      (shapes (open_drawing init
                 (file_of [bare_dict "circle" 0 0 8 8;
                           bare_dict "line" 0 0 8 8])))
    = [1%Z; 2%Z].
Proof. split; by_compute. Qed.

(** ** Drawing an orthogonal line *)

Lemma snap_if_enabled_gridded (app : DrawingApp) (x y : Qc) :
  (snap_to_grid app = true → grid_spacing app ≠ 0%Z) →
  snap_if_enabled app x y = Some (gridded app (x, y)).
Proof.
  intros Hsp. unfold snap_if_enabled, snap_point, gridded.
  destruct (snap_to_grid app); [|done]. simpl.
  by rewrite bool_decide_eq_false_2 by by apply Hsp.
Qed.

Lemma gridded_set_ortho (app : DrawingApp) (b : bool) (st : option Point)
    (wps : list Point) (p : Point) :
  gridded (set_ortho app b st wps) p = gridded app p.
Proof. done. Qed.

Lemma presses_in_progress (app : DrawingApp) (clicks : list Point) :
  (snap_to_grid app = true → grid_spacing app ≠ 0%Z) →
  ortho_in_progress app = true →
  presses app clicks
  = Some (set_ortho app true (ortho_start app)
                    (ortho_waypoints app ++ map (gridded app) clicks)).
Proof.
  revert app. induction clicks as [|p clicks IH]; intros app Hsp Hin.
  - simpl. rewrite app_nil_r. destruct app. simpl in *. by subst.
  - simpl. unfold on_press_ortho.
    rewrite (snap_if_enabled_gridded app p.1 p.2 Hsp), Hin. simpl.
    rewrite IH by done. simpl. rewrite <- app_assoc.
    by rewrite <- surjective_pairing.
Qed.

Lemma presses_start (app : DrawingApp) (p0 : Point) (clicks : list Point) :
  (snap_to_grid app = true → grid_spacing app ≠ 0%Z) →
  ortho_in_progress app = false →
  presses app (p0 :: clicks)
  = Some (set_ortho app true (Some (gridded app p0))
                    (map (gridded app) clicks)).
Proof.
  intros Hsp Hin. simpl. unfold on_press_ortho.
  rewrite (snap_if_enabled_gridded app p0.1 p0.2 Hsp), Hin. simpl.
  rewrite presses_in_progress by done. simpl.
  by rewrite <- surjective_pairing.
Qed.

Lemma ortho_points_through (s : Shape) :
  (start_pt s :: waypoints s ++ [end_pt s]) `sublist_of` ortho_points s ∧
  head (ortho_points s) = Some (start_pt s) ∧
  last (ortho_points s) = Some (end_pt s).
Proof.
  unfold ortho_points. simpl. rewrite ortho_path_route. split_and!.
  - apply sublist_skip, route_from_sublist.
  - done.
  - rewrite route_from_last.
    apply (last_snoc (end_pt s) (start_pt s :: waypoints s)).
Qed.

Lemma finalize_ortho_line_spec (app : DrawingApp) (p0 e : Point) :
  ortho_start app = Some p0 →
  ∃ app2, finalize_ortho_line app e.1 e.2 = Some app2 ∧
    ortho_in_progress app2 = false ∧ ortho_start app2 = None ∧
    ortho_waypoints app2 = [] ∧
    ((ortho_waypoints app = [] ∧ too_small p0 e ∧
      canvas_manager app2 = canvas_manager app) ∨
     (¬ (ortho_waypoints app = [] ∧ too_small p0 e) ∧
      ortho_line_added app p0 (ortho_waypoints app) e app2)).
Proof.
  intros Hst. unfold finalize_ortho_line. rewrite Hst.
  destruct p0 as [x1' y1']. destruct e as [ex ey]. cbn [fst snd].
  destruct (bool_decide (Qcabs (ex - x1') < Qcz 3)%Qc
            && bool_decide (Qcabs (ey - y1') < Qcz 3)%Qc
            && bool_decide (ortho_waypoints app = [])) eqn:Hsmall.
  - eexists. split; [done|]. split_and!; try done. left.
    apply andb_true_iff in Hsmall as [Hsmall Hw].
    apply andb_true_iff in Hsmall as [Hx Hy].
    apply bool_decide_eq_true in Hx, Hy, Hw. by split_and!.
  - eexists. split; [done|]. split_and!; try done. right. split.
    + intros (Hw & Hx & Hy). simpl in Hx, Hy.
      rewrite !bool_decide_eq_true_2 in Hsmall by done. done.
    + set (s := {| x1 := x1'; y1 := y1'; x2 := ex; y2 := ey;
                   color := current_color app; width := line_width app;
                   shape_type := current_tool app; shape_id := 0%Z;
                   fill_color := Some (current_fill app);
                   connections := []; z_order := 0%Z; text := None;
                   font_family := "Arial"; font_size := 12%Z;
                   font_bold := false; font_italic := false;
                   text_align := "left"; label := None;
                   label_offset_x := Qcz 0; label_offset_y := Qcz 0;
                   routing := "h_first";
                   waypoints := ortho_waypoints app |}).
      exists (set_shape_id s (next_shape_id (canvas_manager app))).
      destruct (ortho_points_through
                  (set_shape_id s (next_shape_id (canvas_manager app))))
        as (Hsub & Hhd & Hlst).
      split_and!; done.
Qed.

(** X18. Drawing an orthogonal line by clicks, with one of the two
    orthogonal tools as the current tool.  A first click, any number
    of further clicks and a right click add one shape whose start is the
    first click, whose waypoints are the further clicks in order and whose
    end is the right click (each taken on the grid when snapping is on);
    the shape gets the next free id and the line drawn for it passes
    through all these points in order.  The only exception is a right
    click less than 3 units from the start in both directions with no
    click in between: then nothing is added.  In both cases the drawing
    state is reset. *)
Theorem ortho_line_by_clicks (app : DrawingApp) (p0 : Point)
    (clicks : list Point) (e : Point) :
  current_tool app ∈ ["ortho_line"; "ortho_arrow"] →
  ortho_in_progress app = false →
  (snap_to_grid app = true → grid_spacing app ≠ 0%Z) →
  ∃ app1 app2,
    presses app (p0 :: clicks) = Some app1 ∧
    on_right_click app1 e.1 e.2 = Some app2 ∧
    ortho_in_progress app2 = false ∧ ortho_start app2 = None ∧
    ortho_waypoints app2 = [] ∧
    ((clicks = [] ∧ too_small (gridded app p0) (gridded app e) ∧
      canvas_manager app2 = canvas_manager app) ∨
     (¬ (clicks = [] ∧ too_small (gridded app p0) (gridded app e)) ∧
      ortho_line_added app (gridded app p0) (map (gridded app) clicks)
                       (gridded app e) app2)).
Proof.
  intros _ Hin Hsp.
  pose (app1 := set_ortho app true (Some (gridded app p0))
                          (map (gridded app) clicks)).
  destruct (finalize_ortho_line_spec app1 (gridded app p0) (gridded app e))
    as (app2 & Hfin & H1 & H2 & H3 & Hcases); [done|].
  exists app1, app2. split; [exact (presses_start app p0 clicks Hsp Hin)|].
  split.
  { unfold on_right_click.
    change (ortho_in_progress app1) with true. cbv iota.
    rewrite (snap_if_enabled_gridded app1 e.1 e.2) by done.
    change (gridded app1 (e.1, e.2)) with (gridded app (e.1, e.2)).
    rewrite <- surjective_pairing. exact Hfin. }
  split_and!; [done..|].
  destruct Hcases as [(Hw & Hsm & Hcm)|[Hn Hadd]].
  - left. split_and!; [|done|done].
    change (map (gridded app) clicks = []) in Hw. by destruct clicks.
  - right. split; [|exact Hadd].
    intros [-> Hsm]. apply Hn. by split.
Qed.

(** Three clicks and a right click on the sample application. *)
Lemma ortho_line_by_clicks_witness :
  current_tool app_grid ∈ ["ortho_line"; "ortho_arrow"] ∧
  ortho_in_progress app_grid = false ∧
  (snap_to_grid app_grid = true → grid_spacing app_grid ≠ 0%Z) ∧
  ∃ app1 app2,
    presses app_grid [(Qcz 3, Qcz 4); (Qcz 58, Qcz 9)] = Some app1 ∧
    on_right_click app1 (Qcz 61) (Qcz 52) = Some app2 ∧
    ortho_waypoints app2 = [].
Proof.
  assert (snap_to_grid app_grid = true → grid_spacing app_grid ≠ 0%Z) as H2
    by (intros _; discriminate).
  assert (current_tool app_grid ∈ ["ortho_line"; "ortho_arrow"]) as H0
    by apply list_elem_of_further, list_elem_of_here.
  split; [exact H0|]. split; [reflexivity|]. split; [exact H2|].
  destruct (ortho_line_by_clicks app_grid (Qcz 3, Qcz 4) [(Qcz 58, Qcz 9)]
              (Qcz 61, Qcz 52) H0 eq_refl H2)
    as (app1 & app2 & Hp & Hr & _ & _ & Hw & _).
  exists app1, app2. split_and!; [exact Hp|exact Hr|exact Hw].
Defined.

(** X19. The Enter key while an orthogonal line is in progress (clicks
    being made with one of the two orthogonal tools).  With at
    least one click after the first, it finishes the line with the last
    click as the end, exactly as a right click at that position instead of
    that click would have; with the first click only, it cancels the
    line and the drawing is untouched; outside of a line in progress it
    does nothing. *)
Theorem ortho_line_by_enter (app : DrawingApp) (p0 : Point)
    (clicks : list Point) (c : Point) :
  current_tool app ∈ ["ortho_line"; "ortho_arrow"] →
  ortho_in_progress app = false →
  (snap_to_grid app = true → grid_spacing app ≠ 0%Z) →
  (presses app (p0 :: clicks ++ [c]) ≫= finish_ortho_if_active)
    = (presses app (p0 :: clicks) ≫= fun a => on_right_click a c.1 c.2) ∧
  (presses app [p0] ≫= finish_ortho_if_active)
    = Some (set_ortho app false None []) ∧
  finish_ortho_if_active app = Some app.
Proof.
  intros _ Hin Hsp. split_and!.
  - rewrite !presses_start by done. cbn [mbind option_bind].
    unfold finish_ortho_if_active, on_right_click.
    cbn [ortho_in_progress set_ortho ortho_waypoints ortho_start negb].
    rewrite map_app. cbn [map]. rewrite last_snoc, removelast_last.
    rewrite (snap_if_enabled_gridded _ c.1 c.2) by done.
    rewrite gridded_set_ortho, <- surjective_pairing. done.
  - rewrite presses_start by done. done.
  - unfold finish_ortho_if_active. by rewrite Hin.
Qed.

(** Enter after three clicks on the sample application. *)
Lemma ortho_line_by_enter_witness :
  current_tool app0 ∈ ["ortho_line"; "ortho_arrow"] ∧
  ortho_in_progress app0 = false ∧
  (snap_to_grid app0 = true → grid_spacing app0 ≠ 0%Z) ∧
  (presses app0 [(Qcz 3, Qcz 4); (Qcz 58, Qcz 9); (Qcz 61, Qcz 52)]
     ≫= finish_ortho_if_active)
  = (presses app0 [(Qcz 3, Qcz 4); (Qcz 58, Qcz 9)]
       ≫= fun a => on_right_click a (Qcz 61) (Qcz 52)).
Proof.
  assert (snap_to_grid app0 = true → grid_spacing app0 ≠ 0%Z) as H2
    by (intros; discriminate).
  assert (current_tool app0 ∈ ["ortho_line"; "ortho_arrow"]) as H0
    by apply list_elem_of_further, list_elem_of_here.
  split; [exact H0|]. split; [reflexivity|]. split; [exact H2|].
  destruct (ortho_line_by_enter app0 (Qcz 3, Qcz 4) [(Qcz 58, Qcz 9)]
              (Qcz 61, Qcz 52) H0 eq_refl H2) as (H & _).
  exact H.
Defined.

(** ** The grid *)

Lemma py_round_near_Q (q : Qc) :
  (- (1 # 2) <= q - inject_Z (py_round q) <= 1 # 2)%Q.
Proof.
  unfold py_round.
  pose proof (Qfloor_le q) as Hlo. pose proof (Qlt_floor q) as Hhi.
  rewrite inject_Z_plus in Hhi. change (inject_Z 1) with 1%Q in Hhi.
  destruct (Qlt_le_dec _ _) as [H1|H1].
  { split; lra. }
  destruct (Qlt_le_dec _ _) as [H2|H2].
  { rewrite inject_Z_plus. change (inject_Z 1) with 1%Q. split; lra. }
  destruct (Z.even _).
  { split; lra. }
  rewrite inject_Z_plus. change (inject_Z 1) with 1%Q. split; lra.
Qed.

Lemma py_round_near (q : Qc) : (Qcabs (q - Qcz (py_round q)) <= half)%Qc.
Proof.
  apply Qcabs_Qcle_condition.
  pose proof (py_round_near_Q q) as [Hlo Hhi].
  unfold Qcle, Qcz, half, Qcminus, Qcplus, Qcopp, Q2Qc. cbn [this].
  rewrite !Qred_correct. split; lra.
Qed.

Lemma py_round_Qcz (k : Z) : py_round (Qcz k) = k.
Proof.
  unfold py_round.
  assert (Qfloor (Qcz k) = k) as ->.
  { unfold Qcz, Q2Qc. cbn [this]. rewrite (Qfloor_comp _ _ (Qred_correct _)).
    apply Qfloor_Z. }
  destruct (Qlt_le_dec _ _) as [H1|H1]; [done|].
  exfalso. unfold Qcz, Q2Qc in H1. cbn [this] in H1. rewrite Qred_correct in H1. lra.
Qed.

Lemma Qcz_mult (a b : Z) : Qcz (a * b) = (Qcz a * Qcz b)%Qc.
Proof.
  apply Qc_is_canon. unfold Qcz, Qcmult, Q2Qc. cbn [this].
  rewrite !Qred_correct, inject_Z_mult. reflexivity.
Qed.

Lemma Qcz_nonzero (k : Z) : k ≠ 0%Z → Qcz k ≠ Qcz 0.
Proof.
  intros Hk H. apply Hk.
  rewrite <- (py_round_Qcz k), H. apply py_round_Qcz.
Qed.

Lemma Qcz_pos (k : Z) : (0 < k)%Z → (Qcz 0 < Qcz k)%Qc.
Proof.
  intros Hk. unfold Qclt, Qcz, Q2Qc. cbn [this]. rewrite !Qred_correct.
  by rewrite <- Zlt_Qlt.
Qed.

(** Rounding to the grid lands on a multiple of the spacing at most half
    a spacing away. *)
Lemma grid_round_near (sp : Z) (x : Qc) :
  (0 < sp)%Z →
  (Qcabs (x - Qcz (py_round (x / Qcz sp) * sp)) <= div2 (Qcz sp))%Qc.
Proof.
  intros Hsp. pose proof (Qcz_pos sp Hsp) as Hpos.
  assert (Qcz sp ≠ Qcz 0) as Hnz by (apply Qcz_nonzero; lia).
  rewrite Qcz_mult.
  assert (x = x / Qcz sp * Qcz sp)%Qc as Hx.
  { rewrite Qcmult_comm. symmetry. by apply Qcmult_div_r. }
  generalize dependent (x / Qcz sp)%Qc. intros q ->.
  assert (q * Qcz sp - Qcz (py_round q) * Qcz sp
          = (q - Qcz (py_round q)) * Qcz sp)%Qc as -> by ring.
  rewrite Qcabs_Qcmult, (Qcabs_pos (Qcz sp)) by (by apply Qclt_le_weak).
  unfold div2. rewrite (Qcmult_comm (Qcz sp) half).
  apply Qcmult_le_compat_r; [apply py_round_near|by apply Qclt_le_weak].
Qed.

Lemma grid_round_fixed (sp k : Z) :
  sp ≠ 0%Z → py_round (Qcz (k * sp) / Qcz sp) = k.
Proof.
  intros Hsp. rewrite Qcz_mult, Qcdiv_mult_l by (by apply Qcz_nonzero).
  apply py_round_Qcz.
Qed.

(** ** Reconnecting an endpoint *)

Lemma filter_endpoint_idemp (ep : string) (cs : list Connection) :
  entries_besides ep (entries_besides ep cs) = entries_besides ep cs.
Proof.
  unfold entries_besides. induction cs as [|c cs IH]; [done|].
  rewrite filter_cons. case_decide as Hc; [|exact IH].
  rewrite filter_cons. case_decide; [|done]. by rewrite IH.
Qed.

Lemma entries_of_besides (ep : string) (cs : list Connection) :
  entries_of ep (entries_besides ep cs) = [].
Proof.
  unfold entries_of, entries_besides. induction cs as [|c cs IH]; [done|].
  rewrite filter_cons. case_decide as Hc; [|exact IH].
  rewrite filter_cons. case_decide; [done|exact IH].
Qed.

Lemma entries_besides_app (ep : string) (a b : list Connection) :
  entries_besides ep (a ++ b) = entries_besides ep a ++ entries_besides ep b.
Proof. apply filter_app. Qed.

Lemma entries_of_app (ep : string) (a b : list Connection) :
  entries_of ep (a ++ b) = entries_of ep a ++ entries_of ep b.
Proof. apply filter_app. Qed.

Lemma entries_besides_own (ep : string) (i : Z) :
  entries_besides ep [mkConnection i ep] = [].
Proof. unfold entries_besides. rewrite filter_cons. by case_decide. Qed.

Lemma entries_of_own (ep : string) (i : Z) :
  entries_of ep [mkConnection i ep] = [mkConnection i ep].
Proof. unfold entries_of. rewrite filter_cons. by case_decide. Qed.

Lemma reconnect_connections (sel : Shape) (ep : string)
    (snap_shape : option Shape) :
  connections (reconnect sel ep snap_shape)
  = entries_besides ep (connections sel)
    ++ match snap_shape with
       | Some t => [mkConnection (shape_id t) ep]
       | None => []
       end.
Proof. destruct snap_shape; [done|]. by rewrite app_nil_r. Qed.

Lemma reconnect_set_connections (sel : Shape) (ep : string)
    (snap_shape : option Shape) :
  reconnect sel ep snap_shape
  = set_connections sel (connections (reconnect sel ep snap_shape)).
Proof. by destruct snap_shape. Qed.

(** X21. Releasing a dragged endpoint of a connector.  When
    [get_snap_point] at the pointer, with the connector excluded, returns
    a shape, the connector gets exactly one connection entry for that
    endpoint, placed last, whose target is the id of that shape, which is
    a member of the drawing other than the connector and not a line; when
    it returns no shape, the connector keeps no entry for that endpoint.
    The entries of the other endpoint stay as they were, in their order;
    nothing else of the connector and no other shape changes; and the
    state put on the undo stack is the state after the change. *)
Theorem release_endpoint_reconnects (app : DrawingApp) (i : nat)
    (sel : Shape) (ep : string) (x y : Qc) :
  shapes (canvas_manager app) !! i = Some sel →
  (snap_to_grid app = true → grid_spacing app ≠ 0%Z) →
  ∃ app' sel',
    release_endpoint app i ep x y = Some app' ∧
    shapes (canvas_manager app')
      = <[i := sel']> (shapes (canvas_manager app)) ∧
    sel' = set_connections sel (connections sel') ∧
    entries_besides ep (connections sel')
      = entries_besides ep (connections sel) ∧
    match (get_snap_point (shapes (canvas_manager app)) x y (Some sel)).2
    with
    | Some t =>
        connections sel' = entries_besides ep (connections sel)
                           ++ [mkConnection (shape_id t) ep] ∧
        entries_of ep (connections sel') = [mkConnection (shape_id t) ep] ∧
        t ∈ shapes (canvas_manager app) ∧ t ≠ sel ∧ is_line t = false
    | None =>
        connections sel' = entries_besides ep (connections sel) ∧
        entries_of ep (connections sel') = []
    end ∧
    last (undo_stack (canvas_manager app'))
      = Some (current_state (canvas_manager app')).
Proof.
  intros Hi Hsp. unfold release_endpoint. cbv zeta.
  rewrite Hi, get_snap_point_final.
  pose proof (snap_final_inv (shapes (canvas_manager app)) x y (Some sel))
    as [_ Hst].
  cbn [snd].
  set (st := snap_final (shapes (canvas_manager app)) x y (Some sel)) in *.
  set (sel' := reconnect sel ep (snap_shape st)).
  assert (match snap_shape st with
          | Some _ => Some (x, y)
          | None => snap_if_enabled app x y
          end = Some (match snap_shape st with
                      | Some _ => (x, y)
                      | None => gridded app (x, y)
                      end)) as ->.
  { destruct (snap_shape st); [done|]. by apply snap_if_enabled_gridded. }
  eexists _, sel'. split; [reflexivity|].
  split; [done|]. split; [apply reconnect_set_connections|].
  assert (connections sel'
          = entries_besides ep (connections sel)
            ++ match snap_shape st with
               | Some t => [mkConnection (shape_id t) ep]
               | None => []
               end) as Hconn by apply reconnect_connections.
  split_and!.
  - rewrite Hconn, entries_besides_app, filter_endpoint_idemp.
    destruct (snap_shape st); [|by rewrite app_nil_r].
    by rewrite entries_besides_own, app_nil_r.
  - rewrite Hconn, entries_of_app, entries_of_besides.
    destruct (snap_shape st) as [t|] eqn:Hsnap.
    + destruct Hst as (Hin & _ & _).
      apply elem_of_candidates in Hin as (Ht & [Hne Hline] & _).
      split_and!.
      * done.
      * apply entries_of_own.
      * done.
      * by intros ->.
      * by apply bool_decide_eq_false_2.
    + by rewrite !app_nil_r.
  - cbn [canvas_manager set_canvas_manager].
    rewrite last_record_state. by rewrite current_state_record_state.
Qed.

(** The start of a line released next to the first rectangle. *)
Lemma release_endpoint_reconnects_witness :
  shapes (canvas_manager app_line) !! 1%nat = Some line3 ∧
  (snap_to_grid app_line = true → grid_spacing app_line ≠ 0%Z) ∧
  ∃ app' sel',
    release_endpoint app_line 1 "start" (Qcz 12) (Qcz 4) = Some app' ∧
    shapes (canvas_manager app') = [rect1; sel'; rect2].
Proof.
  assert (snap_to_grid app_line = true → grid_spacing app_line ≠ 0%Z) as H2
    by (intros; discriminate).
  split; [reflexivity|]. split; [exact H2|].
  destruct (release_endpoint_reconnects app_line 1 line3 "start"
              (Qcz 12) (Qcz 4) eq_refl H2)
    as (app' & sel' & Hr & Hs & _).
  exists app', sel'. split; [exact Hr|exact Hs].
Defined.

(** X22. Releasing a handle of an orthogonal line.  For the start or the
    end handle, the drawing and the history change exactly as when a
    dragged endpoint is released at the position that endpoint has; for
    any other handle the state is recorded and nothing else happens. *)
Theorem release_waypoint_endpoint_as_endpoint (app : DrawingApp) (i : nat)
    (sel : Shape) (ep : string) :
  shapes (canvas_manager app) !! i = Some sel →
  (snap_to_grid app = true → grid_spacing app ≠ 0%Z) →
  (ep ∈ ["start"; "end"] →
   let pt := if bool_decide (ep = "start") then start_pt sel
             else end_pt sel in
   release_endpoint app i ep pt.1 pt.2
   = Some (set_canvas_manager app
             (release_waypoint_endpoint (canvas_manager app) i ep))) ∧
  (ep ∉ ["start"; "end"] →
   release_waypoint_endpoint (canvas_manager app) i ep
   = record_state (canvas_manager app)).
Proof.
  intros Hi Hsp. split.
  - intros Hep pt. unfold release_endpoint, release_waypoint_endpoint.
    cbv zeta. rewrite Hi. rewrite (bool_decide_eq_true_2 _ Hep). cbn [negb].
    assert (pt.1 = if bool_decide (ep = "start") then x1 sel else x2 sel)
      as <- by (unfold pt; by case_bool_decide).
    assert (pt.2 = if bool_decide (ep = "start") then y1 sel else y2 sel)
      as <- by (unfold pt; by case_bool_decide).
    rewrite get_snap_point_final.
    destruct (snap_shape _); [done|].
    by rewrite snap_if_enabled_gridded.
  - intros Hep. unfold release_waypoint_endpoint. rewrite Hi.
    by rewrite (bool_decide_eq_false_2 _ Hep).
Qed.

(** The start handle of the sample connector. *)
Lemma release_waypoint_endpoint_as_endpoint_witness :
  shapes (canvas_manager app_line) !! 1%nat = Some line3 ∧
  (snap_to_grid app_line = true → grid_spacing app_line ≠ 0%Z) ∧
  release_endpoint app_line 1 "start" (Qcz 50) (Qcz 50)
  = Some (set_canvas_manager app_line
            (release_waypoint_endpoint (canvas_manager app_line) 1 "start")).
Proof.
  assert (snap_to_grid app_line = true → grid_spacing app_line ≠ 0%Z) as H2
    by (intros; discriminate).
  split; [reflexivity|]. split; [exact H2|].
  destruct (release_waypoint_endpoint_as_endpoint app_line 1 line3 "start"
              eq_refl H2) as [H _].
  apply H. by_compute.
Defined.

(** ** Flipping the routing *)

Lemma set_routing_same (s : Shape) : set_routing s (routing s) = s.
Proof. by destruct s. Qed.

Lemma set_routing_twice (s : Shape) (r r' : string) :
  set_routing (set_routing s r) r' = set_routing s r'.
Proof. done. Qed.

Lemma ortho_points_length (s : Shape) (r : string) :
  length (ortho_points (set_routing s r)) = length (ortho_points s).
Proof.
  unfold ortho_points. cbn [x1 y1 x2 y2 waypoints routing set_routing app].
  by rewrite !ortho_path_route, !length_cons, !route_from_length.
Qed.

Lemma flip_routing_shapes (cm : CanvasManager) (i : nat) (s : Shape) :
  shapes cm !! i = Some s →
  shape_type s ∈ ["ortho_line"; "ortho_arrow"] →
  shapes (flip_routing cm i)
  = <[i := set_routing s (if bool_decide (routing s = "v_first")
                          then "h_first" else "v_first")]> (shapes cm).
Proof.
  intros Hi Hty. unfold flip_routing. rewrite Hi.
  rewrite (bool_decide_eq_true_2 _ Hty). cbn [negb].
  by case_bool_decide.
Qed.

(** X23. Flipping the routing of an orthogonal line.  The line at the
    given position gets the other of the two routings (the vertical-first
    one unless it had that), nothing else of it and no other shape changes,
    and the path drawn for it keeps its number of points.  Flipping twice
    gives the shapes back exactly when the routing was one of the two
    routings to begin with. *)
Theorem flip_routing_twice (cm : CanvasManager) (i : nat) (s : Shape) :
  shapes cm !! i = Some s →
  shape_type s ∈ ["ortho_line"; "ortho_arrow"] →
  ∃ s',
    shapes (flip_routing cm i) = <[i := s']> (shapes cm) ∧
    s' = set_routing s (routing s') ∧
    routing s' ∈ ["h_first"; "v_first"] ∧
    routing s' ≠ routing s ∧
    length (ortho_points s') = length (ortho_points s) ∧
    (shapes (flip_routing (flip_routing cm i) i) = shapes cm
     ↔ routing s ∈ ["h_first"; "v_first"]).
Proof.
  intros Hi Hty.
  pose proof (lookup_lt_Some _ _ _ Hi) as Hlt.
  pose proof (flip_routing_shapes cm i s Hi Hty) as H1.
  set (r := if bool_decide (routing s = "v_first")
            then "h_first" else "v_first") in *.
  exists (set_routing s r). split_and!.
  - exact H1.
  - done.
  - cbn [routing set_routing]. unfold r.
    case_bool_decide;
      [apply list_elem_of_here|apply list_elem_of_further, list_elem_of_here].
  - cbn [routing set_routing]. unfold r.
    case_bool_decide as Hr; [by rewrite Hr|done].
  - apply ortho_points_length.
  - assert (shapes (flip_routing cm i) !! i = Some (set_routing s r)) as Hi2.
    { rewrite H1. by apply list_lookup_insert_eq. }
    rewrite (flip_routing_shapes _ i _ Hi2 Hty), H1.
    rewrite list_insert_insert_eq, set_routing_twice.
    cbn [routing set_routing].
    split.
    + intros Heq.
      assert (<[i := set_routing s
                       (if bool_decide (r = "v_first")
                        then "h_first" else "v_first")]> (shapes cm) !! i
              = Some s) as Hs by (by rewrite Heq).
      rewrite list_lookup_insert_eq in Hs by done.
      injection Hs as Hs. apply (f_equal routing) in Hs.
      cbn [routing set_routing] in Hs. rewrite <- Hs.
      case_bool_decide;
        [apply list_elem_of_here|apply list_elem_of_further, list_elem_of_here].
    + intros Hr.
      assert ((if bool_decide (r = "v_first") then "h_first" else "v_first")
              = routing s) as ->.
      { unfold r. apply elem_of_cons in Hr as [->| ->%list_elem_of_singleton];
          done. }
      rewrite set_routing_same. by apply list_insert_id.
Qed.

(** An orthogonal arrow with one waypoint, alone in a drawing. *)
Lemma flip_routing_twice_witness :
  shapes (set_shapes init [ortho7]) !! 0%nat = Some ortho7 ∧
  shape_type ortho7 ∈ ["ortho_line"; "ortho_arrow"] ∧
  shapes (flip_routing (flip_routing (set_shapes init [ortho7]) 0) 0)
  = [ortho7].
Proof.
  assert (shape_type ortho7 ∈ ["ortho_line"; "ortho_arrow"]) as H2
    by apply list_elem_of_further, list_elem_of_here.
  split; [reflexivity|]. split; [exact H2|].
  destruct (flip_routing_twice (set_shapes init [ortho7]) 0 ortho7
              eq_refl H2) as (s' & _ & _ & _ & _ & _ & Hiff).
  apply Hiff. apply list_elem_of_here.
Defined.

(* ====================================================================== *)
(** * Rounding *)
(* ====================================================================== *)

(** The rounding of [Double] against the binary64 operations of the
    Standard Library ([SpecFloat]) on quotients, sums, differences,
    products and square roots that need rounding, on ties, in the
    subnormal range and at the overflow threshold. *)
Example rnd_agrees_with_SpecFloat :
  sf_value (SFdiv 53 1024 (sf 149) (sf 10)) = Double.rnd (Q2Qc (149 # 10)) ∧
  sf_value (SFdiv 53 1024 (sf 1) (sf 3)) = Double.rnd (Q2Qc (1 # 3)) ∧
  sf_value (SFadd 53 1024 (SFdiv 53 1024 (sf 1) (sf 3))
                          (SFdiv 53 1024 (sf 1) (sf 7)))
  = Double.fadd (Double.rnd (Q2Qc (1 # 3))) (Double.rnd (Q2Qc (1 # 7))) ∧
  sf_value (SFsub 53 1024 (SFdiv 53 1024 (sf 1) (sf (2 ^ 60))) (sf 15))
  = Double.fsub (Double.Fin (Double.pow2 (-60))) (Double.Fin (Qcz 15)) ∧
  sf_value (SFadd 53 1024 (SFdiv 53 1024 (sf 1) (sf 2))
                          (SFdiv 53 1024 (sf 1) (sf (2 ^ 60))))
  = Double.fadd (Double.Fin (Q2Qc (1 # 2))) (Double.Fin (Double.pow2 (-60))) ∧
  sf_value (SFmul 53 1024 (SFdiv 53 1024 (sf 149) (sf 10))
                          (SFdiv 53 1024 (sf 149) (sf 10)))
  = Double.rnd (finite (Double.rnd (Q2Qc (149 # 10)))
                * finite (Double.rnd (Q2Qc (149 # 10))))%Qc ∧
  sf_value (SFmul 53 1024 (sf (10 ^ 200)) (sf (10 ^ 200)))
  = Double.rnd (finite (Double.rnd (Qcz (10 ^ 200)))
                * finite (Double.rnd (Qcz (10 ^ 200))))%Qc ∧
  sf_value (sf (2 ^ 53 + 1)) = Double.rnd (Qcz (2 ^ 53 + 1)) ∧
  sf_value (sf (2 ^ 53 + 3)) = Double.rnd (Qcz (2 ^ 53 + 3)) ∧
  sf_value (sf (2 ^ 1024 - 2 ^ 970)) = Double.rnd (Qcz (2 ^ 1024 - 2 ^ 970)) ∧
  sf_value (sf (2 ^ 1024 - 2 ^ 970 - 1))
  = Double.rnd (Qcz (2 ^ 1024 - 2 ^ 970 - 1)) ∧
  sf_value (SFdiv 53 1024 (SFdiv 53 1024 (sf 5) (sf (2 ^ 1000)))
                          (sf (3 * 2 ^ 74)))
  = Double.rnd (Qcz 5 / Qcz (2 ^ 1000) / Qcz (3 * 2 ^ 74))%Qc ∧
  sf_value (SFdiv 53 1024 (SFdiv 53 1024 (sf 5) (sf (2 ^ 1000)))
                          (sf (10 * 2 ^ 74)))
  = Double.rnd (Qcz 5 / Qcz (2 ^ 1000) / Qcz (10 * 2 ^ 74))%Qc ∧
  sf_value (SFsqrt 53 1024 (sf 2)) = Double.Fin (Double.sqrt_cr (Qcz 2)) ∧
  sf_value (SFsqrt 53 1024 (sf 225)) = Double.Fin (Double.sqrt_cr (Qcz 225)) ∧
  sf_value (SFsqrt 53 1024 (sf (2 ^ 1023)))
  = Double.Fin (Double.sqrt_cr (Qcz (2 ^ 1023))) ∧
  sf_value (SFsqrt 53 1024 (SFdiv 53 1024 (sf 22201) (sf 100)))
  = Double.Fin (Double.sqrt_cr (finite (Double.rnd (Q2Qc (22201 # 100))))).
Proof. split_and!; by_compute. Qed.

(* ====================================================================== *)
(** * The router in double precision *)
(* ====================================================================== *)

Lemma ortho_fold_raised (routing : string) (rest : list Double.Point) :
  foldl (Double.ortho_step routing) None rest = None.
Proof. induction rest as [|c rest IH]; [done|]. exact IH. Qed.

Lemma ortho_step_measured (routing : string) (acc : list Double.Point)
    (prev curr : Double.Point) :
  last acc = Some prev →
  Double.ortho_step routing (Some acc) curr
  = (b ← measured_bend prev curr;
     Some (acc ++ (if b : bool then [bend_point routing prev curr] else [])
               ++ [curr])).
Proof.
  intros Hl. unfold Double.ortho_step, measured_bend, bend_point.
  cbn [mbind option_bind]. unfold Double.Point in *. rewrite Hl.
  cbn [mbind option_bind].
  destruct (Double.sub curr.1 prev.1) as [dx|]; [|done].
  cbn [mbind option_bind].
  destruct (Double.sub curr.2 prev.2) as [dy|]; [|done].
  cbn [mbind option_bind].
  destruct (_ && _); [|by rewrite app_nil_l].
  case_bool_decide; by rewrite <- app_assoc.
Qed.

Lemma ortho_fold_routed (routing : string) (rest acc : list Double.Point)
    (prev : Double.Point) :
  last (acc ++ [prev]) = Some prev →
  foldl (Double.ortho_step routing) (Some (acc ++ [prev])) rest
  = (tl ← routed_from routing prev rest; Some (acc ++ prev :: tl)).
Proof.
  revert acc prev. induction rest as [|curr rest IH]; intros acc prev Hl.
  - done.
  - cbn [foldl routed_from]. rewrite (ortho_step_measured _ _ prev curr Hl).
    destruct (measured_bend prev curr) as [b|]; cbn [mbind option_bind];
      [|apply ortho_fold_raised].
    rewrite app_assoc.
    rewrite (IH (_ ++ _) curr) by apply last_snoc.
    destruct (routed_from routing curr rest) as [tl|]; [|done].
    cbn [mbind option_bind]. f_equal.
    rewrite <- !app_assoc. by destruct b.
Qed.

Lemma ortho_path_routed (p0 : Double.Point) (rest : list Double.Point)
    (routing : string) :
  Double.ortho_path (p0 :: rest) routing
  = (tl ← routed_from routing p0 rest; Some (p0 :: tl)).
Proof.
  unfold Double.ortho_path. case_bool_decide as Hlen.
  - destruct rest; [done|]. simpl in Hlen. lia.
  - apply (ortho_fold_routed routing rest [] p0). done.
Qed.

(** A number minus itself is zero or a NaN, so it never exceeds 0.5. *)
Lemma sub_self_small (a : Double.num) :
  ∃ d, Double.sub a a = Some d ∧
       Double.gt (Double.abs d) Double.half = false.
Proof.
  destruct a as [z|[q|s|]].
  - exists (Double.Int 0). split; [by rewrite <- (Z.sub_diag z)|done].
  - exists (Double.Flt (Double.Fin (Qcz 0))). split; [|done].
    unfold Double.sub, Double.fsub, Double.fadd, Double.fneg.
    cbn [Double.to_float mbind option_bind].
    by rewrite Qcplus_opp_r.
  - exists (Double.Flt Double.NaN). split; [|done].
    unfold Double.sub, Double.fsub, Double.fadd, Double.fneg.
    cbn [Double.to_float mbind option_bind].
    rewrite bool_decide_eq_false_2; [done|by destruct s].
  - by exists (Double.Flt Double.NaN).
Qed.

Lemma measured_bend_to_bend (routing : string) (prev curr : Double.Point) :
  is_Some (measured_bend prev curr) →
  aligned_as_measured prev (bend_point routing prev curr) ∧
  aligned_as_measured (bend_point routing prev curr) curr.
Proof.
  unfold aligned_as_measured, measured_bend, bend_point.
  destruct (Double.sub curr.1 prev.1) as [dx|] eqn:Hdx;
    [|by intros [? [=]]].
  destruct (Double.sub curr.2 prev.2) as [dy|] eqn:Hdy;
    [|by intros [? [=]]].
  intros _.
  destruct (sub_self_small prev.1) as (px & Hpx & Hpx').
  destruct (sub_self_small prev.2) as (py & Hpy & Hpy').
  destruct (sub_self_small curr.1) as (cx & Hcx & Hcx').
  destruct (sub_self_small curr.2) as (cy & Hcy & Hcy').
  case_bool_decide; cbn [fst snd];
    rewrite ?Hdx, ?Hdy, ?Hpx, ?Hpy, ?Hcx, ?Hcy; cbn [mbind option_bind];
    rewrite ?Hpx', ?Hpy', ?Hcx', ?Hcy', ?andb_false_r; done.
Qed.

Lemma chain_cons2 {A : Type} (R : A → A → Prop) (a b : A) (l : list A) :
  chain R (a :: b :: l) ↔ R a b ∧ chain R (b :: l).
Proof. done. Qed.

(** The closed form of the router: what it returns, and what holds of the
    path returned. *)
Lemma routed_from_spec (routing : string) (rest : list Double.Point)
    (prev : Double.Point) :
  measurable (prev :: rest) →
  ∃ tl, routed_from routing prev rest = Some tl ∧
        rest `sublist_of` tl ∧
        length tl = length rest + measured_bends prev rest ∧
        measured_bends prev rest ≤ length rest ∧
        chain aligned_as_measured (prev :: tl).
Proof.
  revert prev. induction rest as [|curr rest IH]; intros prev Hok.
  - by exists [].
  - apply chain_cons2 in Hok as [[b Hb] Hok].
    destruct (IH curr Hok) as (tl & Htl & Hsub & Hlen & Hle & Hch).
    cbn [routed_from measured_bends]. rewrite Hb, Htl.
    cbn [mbind option_bind]. eexists. split; [done|].
    destruct (measured_bend_to_bend routing prev curr) as [Hb1 Hb2];
      [by rewrite Hb|].
    destruct b.
    + rewrite bool_decide_eq_true_2 by done. split_and!.
      * apply sublist_cons. by apply sublist_skip.
      * cbn [app length]. lia.
      * cbn [length]. lia.
      * cbn [app]. by rewrite !chain_cons2.
    + rewrite bool_decide_eq_false_2 by done. split_and!.
      * by apply sublist_skip.
      * cbn [app length]. lia.
      * cbn [length]. lia.
      * cbn [app]. by rewrite chain_cons2.
Qed.

Lemma routed_from_raised (routing : string) (rest : list Double.Point)
    (prev : Double.Point) :
  ¬ measurable (prev :: rest) →
  routed_from routing prev rest = None.
Proof.
  revert prev. induction rest as [|curr rest IH]; intros prev Hno.
  - by destruct Hno.
  - cbn [routed_from].
    destruct (measured_bend prev curr) as [b|] eqn:Hb; [|done].
    cbn [mbind option_bind]. rewrite IH; [done|].
    intros Hok. apply Hno. apply chain_cons2. split; [by eexists|done].
Qed.

Lemma Qcz_opp (z : Z) : Qcz (- z) = (- Qcz z)%Qc.
Proof.
  apply Qc_is_canon. unfold Qcz, Qcopp, Q2Qc. cbn [this].
  rewrite !Qred_correct. by rewrite inject_Z_opp.
Qed.

Lemma Qcz_plus (a b : Z) : Qcz (a + b) = (Qcz a + Qcz b)%Qc.
Proof.
  apply Qc_is_canon. unfold Qcz, Qcplus, Q2Qc. cbn [this].
  rewrite !Qred_correct. by rewrite inject_Z_plus.
Qed.

Lemma Qcz_minus (a b : Z) : Qcz (a - b) = (Qcz a - Qcz b)%Qc.
Proof.
  unfold Qcminus. rewrite <- Qcz_opp, <- Qcz_plus. f_equal.
Qed.

Lemma Qcz_le (a b : Z) : (a <= b)%Z ↔ (Qcz a <= Qcz b)%Qc.
Proof.
  unfold Qcle, Qcz, Q2Qc. cbn [this]. rewrite !Qred_correct.
  by rewrite <- Zle_Qle.
Qed.

Lemma Qcz_abs (z : Z) : Qcz (Z.abs z) = Qcabs (Qcz z).
Proof.
  destruct (Z.le_ge_cases 0 z) as [Hz|Hz].
  - rewrite Z.abs_eq by done. symmetry. apply Qcabs_pos.
    by apply (Qcz_le 0 z).
  - rewrite Z.abs_neq by done. rewrite Qcz_opp. symmetry. apply Qcabs_neg.
    by apply (Qcz_le z 0).
Qed.

(** On a number with a finite value, the test [abs(d) > 0.5] is the
    exact one. *)
Lemma gt_abs_half (d : Double.num) (q : Qc) :
  fin d = Some q →
  Double.gt (Double.abs d) Double.half = bool_decide (half < Qcabs q)%Qc.
Proof.
  unfold fin. destruct d as [z|[q'| |]]; cbn [Double.value]; intros [= <-].
  - unfold Double.gt, Double.lt. cbn [Double.value Double.abs Double.half].
    cbn [Double.flt]. by rewrite Qcz_abs.
  - done.
Qed.

Lemma aligned_measured_exact (p q : Double.Point) :
  exact_segment p q → aligned_as_measured p q → aligned_exactly p q.
Proof.
  intros [(qx & px & dx & Hqx & Hpx & Hdx & Hfx)
          (qy & py & dy & Hqy & Hpy & Hdy & Hfy)].
  unfold aligned_as_measured, measured_bend. rewrite Hdx, Hdy.
  cbn [mbind option_bind].
  rewrite (gt_abs_half dx _ Hfx), (gt_abs_half dy _ Hfy).
  intros [= Hb]. exists px, py, qx, qy. split_and!; [done..|].
  apply andb_false_iff in Hb as [Hb|Hb]; [left|right];
    apply bool_decide_eq_false_1 in Hb; by apply Qcnot_lt_le.
Qed.

Lemma Qcabs_diag_small (a : Qc) : (Qcabs (a - a) <= half)%Qc.
Proof. unfold Qcminus. rewrite Qcplus_opp_r. by_compute. Qed.

Lemma aligned_exactly_bend (routing : string) (prev curr : Double.Point) :
  exact_segment prev curr →
  aligned_exactly prev (bend_point routing prev curr) ∧
  aligned_exactly (bend_point routing prev curr) curr.
Proof.
  intros [(qx & px & dx & Hqx & Hpx & _) (qy & py & dy & Hqy & Hpy & _)].
  unfold bend_point. case_bool_decide; cbn [fst snd]; split.
  - exists px, py, px, qy. split_and!; [done..|]. left.
    apply Qcabs_diag_small.
  - exists px, qy, qx, qy. split_and!; [done..|]. right.
    apply Qcabs_diag_small.
  - exists px, py, qx, py. split_and!; [done..|]. right.
    apply Qcabs_diag_small.
  - exists qx, py, qx, qy. split_and!; [done..|]. left.
    apply Qcabs_diag_small.
Qed.

Lemma exact_segment_measured (p q : Double.Point) :
  exact_segment p q → is_Some (measured_bend p q).
Proof.
  intros [(? & ? & dx & _ & _ & Hdx & _) (? & ? & dy & _ & _ & Hdy & _)].
  unfold measured_bend. rewrite Hdx, Hdy. by eexists.
Qed.

Lemma chain_impl {A : Type} (R S : A → A → Prop) (l : list A) :
  (∀ a b, R a b → S a b) → chain R l → chain S l.
Proof.
  intros HRS. induction l as [|a [|b l] IH]; [done..|].
  rewrite !chain_cons2. intros [Hab Hl]. split; [by apply HRS|by apply IH].
Qed.

Lemma routed_from_exact (routing : string) (rest : list Double.Point)
    (prev : Double.Point) (tl : list Double.Point) :
  chain exact_segment (prev :: rest) →
  routed_from routing prev rest = Some tl →
  chain aligned_exactly (prev :: tl).
Proof.
  revert prev tl. induction rest as [|curr rest IH]; intros prev tl Hex.
  - by intros [= <-].
  - apply chain_cons2 in Hex as [Hseg Hex]. cbn [routed_from].
    destruct (measured_bend prev curr) as [b|] eqn:Hb; [|done].
    destruct (routed_from routing curr rest) as [tl'|] eqn:Htl; [|done].
    cbn [mbind option_bind]. intros [= <-].
    pose proof (IH curr tl' Hex Htl) as Hch.
    destruct (aligned_exactly_bend routing prev curr Hseg) as [Hb1 Hb2].
    destruct b; cbn [app].
    + by rewrite !chain_cons2.
    + rewrite chain_cons2. split; [|done].
      by apply aligned_measured_exact.
Qed.

Lemma int_exact_diff (a b : Z) :
  exact_diff (Double.Int a) (Double.Int b).
Proof.
  exists (Qcz a), (Qcz b), (Double.Int (a - b)). split_and!; [done..|].
  unfold fin. cbn [Double.value]. by rewrite Qcz_minus.
Qed.

Lemma int_points_exact (points : list Double.Point) :
  Forall int_point points → chain exact_segment points.
Proof.
  induction 1 as [|p l Hp Hl IH]; [done|].
  destruct Hl as [|q l Hq Hl]; [done|].
  rewrite chain_cons2. split; [|done].
  destruct Hp as [[? Hp1] [? Hp2]], Hq as [[? Hq1] [? Hq2]].
  split; rewrite ?Hp1, ?Hp2, ?Hq1, ?Hq2; apply int_exact_diff.
Qed.

Lemma ortho_path_near_half :
  Double.ortho_path near_half_path "h_first" = Some near_half_path.
Proof. by_compute. Qed.

(** C8, the claim as stated, fails at a rounding boundary.  On the input
    [[(-2 ** -60, 0), (0.5, 10)]] the difference [0.5 - (-2 ** -60)] is
    rounded to [0.5], the test [dx > 0.5] fails, no bend is inserted and
    the path is returned as it is: its one segment is off both axes by
    more than 0.5. *)
Lemma ortho_path_near_half_counterexample :
  ∃ out, Double.ortho_path near_half_path "h_first" = Some out ∧
         ¬ chain aligned_exactly out.
Proof.
  exists near_half_path. split; [apply ortho_path_near_half|].
  intros [(px & py & qx & qy & H1 & H2 & H3 & H4 & Hor) _].
  injection H1 as <-. injection H2 as <-.
  injection H3 as <-. injection H4 as <-.
  revert Hor. by_compute.
Qed.

(** C8 (as amended).  For every input and routing mode on which no
    difference raises, [ortho_path] returns a path that contains the input
    points in their order, is at least as long as the input and at most
    [2 n - 1] points long, and in which every two neighbours are aligned
    in the code's own test: the double-precision value of [abs (dx)] or of
    [abs (dy)] is not greater than 0.5.  Where the differences of the
    input are computed without rounding, as for [int] coordinates, the
    neighbours are axis-aligned within 0.5 exactly.  When a difference
    raises, the call raises. *)
Theorem ortho_path_aligned_as_measured (points : list Double.Point)
    (routing : string) :
  (measurable points →
   ∃ out, Double.ortho_path points routing = Some out ∧
          points `sublist_of` out ∧
          length points ≤ length out ∧
          length out ≤ 2 * length points - 1 ∧
          chain aligned_as_measured out ∧
          (chain exact_segment points → chain aligned_exactly out)) ∧
  (¬ measurable points → Double.ortho_path points routing = None) ∧
  (Forall int_point points →
   measurable points ∧ chain exact_segment points).
Proof.
  split_and!.
  - intros Hok. destruct points as [|p0 rest].
    { exists []. by split_and!. }
    destruct (routed_from_spec routing rest p0 Hok)
      as (tl & Htl & Hsub & Hlen & Hle & Hch).
    exists (p0 :: tl). rewrite ortho_path_routed, Htl. split_and!.
    + done.
    + by apply sublist_skip.
    + cbn [length]. lia.
    + cbn [length]. lia.
    + done.
    + intros Hex. by apply (routed_from_exact routing rest).
  - intros Hno. destruct points as [|p0 rest]; [by destruct Hno|].
    by rewrite ortho_path_routed, routed_from_raised.
  - intros Hint. pose proof (int_points_exact points Hint) as Hex.
    split; [|done].
    eapply chain_impl; [|exact Hex]. apply exact_segment_measured.
Qed.

(** The bend directions of the specification, on [int] coordinates. *)
Example ortho_path_bends_double :
  Double.ortho_path [(int 0, int 0); (int 10, int 10)] "h_first"
  = Some [(int 0, int 0); (int 10, int 0); (int 10, int 10)] ∧
  Double.ortho_path [(int 0, int 0); (int 10, int 10)] "v_first"
  = Some [(int 0, int 0); (int 0, int 10); (int 10, int 10)].
Proof. split; by_compute. Qed.

Lemma routed_from_aligned (routing : string) (rest : list Double.Point)
    (prev : Double.Point) :
  chain aligned_as_measured (prev :: rest) →
  routed_from routing prev rest = Some rest.
Proof.
  revert prev. induction rest as [|curr rest IH]; intros prev Hal; [done|].
  apply chain_cons2 in Hal as [Hb Hal]. cbn [routed_from].
  rewrite Hb, (IH curr Hal). done.
Qed.

(** X2. Where no difference raises, the output of [ortho_path] has one
    point more than the input for each input segment on which the code's
    test [dx > 0.5 and dy > 0.5], evaluated in double precision, asks for
    a bend, and the input comes back unchanged exactly when the test asks
    for none. *)
Theorem ortho_path_bend_count (points : list Double.Point)
    (routing : string) :
  measurable points →
  ∃ out, Double.ortho_path points routing = Some out ∧
         length out
         = length points
           + match points with
             | [] => 0
             | p0 :: rest => measured_bends p0 rest
             end ∧
         (out = points ↔ chain aligned_as_measured points).
Proof.
  intros Hok. destruct points as [|p0 rest].
  { exists []. by split_and!. }
  destruct (routed_from_spec routing rest p0 Hok)
    as (tl & Htl & Hsub & Hlen & Hle & Hch).
  exists (p0 :: tl). rewrite ortho_path_routed, Htl. split_and!.
  - done.
  - cbn [length]. lia.
  - split.
    + by intros <-.
    + intros Hal. rewrite (routed_from_aligned routing rest p0 Hal) in Htl.
      by injection Htl as <-.
Qed.

(** A path with one segment that needs a bend and one that does not. *)
Lemma ortho_path_bend_count_witness :
  measurable [(int 0, int 0); (int 10, int 10); (int 10, int 30)] ∧
  ∃ out, Double.ortho_path
           [(int 0, int 0); (int 10, int 10); (int 10, int 30)] "h_first"
         = Some out ∧ length out = 4.
Proof.
  assert (measurable [(int 0, int 0); (int 10, int 10); (int 10, int 30)])
    as Hok by (split_and!; by eexists).
  split; [exact Hok|].
  destruct (ortho_path_bend_count _ "h_first" Hok) as (out & Hout & Hlen & _).
  exists out. split; [exact Hout|]. rewrite Hlen. by_compute.
Defined.

(* ====================================================================== *)
(** * Snapping in double precision *)
(* ====================================================================== *)

(** ** The order of Python's numbers *)

Lemma flt_irrefl (a : Double.float) : Double.flt a a = false.
Proof.
  destruct a as [q|[]|]; try done.
  apply bool_decide_eq_false_2. apply Qcle_not_lt, Qcle_refl.
Qed.

Lemma flt_trans (a b c : Double.float) :
  Double.flt a b = true → Double.flt b c = true → Double.flt a c = true.
Proof.
  destruct a as [x|[]|], b as [y|[]|], c as [z|[]|]; try done.
  cbn [Double.flt]. rewrite !bool_decide_eq_true. apply Qclt_trans.
Qed.

Lemma lt_irrefl (a : Double.num) : Double.lt a a = false.
Proof. apply flt_irrefl. Qed.

Lemma lt_trans (a b c : Double.num) :
  Double.lt a b = true → Double.lt b c = true → Double.lt a c = true.
Proof. apply flt_trans. Qed.

(** Not below [m], hence not below anything below [m]. *)
Lemma lt_false_below (a d m : Double.num) :
  Double.lt a m = false → Double.lt d m = true → Double.lt a d = false.
Proof.
  intros Ham Hdm. destruct (Double.lt a d) eqn:Had; [|done].
  by rewrite (lt_trans a d m Had Hdm) in Ham.
Qed.

(** ** The scan *)

Lemma snap_try_raised (pow_2 : Qc → Double.float)
    (x y : Double.num) (shape : Double.Shape)
    (ps : list Double.Point) :
  foldl (Double.snap_try pow_2 x y shape) None ps = None.
Proof. induction ps as [|p ps IH]; [done|]. exact IH. Qed.

Lemma snap_scan_raised (pow_2 : Qc → Double.float)
    (x y : Double.num) (ex : option Double.Shape)
    (shapes : list Double.Shape) :
  foldl (Double.snap_scan pow_2 x y ex) None shapes = None.
Proof. induction shapes as [|s shapes IH]; [done|]. exact IH. Qed.

Lemma snap_try_measure (pow_2 : Qc → Double.float)
    (x y : Double.num) (shape : Double.Shape)
    (ps : list Double.Point) (st : Double.SnapState) :
  foldl (Double.snap_try pow_2 x y shape) (Some st) ps
  = (m ← measure pow_2 x y shape ps; Some (foldl pick st m)).
Proof.
  revert st. induction ps as [|p ps IH]; intros st; [done|].
  cbn [foldl measure]. unfold Double.snap_try at 2.
  cbn [mbind option_bind].
  destruct (Double.dist pow_2 x y p) as [d|]; cbn [mbind option_bind];
    [|apply snap_try_raised].
  assert ((if Double.lt d (Double.min_dist st)
           then Some {| Double.min_dist := d; Double.snap_x := p.1;
                        Double.snap_y := p.2;
                        Double.snap_shape := Some shape |}
           else Some st) = Some (pick st (p, shape, d))) as ->.
  { unfold pick. cbn [fst snd]. by destruct (Double.lt _ _). }
  rewrite IH. by destruct (measure pow_2 x y shape ps).
Qed.

Lemma snap_scan_measured (pow_2 : Qc → Double.float)
    (x y : Double.num) (ex : option Double.Shape)
    (shapes : list Double.Shape) (st : Double.SnapState) :
  foldl (Double.snap_scan pow_2 x y ex) (Some st) shapes
  = (ms ← measured pow_2 shapes x y ex; Some (foldl pick st ms)).
Proof.
  revert st. induction shapes as [|s shapes IH]; intros st; [done|].
  cbn [foldl measured]. unfold Double.snap_scan at 2.
  cbn [mbind option_bind].
  destruct (Double.excluded s ex || Double.is_line s); [apply IH|].
  destruct (Double.snap_points s) as [ps|]; cbn [mbind option_bind];
    [|apply snap_scan_raised].
  rewrite snap_try_measure.
  destruct (measure pow_2 x y s ps) as [m|]; cbn [mbind option_bind];
    [|apply snap_scan_raised].
  rewrite IH.
  destruct (measured pow_2 shapes x y ex) as [ms|]; cbn [mbind option_bind];
    [|done].
  by rewrite foldl_app.
Qed.

(** The invariant holds after each anchor. *)
Lemma pick_inv (x y : Double.num) (seen : list Measured)
    (st : Double.SnapState) (c : Measured) :
  nearest_inv x y seen st → nearest_inv x y (seen ++ [c]) (pick st c).
Proof.
  intros [Hmin Hsh]. unfold pick.
  destruct (Double.lt c.2 (Double.min_dist st)) eqn:Hlt.
  - split; cbn [Double.min_dist Double.snap_shape Double.snap_x
                Double.snap_y].
    + intros c' [Hc'| ->%list_elem_of_singleton]%elem_of_app.
      * by apply (lt_false_below _ _ (Double.min_dist st)); [apply Hmin|].
      * apply lt_irrefl.
    + split.
      * apply elem_of_app. right. apply list_elem_of_singleton.
        by destruct c as [[[px py] s] d].
      * destruct (Double.snap_shape st).
        -- destruct Hsh as [_ Hlt']. by eapply lt_trans.
        -- destruct Hsh as (<- & _). done.
  - split.
    + intros c' [Hc'| ->%list_elem_of_singleton]%elem_of_app;
        [by apply Hmin|done].
    + destruct (Double.snap_shape st); [|done].
      destruct Hsh as [Hin Hlt']. split; [|done].
      apply elem_of_app. by left.
Qed.

Lemma pick_fold_inv (x y : Double.num) (rest seen : list Measured)
    (st : Double.SnapState) :
  nearest_inv x y seen st →
  nearest_inv x y (seen ++ rest) (foldl pick st rest).
Proof.
  revert seen st. induction rest as [|c rest IH]; intros seen st Hinv.
  - by rewrite app_nil_r.
  - cbn [foldl].
    replace (seen ++ c :: rest) with ((seen ++ [c]) ++ rest)
      by (by rewrite <- app_assoc).
    apply IH. by apply pick_inv.
Qed.

(** ** What the scan measures *)

Lemma measure_elem (pow_2 : Qc → Double.float)
    (x y : Double.num) (shape : Double.Shape)
    (ps : list Double.Point) (m : list Measured)
    (p : Double.Point) (s : Double.Shape) (d : Double.num) :
  measure pow_2 x y shape ps = Some m →
  (p, s, d) ∈ m
  ↔ s = shape ∧ p ∈ ps ∧ Double.dist pow_2 x y p = Some d.
Proof.
  revert m. induction ps as [|q ps IH]; intros m.
  - intros [= <-]. split; [by intros ?%elem_of_nil|].
    by intros (_ & ?%elem_of_nil & _).
  - cbn [measure].
    destruct (Double.dist pow_2 x y q) as [dq|] eqn:Hq; [|done].
    cbn [mbind option_bind].
    destruct (measure pow_2 x y shape ps) as [m'|]; [|done].
    cbn [mbind option_bind]. intros [= <-].
    rewrite !elem_of_cons, (IH m' eq_refl). split.
    + intros [[= -> -> ->]|(-> & Hp & Hd)]; [by split_and!; [|left|]|].
      split_and!; [done|by right|done].
    + intros (-> & [->|Hp] & Hd); [left|right; by split_and!].
      rewrite Hq in Hd. by injection Hd as ->.
Qed.

Lemma measure_defined (pow_2 : Qc → Double.float)
    (x y : Double.num) (shape : Double.Shape)
    (ps : list Double.Point) :
  is_Some (measure pow_2 x y shape ps)
  ↔ ∀ p, p ∈ ps → is_Some (Double.dist pow_2 x y p).
Proof.
  induction ps as [|q ps IH].
  - split; [by intros _ p ?%elem_of_nil|by eexists].
  - cbn [measure]. split.
    + destruct (Double.dist pow_2 x y q) as [dq|] eqn:Hq; [|by intros [? [=]]].
      cbn [mbind option_bind].
      destruct (measure pow_2 x y shape ps) as [m'|]; [|by intros [? [=]]].
      intros _ p [->|Hp]%elem_of_cons; [by rewrite Hq|].
      apply IH; [by eexists|done].
    + intros Hall.
      destruct (Hall q) as [dq Hq]; [by left|].
      destruct IH as [_ [m' Hm']]; [intros p Hp; apply Hall; by right|].
      rewrite Hq. cbn [mbind option_bind]. rewrite Hm'. by eexists.
Qed.

Lemma eligible_shape_test (ex : option Double.Shape) (s : Double.Shape) :
  Double.excluded s ex || Double.is_line s = false ↔ eligible_shape ex s.
Proof. unfold eligible_shape. apply orb_false_iff. Qed.

Lemma measured_elem (pow_2 : Qc → Double.float)
    (shapes : list Double.Shape) (x y : Double.num)
    (ex : option Double.Shape) (ms : list Measured)
    (p : Double.Point) (s : Double.Shape) (d : Double.num) :
  measured pow_2 shapes x y ex = Some ms →
  (p, s, d) ∈ ms
  ↔ anchor_at shapes ex p s ∧ Double.dist pow_2 x y p = Some d.
Proof.
  unfold anchor_at.
  revert ms. induction shapes as [|t shapes IH]; intros ms.
  - intros [= <-]. split; [by intros ?%elem_of_nil|].
    by intros [(?%elem_of_nil & _) _].
  - cbn [measured].
    destruct (Double.excluded t ex || Double.is_line t) eqn:Ht.
    + intros Hms. rewrite (IH ms Hms). split.
      * intros [(Hs & He & Hps) Hd]. split; [|done].
        split_and!; [by right|done..].
      * intros [([->|Hs]%elem_of_cons & He & Hps) Hd]; [|done].
        apply eligible_shape_test in He. by rewrite He in Ht.
    + destruct (Double.snap_points t) as [ps|] eqn:Hps; [|done].
      cbn [mbind option_bind].
      destruct (measure pow_2 x y t ps) as [m|] eqn:Hm; [|done].
      cbn [mbind option_bind].
      destruct (measured pow_2 shapes x y ex) as [ms'|]; [|done].
      cbn [mbind option_bind]. intros [= <-].
      rewrite elem_of_app, (measure_elem _ _ _ _ _ _ _ _ _ Hm),
        (IH ms' eq_refl).
      split.
      * intros [(-> & Hp & Hd)|[(Hs & He & Hps') Hd]].
        -- split; [|done]. split_and!; [by left| |by exists ps].
           by apply eligible_shape_test.
        -- split; [|done]. split_and!; [by right|done..].
      * intros [([->|Hs]%elem_of_cons & He & (ps' & Hps' & Hp)) Hd].
        -- left. rewrite Hps in Hps'. injection Hps' as <-. done.
        -- right. split; [|done]. split_and!; [done..|by exists ps'].
Qed.

Lemma measured_defined (pow_2 : Qc → Double.float)
    (shapes : list Double.Shape) (x y : Double.num)
    (ex : option Double.Shape) :
  is_Some (measured pow_2 shapes x y ex) ↔ scan_defined pow_2 shapes x y ex.
Proof.
  unfold scan_defined. induction shapes as [|t shapes IH].
  - split; [by intros _ s ?%elem_of_nil|by eexists].
  - cbn [measured].
    destruct (Double.excluded t ex || Double.is_line t) eqn:Ht.
    + rewrite IH. split.
      * intros Hall s [->|Hs]%elem_of_cons He; [|by apply Hall].
        apply eligible_shape_test in He. by rewrite He in Ht.
      * intros Hall s Hs. apply Hall. by right.
    + apply eligible_shape_test in Ht. split.
      * destruct (Double.snap_points t) as [ps|] eqn:Hps;
          [|by intros [? [=]]].
        cbn [mbind option_bind].
        destruct (measure pow_2 x y t ps) as [m|] eqn:Hm; [|by intros [? [=]]].
        cbn [mbind option_bind].
        destruct (measured pow_2 shapes x y ex) as [ms'|]; [|by intros [? [=]]].
        intros _ s [->|Hs]%elem_of_cons He.
        -- exists ps. split; [done|].
           apply (measure_defined pow_2 x y t). by rewrite Hm.
        -- apply IH; [by eexists|done..].
      * intros Hall.
        destruct (Hall t) as (ps & Hsp & Hps); [by left|done|].
        apply (measure_defined pow_2 x y t) in Hps as [m Hm].
        destruct IH as [_ [ms' Hms']];
          [intros s Hs; apply Hall; by right|].
        rewrite Hsp. cbn [mbind option_bind]. rewrite Hm.
        cbn [mbind option_bind]. rewrite Hms'. by eexists.
Qed.

(** ** The anchors *)

(** The anchors the code computes are those the specification lists. *)
Lemma snap_points_anchor_points (s : Double.Shape) :
  Double.snap_points s = anchor_points s.
Proof.
  unfold Double.snap_points, anchor_points, edge_midpoints,
    cardinal_points, triangle_points, corners.
  cbv zeta.
  rewrite (bool_decide_ext (Double.shape_type s ∈ ["rectangle"; "square"])
             (Double.shape_type s = "rectangle"
              ∨ Double.shape_type s = "square")).
  2:{ rewrite elem_of_cons, list_elem_of_singleton. done. }
  rewrite (bool_decide_ext (Double.shape_type s ∈ ["circle"; "ellipse"])
             (Double.shape_type s = "circle"
              ∨ Double.shape_type s = "ellipse")).
  2:{ rewrite elem_of_cons, list_elem_of_singleton. done. }
  case_bool_decide.
  { destruct (Double.mid (Double.x1 s) (Double.x2 s)); [|done].
    cbn [mbind option_bind].
    by destruct (Double.mid (Double.y1 s) (Double.y2 s)). }
  done.
Qed.

(** ** The claim *)

Lemma get_snap_point_measured (pow_2 : Qc → Double.float)
    (shapes : list Double.Shape)
    (x y : Double.num) (ex : option Double.Shape) :
  Double.get_snap_point pow_2 shapes x y ex
  = (ms ← measured pow_2 shapes x y ex;
     let st := foldl pick {| Double.min_dist := Double.snap_distance;
                             Double.snap_x := x; Double.snap_y := y;
                             Double.snap_shape := None |} ms in
     Some (Double.snap_x st, Double.snap_y st, Double.snap_shape st)).
Proof.
  unfold Double.get_snap_point. cbv zeta. rewrite snap_scan_measured.
  by destruct (measured pow_2 shapes x y ex).
Qed.

Lemma scan_inv (x y : Double.num) (ms : list Measured) :
  nearest_inv x y ms
    (foldl pick {| Double.min_dist := Double.snap_distance;
                   Double.snap_x := x; Double.snap_y := y;
                   Double.snap_shape := None |} ms).
Proof.
  apply (pick_fold_inv x y ms []). split; [by intros c ?%elem_of_nil|done].
Qed.

(** C7, the claim as stated, fails at a rounding boundary.  The corner
    [(15, 0)] of the rectangle lies at the Euclidean distance
    [15 - 2 ** -60] from the query point [(2 ** -60, 0)], less than 15,
    but the difference [2 ** -60 - 15] is rounded to [-15.0], whose
    square 225 and its root 15 are exact, and the distance computed is
    [15.0]: the query point comes back with no shape. *)
Lemma get_snap_point_rounding_counterexample :
  Double.get_snap_point Double.pow_2_cr [box "rectangle" 15 0 30 10]
                        tiny (int 0) None
  = Some (tiny, int 0, None) ∧
  anchor_at [box "rectangle" 15 0 30 10] None (int 15, int 0)
            (box "rectangle" 15 0 30 10) ∧
  ∃ d2, euclid2 tiny (int 0) (int 15, int 0) = Some d2 ∧
        (d2 < Qcz 15 * Qcz 15)%Qc.
Proof.
  split_and!.
  - by_compute.
  - split_and!; [apply list_elem_of_here|done|].
    eexists. split; [vm_compute; reflexivity|apply list_elem_of_here].
  - eexists. split; [reflexivity|by_compute].
Qed.

(** C7 (as amended).  Where no anchor and no distance computation raises,
    [get_snap_point] returns an anchor of an eligible shape (not equal to
    the excluded shape, not of the line family) together with that shape
    exactly when the distance of some such anchor, as the code computes it
    in double precision, is less than 15, and then no anchor of any
    eligible shape has a smaller computed distance; otherwise it returns
    the query point and no shape.  When a computation raises, the call
    raises.  This holds whatever the C library's [pow] returns.  The
    anchors are the corners and edge midpoints of a rectangle or square,
    the cardinal points of a circle or ellipse and the apex and base
    corners of a triangle.  At the distance 14.9 from a corner of a
    rectangle the corner is returned, at 15.1 the query point is (with a
    [pow] that rounds correctly). *)
Theorem get_snap_point_nearest_measured (pow_2 : Qc → Double.float)
    (shapes : list Double.Shape) (x y : Double.num)
    (exclude_shape : option Double.Shape) :
  (scan_defined pow_2 shapes x y exclude_shape →
   ∃ sx sy r,
     Double.get_snap_point pow_2 shapes x y exclude_shape
     = Some (sx, sy, r) ∧
     match r with
     | Some s =>
         anchor_at shapes exclude_shape (sx, sy) s ∧
         ∃ d, Double.dist pow_2 x y (sx, sy) = Some d ∧
              Double.lt d Double.snap_distance = true ∧
              ∀ p s' d', anchor_at shapes exclude_shape p s' →
                         Double.dist pow_2 x y p = Some d' →
                         Double.lt d' d = false
     | None =>
         sx = x ∧ sy = y ∧
         ∀ p s' d', anchor_at shapes exclude_shape p s' →
                    Double.dist pow_2 x y p = Some d' →
                    Double.lt d' Double.snap_distance = false
     end) ∧
  (¬ scan_defined pow_2 shapes x y exclude_shape →
   Double.get_snap_point pow_2 shapes x y exclude_shape = None) ∧
  (∀ s, Double.snap_points s = anchor_points s) ∧
  Double.get_snap_point Double.pow_2_cr [box "rectangle" 0 0 10 10]
                        (dbl (-149) 10) (int 0) None
  = Some (int 0, int 0, Some (box "rectangle" 0 0 10 10)) ∧
  Double.get_snap_point Double.pow_2_cr [box "rectangle" 0 0 10 10]
                        (dbl (-151) 10) (int 0) None
  = Some (dbl (-151) 10, int 0, None).
Proof.
  split_and!; [| |apply snap_points_anchor_points|by_compute|by_compute].
  - intros [ms Hms]%measured_defined.
    rewrite get_snap_point_measured, Hms. cbn [mbind option_bind]. cbv zeta.
    destruct (scan_inv x y ms) as [Hmin Hsh].
    eexists _, _, _. split; [reflexivity|].
    destruct (Double.snap_shape _) as [s|].
    + destruct Hsh as [Hin Hlt].
      apply (measured_elem _ _ _ _ _ _ _ _ _ Hms) in Hin as [Han Hd].
      split; [done|]. eexists. split_and!; [done..|].
      intros p s' d' Hp Hd'.
      apply (Hmin (p, s', d')).
      by apply (measured_elem _ _ _ _ _ _ _ _ _ Hms).
    + destruct Hsh as (Hm & -> & ->). split_and!; [done..|].
      intros p s' d' Hp Hd'. rewrite <- Hm.
      apply (Hmin (p, s', d')).
      by apply (measured_elem _ _ _ _ _ _ _ _ _ Hms).
  - intros Hno. rewrite get_snap_point_measured.
    destruct (measured pow_2 shapes x y exclude_shape) as [ms|] eqn:Hms;
      [|done].
    destruct Hno. apply measured_defined. by eexists.
Qed.

(** ** Ties *)

Lemma not_lt_farther (a d m : Double.num) :
  Double.lt a m = false → Double.lt d m = true → farther a d.
Proof.
  unfold farther, Double.lt.
  destruct (Double.value a) as [x|[]|], (Double.value d) as [z|[]|],
    (Double.value m) as [w|[]|]; cbn [Double.flt];
    try done; try (by left); try (by right).
  rewrite bool_decide_eq_false, !bool_decide_eq_true.
  intros Hxw%Qcnot_lt_le Hzw. left. by apply (Qclt_le_trans z w x).
Qed.

Lemma farther_below (c m d : Double.num) :
  farther c m → Double.lt d m = true → farther c d.
Proof.
  intros [Hmc|Hnan] Hdm; [left|by right]. by apply (lt_trans d m c).
Qed.

Lemma pick_first_inv (seen : list Measured) (st : Double.SnapState)
    (c : Measured) :
  first_inv seen st → first_inv (seen ++ [c]) (pick st c).
Proof.
  unfold first_inv, pick. intros Hinv.
  destruct (Double.lt c.2 (Double.min_dist st)) eqn:Hlt.
  - cbn [Double.snap_shape Double.min_dist Double.snap_x Double.snap_y].
    exists seen, []. split; [by destruct c as [[[px py] s] d]|].
    destruct (Double.snap_shape st) as [s|].
    + destruct Hinv as (l1 & l2 & -> & Hm & H1 & H2). split_and!.
      * by eapply lt_trans.
      * intros c' [Hc'|[->|Hc']%elem_of_cons]%elem_of_app.
        -- by apply (farther_below _ (Double.min_dist st)); [apply H1|].
        -- by left.
        -- by apply (not_lt_farther _ _ (Double.min_dist st)); [apply H2|].
      * by intros c' ?%elem_of_nil.
    + destruct Hinv as [Hm Hall]. split_and!.
      * by rewrite <- Hm.
      * intros c' Hc'.
        apply (not_lt_farther _ _ (Double.min_dist st)); [|done].
        rewrite Hm. by apply Hall.
      * by intros c' ?%elem_of_nil.
  - destruct (Double.snap_shape st) as [s|].
    + destruct Hinv as (l1 & l2 & -> & Hm & H1 & H2).
      exists l1, (l2 ++ [c]). split_and!; [by rewrite <- app_assoc|done..|].
      intros c' [Hc'| ->%list_elem_of_singleton]%elem_of_app;
        [by apply H2|done].
    + destruct Hinv as [Hm Hall]. split; [done|].
      intros c' [Hc'| ->%list_elem_of_singleton]%elem_of_app;
        [by apply Hall|by rewrite <- Hm].
Qed.

Lemma pick_fold_first_inv (rest seen : list Measured)
    (st : Double.SnapState) :
  first_inv seen st → first_inv (seen ++ rest) (foldl pick st rest).
Proof.
  revert seen st. induction rest as [|c rest IH]; intros seen st Hinv.
  - by rewrite app_nil_r.
  - cbn [foldl].
    replace (seen ++ c :: rest) with ((seen ++ [c]) ++ rest)
      by (by rewrite <- app_assoc).
    apply IH. by apply pick_first_inv.
Qed.

(** X4. Among the anchors of least computed distance [get_snap_point]
    returns the one its scan meets first.  In the list of the eligible
    anchors in scan order (shapes in drawing order, anchors in the order
    of the source), each with the distance the code computes for it in
    double precision, every anchor before the returned one has a greater
    computed distance (or a NaN) and no anchor after it has a smaller
    one. *)
Theorem get_snap_point_first_nearest (pow_2 : Qc → Double.float)
    (shapes : list Double.Shape)
    (x y : Double.num) (exclude_shape : option Double.Shape)
    (ms : list Measured) :
  measured pow_2 shapes x y exclude_shape = Some ms →
  ∃ sx sy r,
    Double.get_snap_point pow_2 shapes x y exclude_shape = Some (sx, sy, r) ∧
    match r with
    | Some s =>
        ∃ l1 l2 d,
          ms = l1 ++ ((sx, sy), s, d) :: l2 ∧
          (∀ c, c ∈ l1 → farther c.2 d) ∧
          (∀ c, c ∈ l2 → Double.lt c.2 d = false)
    | None => True
    end.
Proof.
  intros Hms. rewrite get_snap_point_measured, Hms.
  cbn [mbind option_bind]. cbv zeta.
  pose proof (pick_fold_first_inv ms []
    {| Double.min_dist := Double.snap_distance;
       Double.snap_x := x; Double.snap_y := y;
       Double.snap_shape := None |}) as Hinv.
  unfold first_inv at 2 in Hinv. rewrite app_nil_l in Hinv.
  eexists _, _, _. split; [reflexivity|].
  destruct (Double.snap_shape _) as [s|]; [|done].
  destruct Hinv as (l1 & l2 & Hseen & _ & H1 & H2).
  { split; [done|]. by intros c ?%elem_of_nil. }
  eexists l1, l2, _. by split_and!.
Qed.

(** Two squares side by side and a query point half way between their
    facing corners: the corner of the first is returned. *)
Lemma get_snap_point_first_nearest_witness :
  ∃ ms sx sy r,
    measured Double.pow_2_cr two_squares (int 15) (int 0) None = Some ms ∧
    Double.get_snap_point Double.pow_2_cr two_squares (int 15) (int 0) None
    = Some (sx, sy, r).
Proof.
  pose (ms := default [] (measured Double.pow_2_cr two_squares
                                   (int 15) (int 0) None)).
  assert (measured Double.pow_2_cr two_squares (int 15) (int 0) None
          = Some ms) as Hms
    by (vm_compute; reflexivity).
  destruct (get_snap_point_first_nearest _ _ _ _ _ ms Hms)
    as (sx & sy & r & Hr & _).
  exists ms, sx, sy, r. split; [exact Hms|exact Hr].
Defined.

Example get_snap_point_tie :
  Double.get_snap_point Double.pow_2_cr two_squares (int 15) (int 0) None
  = Some (int 10, int 0, Some (box "square" 0 0 10 10)).
Proof. by_compute. Qed.

(* ====================================================================== *)
(** * The grid in double precision *)
(* ====================================================================== *)

(** ** Powers of two *)

Lemma Qcz_lt (a b : Z) : (a < b)%Z ↔ (Qcz a < Qcz b)%Qc.
Proof.
  unfold Qclt, Qcz, Q2Qc. cbn [this]. rewrite !Qred_correct.
  by rewrite <- Zlt_Qlt.
Qed.

Lemma Qcz_inj (a b : Z) : Qcz a = Qcz b → a = b.
Proof. intros H. by rewrite <- (py_round_Qcz a), H, py_round_Qcz. Qed.

Lemma pow2_nonneg (e : Z) : (0 <= e)%Z → Double.pow2 e = Qcz (2 ^ e).
Proof.
  intros He. unfold Double.pow2.
  by rewrite (proj2 (Z.leb_le 0 e) He).
Qed.

Lemma pow2_nonpos (e : Z) :
  (e <= 0)%Z → Double.pow2 e = (/ Qcz (2 ^ (- e)))%Qc.
Proof.
  intros He. unfold Double.pow2.
  destruct (0 <=? e)%Z eqn:H0; [|done].
  apply Z.leb_le in H0. assert (e = 0%Z) as -> by lia.
  by_compute.
Qed.

Lemma Qcz_pow2_pos (k : Z) : (0 <= k)%Z → (Qcz 0 < Qcz (2 ^ k))%Qc.
Proof.
  intros Hk. apply (proj1 (Qcz_lt 0 (2 ^ k))). by apply Z.pow_pos_nonneg.
Qed.

Lemma Qcinv_pos (a : Qc) : (Qcz 0 < a)%Qc → (Qcz 0 < / a)%Qc.
Proof.
  unfold Qclt, Qcinv, Qcz, Q2Qc. cbn [this]. rewrite !Qred_correct.
  apply Qinv_lt_0_compat.
Qed.

Lemma pow2_pos (e : Z) : (Qcz 0 < Double.pow2 e)%Qc.
Proof.
  destruct (Z.le_ge_cases 0 e) as [He|He].
  - rewrite pow2_nonneg by done. by apply Qcz_pow2_pos.
  - rewrite pow2_nonpos by done. apply Qcinv_pos, Qcz_pow2_pos. lia.
Qed.

Lemma pow2_nonzero (e : Z) : Double.pow2 e ≠ Qcz 0.
Proof.
  intros H. pose proof (pow2_pos e) as Hp. rewrite H in Hp.
  by apply (Qcle_not_lt _ _ (Qcle_refl (Qcz 0))) in Hp.
Qed.

(** [2 ^ f = 2 ^ (f - e) * 2 ^ e] below zero. *)
Lemma pow2_shift (e f : Z) :
  (e <= f)%Z → (f <= 0)%Z →
  Double.pow2 f = (Qcz (2 ^ (f - e)) * Double.pow2 e)%Qc.
Proof.
  intros Hef Hf. rewrite (pow2_nonpos f), (pow2_nonpos e) by lia.
  assert (- e = (f - e) + - f)%Z as -> by lia.
  rewrite Z.pow_add_r by lia. rewrite Qcz_mult, Qcinv_mult_distr.
  rewrite Qcmult_assoc, Qcmult_inv_r, Qcmult_1_l; [done|].
  apply Qcz_nonzero. apply Z.pow_nonzero; lia.
Qed.

Lemma pow2_le (e f : Z) :
  (e <= f)%Z → (f <= 0)%Z → (Double.pow2 e <= Double.pow2 f)%Qc.
Proof.
  intros Hef Hf. rewrite (pow2_shift e f) by done.
  rewrite <- (Qcmult_1_l (Double.pow2 e)) at 1.
  apply Qcmult_le_compat_r; [|apply Qclt_le_weak, pow2_pos].
  apply (proj1 (Qcz_le 1 (2 ^ (f - e)))).
  pose proof (Z.pow_pos_nonneg 2 (f - e)). lia.
Qed.

(** ** The exponent of a small number *)

Lemma Qc_lt_Qcz (q : Qc) (z : Z) :
  (q < Qcz z)%Qc ↔ (Qnum q < z * Zpos (Qden q))%Z.
Proof.
  unfold Qclt, Qcz, Q2Qc. cbn [this]. rewrite Qred_correct.
  unfold Qlt. cbn [Qnum Qden inject_Z]. by rewrite Z.mul_1_r.
Qed.

Lemma Qcz_lt_Qc (q : Qc) (z : Z) :
  (Qcz z < q)%Qc ↔ (z * Zpos (Qden q) < Qnum q)%Z.
Proof.
  unfold Qclt, Qcz, Q2Qc. cbn [this]. rewrite Qred_correct.
  unfold Qlt. cbn [Qnum Qden inject_Z]. by rewrite Z.mul_1_r.
Qed.

Lemma ilog2_upper (q : Qc) (k : Z) :
  (0 <= k)%Z → (Qcz 0 < q)%Qc → (q < Qcz (2 ^ k))%Qc →
  (Double.ilog2 q < k)%Z.
Proof.
  intros Hk Hpos Hlt. unfold Double.ilog2.
  set (c := (Z.log2 (Qnum q) - Z.log2 (Z.pos (Qden q)))%Z).
  case_bool_decide as Hc.
  - destruct (Z.lt_ge_cases c k) as [|Hkc]; [done|]. exfalso.
    rewrite pow2_nonneg in Hc by lia.
    apply (Qcle_not_lt _ _ Hc). eapply Qclt_le_trans; [exact Hlt|].
    apply (proj1 (Qcz_le (2 ^ k) (2 ^ c))). by apply Z.pow_le_mono_r.
  - apply Qc_lt_Qcz in Hlt. apply Qcz_lt_Qc in Hpos.
    rewrite Z.mul_0_l in Hpos.
    pose proof (Z.log2_spec (Z.pos (Qden q)) eq_refl) as [_ Hd].
    assert (Qnum q < 2 ^ (k + Z.succ (Z.log2 (Z.pos (Qden q)))))%Z as Hn.
    { rewrite Z.pow_add_r by (pose proof (Z.log2_nonneg (Z.pos (Qden q))); lia).
      pose proof (Z.pow_pos_nonneg 2 k). nia. }
    apply Z.log2_lt_pow2 in Hn; [|done]. lia.
Qed.

(** ** Rounding a small number *)

Lemma scaled_round_near (q : Qc) (e : Z) :
  (Qcabs (Qcz (py_round (q / Double.pow2 e)) * Double.pow2 e - q)
   <= half * Double.pow2 e)%Qc.
Proof.
  pose proof (pow2_pos e) as Hpos. pose proof (pow2_nonzero e) as Hnz.
  assert (q = q / Double.pow2 e * Double.pow2 e)%Qc as Hq.
  { rewrite Qcmult_comm. symmetry. by apply Qcmult_div_r. }
  generalize dependent (q / Double.pow2 e)%Qc. intros t ->.
  assert (Qcz (py_round t) * Double.pow2 e - t * Double.pow2 e
          = (Qcz (py_round t) - t) * Double.pow2 e)%Qc as -> by ring.
  rewrite Qcabs_Qcmult, (Qcabs_pos (Double.pow2 e))
    by (by apply Qclt_le_weak).
  apply Qcmult_le_compat_r; [|by apply Qclt_le_weak].
  rewrite Qcabs_Qcminus. apply py_round_near.
Qed.

Lemma Qcabs_pos_nonzero (q : Qc) : q ≠ Qcz 0 → (Qcz 0 < Qcabs q)%Qc.
Proof.
  intros Hq. destruct (Qcle_lt_or_eq _ _ (Qcabs_nonneg q)) as [H|H]; [done|].
  destruct Hq. apply Qcabs_null. by rewrite <- H.
Qed.

Lemma rnd_small (q : Qc) :
  q ≠ Qcz 0 → (Qcabs q < Qcz (2 ^ 31))%Qc →
  ∃ e, (-1074 <= e <= -22)%Z ∧
       Double.rnd q
       = Double.Fin (Qcz (py_round (q / Double.pow2 e)) * Double.pow2 e).
Proof.
  intros Hq Hlt. unfold Double.rnd.
  rewrite bool_decide_eq_false_2 by done.
  pose proof (ilog2_upper (Qcabs q) 31 ltac:(done)
                (Qcabs_pos_nonzero q Hq) Hlt) as Hl.
  set (e := Z.max (Double.ilog2 (Qcabs q) - 52) (-1074)).
  assert (-1074 <= e <= -22)%Z as He by (unfold e; lia).
  exists e. split; [done|].
  rewrite bool_decide_eq_false_2; [done|]. apply Qclt_not_le.
  set (r := (Qcz (py_round (q / Double.pow2 e)) * Double.pow2 e)%Qc).
  assert (r = r - q + q)%Qc as -> by ring.
  eapply Qcle_lt_trans; [apply Qcabs_triangle|].
  eapply Qcle_lt_trans.
  { apply Qcplus_le_compat; [apply scaled_round_near|].
    apply Qclt_le_weak, Hlt. }
  eapply Qcle_lt_trans.
  { apply Qcplus_le_compat; [|apply Qcle_refl].
    rewrite (Qcmult_comm half). apply Qcmult_le_compat_r.
    - apply (pow2_le e (-22)); lia.
    - by_compute. }
  by_compute.
Qed.

(** A multiple of [2 ^ -22] below [2 ^ 31] in magnitude is a double. *)
Lemma rnd_exact (z : Z) :
  (Qcabs (Qcz z * Double.pow2 (-22)) < Qcz (2 ^ 31))%Qc →
  Double.rnd (Qcz z * Double.pow2 (-22))
  = Double.Fin (Qcz z * Double.pow2 (-22)).
Proof.
  intros Hlt.
  destruct (decide (Qcz z * Double.pow2 (-22) = Qcz 0)%Qc) as [H0|Hnz].
  { rewrite H0. by_compute. }
  destruct (rnd_small _ Hnz Hlt) as (e & He & ->). f_equal.
  rewrite (pow2_shift e (-22)) by lia.
  rewrite Qcmult_assoc, Qcdiv_mult_l by apply pow2_nonzero.
  by rewrite <- Qcz_mult, py_round_Qcz.
Qed.

(** ** Rounding a rounded quotient *)

Lemma py_round_stable (r : Qc) (k : Z) :
  (- (1 # 2) < r - inject_Z k)%Q → (r - inject_Z k < 1 # 2)%Q →
  py_round r = k.
Proof.
  intros Hlo Hhi. unfold py_round.
  pose proof (Qfloor_le r) as Hfl. pose proof (Qlt_floor r) as Hfu.
  rewrite inject_Z_plus in Hfu. change (inject_Z 1) with 1%Q in Hfu.
  assert (Qfloor r < k + 1)%Z as Hle.
  { rewrite Zlt_Qlt, inject_Z_plus. change (inject_Z 1) with 1%Q. lra. }
  assert (k < Qfloor r + 2)%Z as Hge.
  { rewrite Zlt_Qlt, inject_Z_plus. change (inject_Z 2) with 2%Q. lra. }
  assert (Qfloor r = k ∨ Qfloor r = (k - 1)%Z) as [Hf|Hf] by lia.
  - rewrite Hf. destruct (Qlt_le_dec _ _) as [H1|H1]; [done|]. lra.
  - rewrite Hf in *.
    assert (inject_Z (k - 1) == inject_Z k - 1)%Q as E.
    { unfold Z.sub. rewrite inject_Z_plus, inject_Z_opp. reflexivity. }
    destruct (Qlt_le_dec _ _) as [H1|H1]; [lra|].
    destruct (Qlt_le_dec _ _) as [H2|H2]; [lia|lra].
Qed.

Lemma Qcz_Q (z : Z) : (Qcz z == inject_Z z)%Q.
Proof. unfold Qcz, Q2Qc. cbn [this]. apply Qred_correct. Qed.

Lemma Qc_mult_Q (a b : Qc) : ((a * b)%Qc == a * b)%Q.
Proof. unfold Qcmult, Q2Qc. cbn [this]. apply Qred_correct. Qed.

Lemma quotient_Q (x sp : Z) :
  sp ≠ 0%Z →
  ((Qcz x / Qcz sp)%Qc * inject_Z sp == inject_Z x)%Q.
Proof.
  intros Hsp.
  pose proof (test_field (Qcz x) (Qcz sp) (Qcz_nonzero sp Hsp)) as H.
  pose proof (Qc_mult_Q (Qcz x / Qcz sp) (Qcz sp)) as E.
  rewrite H in E. rewrite <- (Qcz_Q sp), <- E. apply Qcz_Q.
Qed.

Lemma Qc_minus_Q (a b : Qc) : ((a - b)%Qc == a - b)%Q.
Proof.
  unfold Qcminus, Qcplus, Qcopp, Q2Qc. cbn [this].
  by rewrite !Qred_correct.
Qed.

Lemma Qcabs_bound_Q (a : Qc) (c : Q) :
  (- c <= a)%Q → (a <= c)%Q → (Qcabs a <= Q2Qc c)%Qc.
Proof.
  intros Hlo Hhi. apply Qcabs_Qcle_condition.
  unfold Qcle, Qcopp, Q2Qc. cbn [this]. rewrite !Qred_correct. by split.
Qed.

Lemma Qcabs_bound_inv_Q (a : Qc) (c : Qc) :
  (Qcabs a <= c)%Qc → (- c <= a)%Q ∧ (a <= c)%Q.
Proof.
  intros H. apply Qcabs_Qcle_condition in H as [Hlo Hhi].
  revert Hlo Hhi. unfold Qcle, Qcopp, Q2Qc. cbn [this].
  rewrite !Qred_correct. by split.
Qed.

Lemma half_pow2_22 : (half * Double.pow2 (-22))%Qc = Q2Qc (1 # 8388608).
Proof. by_compute. Qed.

(** The quotient of a screen coordinate by a grid spacing, rounded to a
    double and then to an integer, is the exact quotient rounded to an
    integer: between the quotient and the nearest half-integer that it is
    not there is room for the rounding error. *)
Lemma round_of_rounded_quotient (x sp : Z) :
  (0 < sp)%Z → (sp <= 2 ^ 20)%Z → (Z.abs x < 2 ^ 31)%Z →
  ∃ r, Double.rnd (Qcz x / Qcz sp) = Double.Fin r ∧
       py_round r = py_round (Qcz x / Qcz sp).
Proof.
  intros Hsp0 Hsp Hx.
  pose proof (quotient_Q x sp ltac:(lia)) as HqS.
  set (q := (Qcz x / Qcz sp)%Qc) in *.
  assert (1 <= inject_Z sp)%Q as HS1.
  { change 1%Q with (inject_Z 1). rewrite <- Zle_Qle. lia. }
  assert (inject_Z sp <= 1048576)%Q as HS2.
  { change 1048576%Q with (inject_Z (2 ^ 20)). rewrite <- Zle_Qle. lia. }
  assert (inject_Z x <= 2147483647)%Q as HX1.
  { change 2147483647%Q with (inject_Z (2 ^ 31 - 1)). rewrite <- Zle_Qle. lia. }
  assert (- (2147483647) <= inject_Z x)%Q as HX2.
  { change (- (2147483647))%Q with (inject_Z (- (2 ^ 31 - 1))).
    rewrite <- Zle_Qle. lia. }
  assert (Qcabs q < Qcz (2 ^ 31))%Qc as Hq31.
  { eapply Qcle_lt_trans; [apply (Qcabs_bound_Q q 2147483647)|by_compute];
      nra. }
  set (k := py_round q).
  pose proof (py_round_near_Q q) as [Hk1 Hk2]. fold k in Hk1, Hk2.
  set (d := (x - k * sp)%Z).
  assert (inject_Z d == inject_Z x - inject_Z k * inject_Z sp)%Q as Hd.
  { unfold d, Z.sub. rewrite inject_Z_plus, inject_Z_opp, inject_Z_mult.
    reflexivity. }
  assert ((q - inject_Z k) * inject_Z sp == inject_Z d)%Q as Hu.
  { rewrite Hd, <- HqS. ring. }
  assert (2 * d <= sp)%Z as Hd1.
  { rewrite Zle_Qle, inject_Z_mult. change (inject_Z 2) with 2%Q. nra. }
  assert (- sp <= 2 * d)%Z as Hd2.
  { rewrite Zle_Qle, inject_Z_opp, inject_Z_mult.
    change (inject_Z 2) with 2%Q. nra. }
  destruct (decide (2 * d = sp ∨ 2 * d = - sp)%Z) as [Htie|Hno].
  - (* half way: the quotient is a double *)
    assert (∃ z, q = (Qcz z * Double.pow2 (-22))%Qc) as [z Hz].
    { destruct Htie as [Ht|Ht].
      - exists ((2 * k + 1) * 2 ^ 21)%Z. apply Qc_is_canon.
        rewrite Qc_mult_Q, Qcz_Q, inject_Z_mult, inject_Z_plus, inject_Z_mult.
        change (this (Double.pow2 (-22))) with (1 # 4194304)%Q.
        change (inject_Z (2 ^ 21)) with 2097152%Q.
        change (inject_Z 2) with 2%Q. change (inject_Z 1) with 1%Q.
        assert (2 * inject_Z d == inject_Z sp)%Q as Ht'.
        { rewrite <- Ht, inject_Z_mult. reflexivity. }
        assert ((q - inject_Z k - (1 # 2)) * inject_Z sp == 0)%Q as H0
          by nra.
        apply Qmult_integral in H0 as [H0|H0]; lra.
      - exists ((2 * k - 1) * 2 ^ 21)%Z. apply Qc_is_canon.
        unfold Z.sub.
        rewrite Qc_mult_Q, Qcz_Q, inject_Z_mult, inject_Z_plus, inject_Z_mult.
        change (this (Double.pow2 (-22))) with (1 # 4194304)%Q.
        change (inject_Z (2 ^ 21)) with 2097152%Q.
        change (inject_Z 2) with 2%Q. change (inject_Z (- (1))) with (-1)%Q.
        assert (2 * inject_Z d == - inject_Z sp)%Q as Ht'.
        { rewrite <- inject_Z_opp, <- Ht, inject_Z_mult. reflexivity. }
        assert ((q - inject_Z k + (1 # 2)) * inject_Z sp == 0)%Q as H0
          by nra.
        apply Qmult_integral in H0 as [H0|H0]; lra. }
    exists q. split; [|done]. rewrite Hz. apply rnd_exact. by rewrite <- Hz.
  - (* otherwise the rounding error is smaller than the margin *)
    assert (2 * d <= sp - 1)%Z as Hd1' by lia.
    assert (- sp + 1 <= 2 * d)%Z as Hd2' by lia.
    rewrite Zle_Qle in Hd1', Hd2'. unfold Z.sub in Hd1'.
    rewrite ?inject_Z_plus, ?inject_Z_opp, ?inject_Z_mult in Hd1', Hd2'.
    change (inject_Z 2) with 2%Q in Hd1', Hd2'.
    change (inject_Z 1) with 1%Q in Hd1', Hd2'.
    assert (q - inject_Z k <= (1 # 2) - (1 # 2097152))%Q as Hu1 by nra.
    assert (- (1 # 2) + (1 # 2097152) <= q - inject_Z k)%Q as Hu2 by nra.
    destruct (decide (q = Qcz 0)) as [Hq0|Hq0].
    { exists (Qcz 0).
      split; [rewrite Hq0; by_compute|unfold k; by rewrite Hq0]. }
    destruct (rnd_small q Hq0 Hq31) as (e & He & Hr).
    eexists. split; [exact Hr|].
    set (r := (Qcz (py_round (q / Double.pow2 e)) * Double.pow2 e)%Qc).
    assert (Qcabs (r - q) <= Q2Qc (1 # 8388608))%Qc as Hnear.
    { rewrite <- half_pow2_22. eapply Qcle_trans; [apply scaled_round_near|].
      rewrite !(Qcmult_comm half). apply Qcmult_le_compat_r.
      - apply (pow2_le e (-22)); lia.
      - by_compute. }
    apply Qcabs_bound_inv_Q in Hnear as [Hn1 Hn2].
    change (this (Q2Qc (1 # 8388608))) with (1 # 8388608)%Q in Hn1, Hn2.
    rewrite Qc_minus_Q in Hn1, Hn2.
    apply py_round_stable; lra.
Qed.

Lemma snap_coordinate (x sp : Z) :
  (0 < sp)%Z → (sp <= 2 ^ 20)%Z → (Z.abs x < 2 ^ 31)%Z →
  (Double.div (Double.Int x) (Double.Int sp) ≫= Double.round)
  = Some (py_round (Qcz x / Qcz sp)).
Proof.
  intros Hsp0 Hsp Hx. unfold Double.div.
  rewrite bool_decide_eq_false_2 by lia.
  destruct (round_of_rounded_quotient x sp Hsp0 Hsp Hx) as (r & -> & <-).
  done.
Qed.

Lemma grid_round_near_Z (x sp : Z) :
  (0 < sp)%Z →
  (2 * Z.abs (x - py_round (Qcz x / Qcz sp) * sp) <= sp)%Z.
Proof.
  intros Hsp. pose proof (grid_round_near sp (Qcz x) Hsp) as H.
  rewrite <- Qcz_minus, <- Qcz_abs in H. unfold div2 in H.
  revert H. generalize (Z.abs (x - py_round (Qcz x / Qcz sp) * sp)).
  intros a H. rewrite Zle_Qle, inject_Z_mult. change (inject_Z 2) with 2%Q.
  revert H. unfold Qcle. rewrite Qc_mult_Q, !Qcz_Q.
  change (this half) with (1 # 2)%Q. lra.
Qed.

(** X20. Snapping a pointer position to the grid, in double precision.
    For [int] coordinates up to [2 ** 30] in magnitude and a grid spacing
    from 1 to [2 ** 20], [snap_point] with snapping on returns in each
    coordinate an [int] multiple of the spacing that is at most half a
    spacing away from the input, and it returns a point it has returned
    unchanged: the rounding of the quotient [x / sp] to a double does not
    change the integer it is rounded to. *)
Theorem snap_point_grid (sp x y : Z) :
  (0 < sp <= 2 ^ 20)%Z →
  (Z.abs x <= 2 ^ 30)%Z → (Z.abs y <= 2 ^ 30)%Z →
  ∃ i j : Z,
    Double.snap_point true sp (Double.Int x) (Double.Int y)
    = Some (Double.Int (i * sp), Double.Int (j * sp)) ∧
    (2 * Z.abs (x - i * sp) <= sp)%Z ∧
    (2 * Z.abs (y - j * sp) <= sp)%Z ∧
    Double.snap_point true sp (Double.Int (i * sp)) (Double.Int (j * sp))
    = Some (Double.Int (i * sp), Double.Int (j * sp)).
Proof.
  intros [Hsp0 Hsp] Hx Hy.
  set (i := py_round (Qcz x / Qcz sp)). set (j := py_round (Qcz y / Qcz sp)).
  pose proof (grid_round_near_Z x sp Hsp0) as Hi.
  pose proof (grid_round_near_Z y sp Hsp0) as Hj. fold i in Hi. fold j in Hj.
  assert (∀ a b, (Z.abs a < 2 ^ 31)%Z → (Z.abs b < 2 ^ 31)%Z →
            Double.snap_point true sp (Double.Int a) (Double.Int b)
            = Some (Double.Int (py_round (Qcz a / Qcz sp) * sp),
                    Double.Int (py_round (Qcz b / Qcz sp) * sp))) as Hsnap.
  { intros a b Ha Hb. unfold Double.snap_point. cbn [negb].
    pose proof (snap_coordinate a sp Hsp0 Hsp Ha) as Ea.
    pose proof (snap_coordinate b sp Hsp0 Hsp Hb) as Eb.
    destruct (Double.div (Double.Int a) (Double.Int sp)) as [qa|]; [|done].
    cbn [mbind option_bind] in *. rewrite Ea. cbn [mbind option_bind].
    destruct (Double.div (Double.Int b) (Double.Int sp)) as [qb|]; [|done].
    cbn [mbind option_bind] in *. rewrite Eb. done. }
  exists i, j. split_and!; [apply Hsnap; lia|done|done|].
  rewrite Hsnap by lia.
  by rewrite !grid_round_fixed by lia.
Qed.

(** A pointer at (47, -33) on the default grid of 20. *)
Lemma snap_point_grid_witness :
  ∃ i j : Z,
    Double.snap_point true 20 (Double.Int 47) (Double.Int (-33))
    = Some (Double.Int (i * 20), Double.Int (j * 20)) ∧
    (2 * Z.abs (47 - i * 20) <= 20)%Z.
Proof.
  assert (0 < 20 <= 2 ^ 20)%Z as H1 by (split; by_compute).
  assert (Z.abs 47 <= 2 ^ 30)%Z as H2 by by_compute.
  assert (Z.abs (-33) <= 2 ^ 30)%Z as H3 by by_compute.
  destruct (snap_point_grid 20 47 (-33) H1 H2 H3) as (i & j & Hs & Hi & _).
  exists i, j. split; [exact Hs|exact Hi].
Defined.
